(** * html_bot: the test-taking state machine and the attempt ledger

    A shallow embedding of [handlers/student.py] (the handlers
    [_start_test_for_topic], [cmd_test], [_send_question], [process_answer]
    and [_finish_test]) together with the parts of [database/db.py] they
    call, followed by the properties of the specification that concern them.
    The two handlers of [handlers/common.py] that take a message before
    [cmd_test] can, [process_full_name] and [process_question], are embedded
    for the dispatcher.  The administrator's methods of [database/db.py],
    [get_materials] and the parsers of [utils/parsers.py] are embedded as
    well, with properties of their own after those of the handlers.

    Python integers are unbounded, so they are [Z].  A table is the list of
    its rows in insertion order.  The dictionary kept by the FSM context has
    a fixed set of keys, each holding a value of one type, so it is a record
    of optional fields: [None] is an absent key and reading it raises
    [KeyError].  Handlers run in a state-and-exception monad in which the
    effects performed before an exception are kept, as they are when a
    coroutine raises after an [await]. *)

From stdpp Require Import gmap strings list.
From Stdlib Require Import ZArith Lia Permutation Sorted Ascii.

Open Scope Z_scope.

(** ** Rows of [database/db.py] *)

(** [users] *)
Record User := {
  u_user_id : Z;
  u_full_name : string;
  u_role : string
}.

(** [topics]; [is_available] is an INTEGER column, [attempt_limit] is
    nullable. *)
Record Topic := {
  t_topic_id : Z;
  t_title : string;
  t_is_available : Z;
  t_attempt_limit : option Z
}.

(** [questions] *)
Record Question := {
  q_question_id : Z;
  q_topic_id : Z;
  q_text : string;
  q_option1 : string;
  q_option2 : string;
  q_option3 : string;
  q_option4 : string;
  q_correct_option : Z
}.

(** [attempts]; the position of a row in the table stands for its
    autoincremented [attempt_id], the [timestamp] column is left out. *)
Record Attempt := {
  a_user_id : Z;
  a_topic_id : Z;
  a_score : Z;
  a_max_score : Z;
  a_attempt_number : Z
}.

(** [messages]; the [timestamp] column is left out. *)
Record MessageRow := {
  r_message_id : Z;
  r_from_user_id : Z;
  r_to_user_id : Z;
  r_text : string;
  r_is_answered : Z
}.

(** ** Exceptions *)

Inductive exn :=
| KeyError (key : string)
| IndexError
| ZeroDivisionError
| IntegrityError
| StorageError (code : Z).

(** The methods of [Database] that the student handlers call.  Each opens a
    connection and runs a statement, and each can raise there. *)
Inductive db_method :=
| m_get_user
| m_list_topics
| m_fetch_random_questions
| m_get_attempt_count
| m_save_attempt.

(** [db_fault] is the storage layer seen from the handlers: the exception, if
    any, that a method raises when it touches the database file. *)
Record Database := {
  users : list User;
  topics : list Topic;
  questions : list Question;
  attempts : list Attempt;
  messages : list MessageRow;
  db_fault : db_method -> option exn
}.

Definition no_fault : db_method -> option exn := fun _ => None.

Definition with_attempts (db : Database) (rows : list Attempt) : Database :=
  {| users := users db; topics := topics db; questions := questions db;
     attempts := rows; messages := messages db; db_fault := db_fault db |}.

Definition with_fault (db : Database) (f : db_method -> option exn) : Database :=
  {| users := users db; topics := topics db; questions := questions db;
     attempts := attempts db; messages := messages db; db_fault := f |}.

(** ** The FSM context ([states/forms.py] and aiogram's [FSMContext]) *)

Inductive State :=
| RegistrationState_waiting_full_name
| TestState_choosing_topic
| TestState_answering
| AddTopicState_waiting_title
| UploadTestState_choosing_topic
| UploadTestState_awaiting_file
| MaterialState_choosing_topic
| MaterialState_choosing_type
| MaterialState_awaiting_payload
| DeleteMaterialState_choosing_topic
| DeleteMaterialState_choosing_material
| QuestionState_awaiting_question
| QuestionState_awaiting_answer.

#[global] Instance State_eq_dec : EqDecision State.
Proof. solve_decision. Defined.

(** The keys that [student.py] stores with [update_data]. *)
Record Data := {
  d_attempts_done : option Z;
  d_topic_id : option Z;
  d_topic_title : option string;
  d_questions : option (list Question);
  d_current : option Z;
  d_correct : option Z
}.

Definition empty_data : Data :=
  {| d_attempts_done := None; d_topic_id := None; d_topic_title := None;
     d_questions := None; d_current := None; d_correct := None |}.

Record FSMContext := {
  fsm_state : option State;
  fsm_data : Data
}.

(** What the storage holds for a user that has no record yet. *)
Definition idle : FSMContext := {| fsm_state := None; fsm_data := empty_data |}.

(** ** Messages sent to the user

    A message is kept as the values formatted into its text.  The percentage
    of the result message is a floating-point rounding and is left out; the
    division that computes it is kept where it can raise.  The last five
    are the messages of [process_full_name] and [process_question];
    [AdminNotified] is the only one that goes to another chat, the
    administrator's. *)
Inductive Reply :=
| CallbackAck
| RegisterFirst
| NoTopicsOpen
| ChooseTopic (topic_ids : list Z)
| TopicUnavailable
| InsufficientQuestions
| LimitExhausted
| TestStarted (title : string)
| QuestionPresented (position : Z) (text : string) (options : list string)
                    (buttons : list (string * Z * Z))
| AttemptCompleted (score max_score attempt_number : Z)
| NextActions (topic_id : Z)
| FullNameRequired
| RegistrationDone
| QuestionEmpty
| QuestionSent
| AdminNotified (admin_id message_id : Z) (from_full_name text : string).

(** ** The handler monad *)

Record HState := {
  ctx : FSMContext;
  hdb : Database;
  sent : list Reply
}.

Definition Handler (A : Type) : Type := HState -> (exn + A) * HState.

#[global] Instance Handler_ret : MRet Handler := fun A x s => (inr x, s).

#[global] Instance Handler_bind : MBind Handler := fun A B k m s =>
  match m s with
  | (inl e, s') => (inl e, s')
  | (inr x, s') => k x s'
  end.

Definition raise {A} (e : exn) : Handler A := fun s => (inl e, s).

Definition get_db : Handler Database := fun s => (inr (hdb s), s).

Definition put_db (db : Database) : Handler unit := fun s =>
  (inr tt, {| ctx := ctx s; hdb := db; sent := sent s |}).

Definition get_ctx : Handler FSMContext := fun s => (inr (ctx s), s).

Definition put_ctx (c : FSMContext) : Handler unit := fun s =>
  (inr tt, {| ctx := c; hdb := hdb s; sent := sent s |}).

(** [message.answer(...)] and [call.answer()] *)
Definition answer (r : Reply) : Handler unit := fun s =>
  (inr tt, {| ctx := ctx s; hdb := hdb s; sent := sent s ++ [r] |}).

(** [d[key]] on the FSM data *)
Definition key {A} (name : string) (field : option A) : Handler A :=
  match field with
  | Some v => mret v
  | None => raise (KeyError name)
  end.

(** [l[i]] on a Python list: a negative index counts from the end, an index
    out of range raises [IndexError]. *)
Definition py_index {A} (l : list A) (i : Z) : option A :=
  let n := Z.of_nat (length l) in
  if (0 <=? i) && (i <? n) then l !! Z.to_nat i
  else if (- n <=? i) && (i <? 0) then l !! Z.to_nat (n + i)
  else None.

Definition index {A} (l : list A) (i : Z) : Handler A :=
  match py_index l i with
  | Some v => mret v
  | None => raise IndexError
  end.

(** *** [FSMContext] methods *)

Definition get_data : Handler Data := c ← get_ctx; mret (fsm_data c).

Definition get_state : Handler (option State) := c ← get_ctx; mret (fsm_state c).

Definition set_state (st : State) : Handler unit :=
  c ← get_ctx; put_ctx {| fsm_state := Some st; fsm_data := fsm_data c |}.

Definition update_data (f : Data -> Data) : Handler unit :=
  c ← get_ctx; put_ctx {| fsm_state := fsm_state c; fsm_data := f (fsm_data c) |}.

Definition clear : Handler unit := put_ctx idle.

(** The keyword arguments of the three [update_data] calls. *)
Definition set_attempts_done (v : Z) (d : Data) : Data :=
  {| d_attempts_done := Some v; d_topic_id := d_topic_id d;
     d_topic_title := d_topic_title d; d_questions := d_questions d;
     d_current := d_current d; d_correct := d_correct d |}.

Definition set_session (topic_id : Z) (title : string) (qs : list Question)
    (current correct : Z) (d : Data) : Data :=
  {| d_attempts_done := d_attempts_done d; d_topic_id := Some topic_id;
     d_topic_title := Some title; d_questions := Some qs;
     d_current := Some current; d_correct := Some correct |}.

Definition set_correct (v : Z) (d : Data) : Data :=
  {| d_attempts_done := d_attempts_done d; d_topic_id := d_topic_id d;
     d_topic_title := d_topic_title d; d_questions := d_questions d;
     d_current := d_current d; d_correct := Some v |}.

Definition set_current (v : Z) (d : Data) : Data :=
  {| d_attempts_done := d_attempts_done d; d_topic_id := d_topic_id d;
     d_topic_title := d_topic_title d; d_questions := d_questions d;
     d_current := Some v; d_correct := d_correct d |}.

(** ** [database/db.py] *)

(** Every method opens the database first; [connect m] is where the storage
    layer can raise. *)
Definition connect (m : db_method) : Handler Database :=
  db ← get_db;
  match db_fault db m with
  | Some e => raise e
  | None => mret db
  end.

(** [ORDER BY title]: a stable insertion sort under the byte-wise order of
    strings, which is the BINARY collation of a TEXT column. *)
Fixpoint insert_by_title (t : Topic) (l : list Topic) : list Topic :=
  match l with
  | [] => [t]
  | t' :: rest =>
      if String.leb (t_title t) (t_title t') then t :: l
      else t' :: insert_by_title t rest
  end.

Definition order_by_title (l : list Topic) : list Topic :=
  foldr insert_by_title [] l.

Definition get_user (user_id : Z) : Handler (option User) :=
  db ← connect m_get_user;
  mret (find (fun u => u_user_id u =? user_id) (users db)).

Definition list_topics (include_hidden : bool) : Handler (list Topic) :=
  db ← connect m_list_topics;
  mret (order_by_title
          (if include_hidden then topics db
           else filter (fun t => t_is_available t = 1) (topics db))).

(** [LIMIT ?]: a negative limit means no limit. *)
Definition sql_limit {A} (limit : Z) (rows : list A) : list A :=
  if limit <? 0 then rows else take (Z.to_nat limit) rows.

(** [ORDER BY RANDOM()] is the permutation [rnd] that the call draws; the
    caller of the model supplies it. *)
Definition fetch_random_questions (rnd : list Question -> list Question)
    (topic_id : Z) (limit : Z) : Handler (list Question) :=
  db ← connect m_fetch_random_questions;
  mret (sql_limit limit
          (rnd (filter (fun q => q_topic_id q = topic_id) (questions db)))).

(** [SELECT COUNT( * ) ... WHERE user_id=? AND topic_id=?] *)
Definition count_attempts (user_id topic_id : Z) (rows : list Attempt) : Z :=
  Z.of_nat (length (filter (fun a => a_user_id a = user_id ∧ a_topic_id a = topic_id) rows)).

Definition get_attempt_count (user_id topic_id : Z) : Handler Z :=
  db ← connect m_get_attempt_count;
  mret (count_attempts user_id topic_id (attempts db)).

(** The two FOREIGN KEY clauses of [attempts], enforced because every
    connection runs [PRAGMA foreign_keys = ON]. *)
Definition foreign_keys_ok (db : Database) (user_id topic_id : Z) : bool :=
  existsb (fun u => u_user_id u =? user_id) (users db)
  && existsb (fun t => t_topic_id t =? topic_id) (topics db).

Definition save_attempt (user_id topic_id score max_score : Z)
    (attempt_number : option Z) : Handler unit :=
  db ← connect m_save_attempt;
  let attempt_number :=
    match attempt_number with
    | None => count_attempts user_id topic_id (attempts db) + 1
    | Some n => n
    end in
  if foreign_keys_ok db user_id topic_id then
    put_db (with_attempts db
              (attempts db ++
               [{| a_user_id := user_id; a_topic_id := topic_id;
                   a_score := score; a_max_score := max_score;
                   a_attempt_number := attempt_number |}]))
  else raise IntegrityError.

(** ** [database/db.py]: [upsert_user] and [record_message]

    A method that is not listed in [db_method] takes as its first argument
    [io], the exception that the storage layer raises for this call, if
    any.  A statement that fails raises before [commit], and the connection
    is closed without it, so the tables are as they were. *)

Definition connect_io (io : option exn) : Handler Database :=
  db ← get_db;
  match io with
  | Some e => raise e
  | None => mret db
  end.

Definition with_users (db : Database) (rows : list User) : Database :=
  {| users := rows; topics := topics db; questions := questions db;
     attempts := attempts db; messages := messages db; db_fault := db_fault db |}.

Definition with_messages (db : Database) (rows : list MessageRow) : Database :=
  {| users := users db; topics := topics db; questions := questions db;
     attempts := attempts db; messages := rows; db_fault := db_fault db |}.

(** [INTEGER PRIMARY KEY AUTOINCREMENT]: one more than the largest id ever
    used.  No method deletes a topic, a question or a message, so for these
    tables the largest id ever used is the largest id in the table. *)
Definition next_rowid (ids : list Z) : Z := foldr Z.max 0 ids + 1.

(** [upsert_user]: INSERT ... ON CONFLICT(user_id) DO UPDATE *)
Definition upsert_user (io : option exn) (user_id : Z) (full_name role : string)
    : Handler unit :=
  db ← connect_io io;
  let row := {| u_user_id := user_id; u_full_name := full_name; u_role := role |} in
  if existsb (λ x, u_user_id x =? user_id) (users db) then
    put_db (with_users db
              (map (λ x, if u_user_id x =? user_id then row else x) (users db)))
  else put_db (with_users db (users db ++ [row])).

(** [record_message]; the sender and the receiver are FOREIGN KEYs into
    [users].  The result is [cursor.lastrowid]. *)
Definition record_message (io : option exn) (from_user_id to_user_id : Z)
    (text : string) (is_answered : bool) : Handler Z :=
  db ← connect_io io;
  if existsb (λ x, u_user_id x =? from_user_id) (users db)
     && existsb (λ x, u_user_id x =? to_user_id) (users db) then
    let message_id := next_rowid (map r_message_id (messages db)) in
    put_db (with_messages db
              (messages db ++
               [{| r_message_id := message_id; r_from_user_id := from_user_id;
                   r_to_user_id := to_user_id; r_text := text;
                   r_is_answered := if is_answered then 1 else 0 |}]));;
    mret message_id
  else raise IntegrityError.

(** ** [handlers/student.py] *)

Definition _send_question : Handler unit :=
  data ← get_data;
  idx ← key "current" (d_current data);
  qs ← key "questions" (d_questions data);
  question ← index qs idx;
  let options := [q_option1 question; q_option2 question;
                  q_option3 question; q_option4 question] in
  answer (QuestionPresented (idx + 1) (q_text question) options
            [("A", idx, 1); ("B", idx, 2); ("C", idx, 3); ("D", idx, 4)]).

Definition _start_test_for_topic (rnd : list Question -> list Question)
    (user_id topic_id : Z) : Handler unit :=
  topics ← list_topics false;
  match find (fun t => t_topic_id t =? topic_id) topics with
  | None => answer TopicUnavailable
  | Some topic =>
      qs ← fetch_random_questions rnd topic_id 10;
      if Z.of_nat (length qs) <? 10 then answer InsufficientQuestions
      else
        proceed ←
          match t_attempt_limit topic with
          | Some attempt_limit =>
              attempts_done ← get_attempt_count user_id topic_id;
              if attempt_limit <=? attempts_done then
                answer LimitExhausted;; clear;; mret false
              else
                update_data (set_attempts_done attempts_done);; mret true
          | None => mret true
          end;
        if proceed : bool then
          set_state TestState_answering;;
          update_data (set_session topic_id (t_title topic) qs 0 0);;
          answer (TestStarted (t_title topic));;
          _send_question
        else mret tt
  end.

Definition cmd_test (user_id : Z) : Handler unit :=
  user ← get_user user_id;
  match user with
  | None => answer RegisterFirst
  | Some _ =>
      topics ← list_topics false;
      match topics with
      | [] => answer NoTopicsOpen
      | _ =>
          set_state TestState_choosing_topic;;
          answer (ChooseTopic (map t_topic_id topics))
      end
  end.

Definition process_test_topic rnd (user_id topic_id : Z) : Handler unit :=
  answer CallbackAck;;
  _start_test_for_topic rnd user_id topic_id.

Definition retry_callback rnd (user_id topic_id : Z) : Handler unit :=
  answer CallbackAck;;
  _start_test_for_topic rnd user_id topic_id.

Definition _finish_test (user_id : Z) : Handler unit :=
  data ← get_data;
  score ← key "correct" (d_correct data);
  qs ← key "questions" (d_questions data);
  let max_score := Z.of_nat (length qs) in
  topic_id ← key "topic_id" (d_topic_id data);
  attempt_count ← get_attempt_count user_id topic_id;
  let attempt_number := attempt_count + 1 in
  save_attempt user_id topic_id score max_score (Some attempt_number);;
  clear;;
  (if max_score =? 0 then raise ZeroDivisionError else mret tt);;
  answer (AttemptCompleted score max_score attempt_number);;
  answer (NextActions topic_id).

Definition process_answer (user_id current_idx selected_idx : Z) : Handler unit :=
  answer CallbackAck;;
  data ← get_data;
  current ← key "current" (d_current data);
  if bool_decide (current_idx ≠ current) then mret tt
  else
    qs ← key "questions" (d_questions data);
    question ← index qs current_idx;
    (if q_correct_option question =? selected_idx then
       correct ← key "correct" (d_correct data);
       update_data (set_correct (correct + 1))
     else mret tt);;
    let next_idx := current_idx + 1 in
    if Z.of_nat (length qs) <=? next_idx then _finish_test user_id
    else
      update_data (set_current next_idx);;
      _send_question.

(** ** [handlers/common.py]

    Two message handlers of [common.py] are registered with a state filter
    and nothing else, so in their state they take every message, a [/test]
    among them. *)

(** A message as these two handlers read it.  They look at its text only
    through [(message.text or "").strip()] and through the number of words
    that [split()] finds in that; Python's [str.strip] and [str.split] are
    not modelled, the message comes with the two values.  A command may be
    the caption of a photo, which has no text, so the stripped text may be
    empty. *)
Record Message := {
  stripped_text : string;   (* (message.text or "").strip() *)
  word_count : nat;         (* len(full_name.split()) *)
  from_full_name : string   (* message.from_user.full_name *)
}.

(** What a handler of [common.py] reads, while it handles one update,
    outside the FSM context and the database: the configuration and what
    the storage layer answers to the two methods outside [db_method]. *)
Record Outside := {
  admin_ids : list Z;       (* settings.admin_ids *)
  io_upsert_user : option exn;
  io_record_message : option exn
}.

Definition is_admin (o : Outside) (user_id : Z) : bool :=
  bool_decide (user_id ∈ admin_ids o).

Definition process_full_name (user_id : Z) (message : Message) (o : Outside)
    : Handler unit :=
  let full_name := stripped_text message in
  if (word_count message <? 2)%nat then answer FullNameRequired
  else
    let role := if is_admin o user_id then "admin" else "student" in
    upsert_user (io_upsert_user o) user_id full_name role;;
    clear;;
    answer RegistrationDone.

(** The last statement notifies the administrator with [bot.send_message];
    an exception of that call is caught and ignored.  [AdminNotified] stands
    for the call. *)
Definition process_question (user_id : Z) (message : Message) (o : Outside)
    : Handler unit :=
  let text := stripped_text message in
  if String.eqb text "" then answer QuestionEmpty
  else
    admin_id ← index (admin_ids o) 0;
    admin_record ← get_user admin_id;
    match admin_record with
    | None => upsert_user (io_upsert_user o) admin_id "Администратор" "admin"
    | Some _ => mret tt
    end;;
    message_id ← record_message (io_record_message o) user_id admin_id text false;
    clear;;
    answer QuestionSent;;
    answer (AdminNotified admin_id message_id (from_full_name message) text).

(** ** The dispatcher

    Updates of one user are handled one after the other.  [storage] is
    aiogram's memory storage: a context per user, [idle] for a user it has
    not seen.  The first handler whose filters accept an update runs, and
    [main.py] includes [common.router] before [student.router]: a message
    that the filters of [cmd_test] accept reaches [cmd_test] unless the
    user is in [RegistrationState.waiting_full_name], where
    [process_full_name] takes it, or in [QuestionState.awaiting_question],
    where [process_question] takes it; no other handler of [common.py]
    accepts such a message.  A callback handler registered with a state
    filter runs only in that state; an update that no handler accepts
    changes nothing.  An exception ends the handler and is logged; what the
    handler did before it stays. *)

Inductive Event :=
| Ev_cmd_test (user_id : Z) (message : Message) (o : Outside)
| Ev_take_topic (user_id topic_id : Z) (rnd : list Question -> list Question)
| Ev_retry (user_id topic_id : Z) (rnd : list Question -> list Question)
| Ev_answer (user_id question_index option_index : Z).

Definition event_user (ev : Event) : Z :=
  match ev with
  | Ev_cmd_test u _ _ | Ev_take_topic u _ _ | Ev_retry u _ _ | Ev_answer u _ _ => u
  end.

Record World := {
  storage : gmap Z FSMContext;
  database : Database;
  outbox : list (Z * Reply);
  logged : list (Z * exn)
}.

Definition context_of (w : World) (user_id : Z) : FSMContext :=
  default idle (storage w !! user_id).

Definition route (ev : Event) (st : option State) : option (Handler unit) :=
  match ev with
  | Ev_cmd_test u message o =>
      if decide (st = Some RegistrationState_waiting_full_name)
      then Some (process_full_name u message o)
      else if decide (st = Some QuestionState_awaiting_question)
      then Some (process_question u message o)
      else Some (cmd_test u)
  | Ev_take_topic u t rnd =>
      if decide (st = Some TestState_choosing_topic)
      then Some (process_test_topic rnd u t) else None
  | Ev_retry u t rnd => Some (retry_callback rnd u t)
  | Ev_answer u i o =>
      if decide (st = Some TestState_answering)
      then Some (process_answer u i o) else None
  end.

Definition step (w : World) (ev : Event) : World :=
  let u := event_user ev in
  let c := context_of w u in
  match route ev (fsm_state c) with
  | None => w
  | Some h =>
      let '(r, s) := h {| ctx := c; hdb := database w; sent := [] |} in
      {| storage := <[u := ctx s]> (storage w);
         database := hdb s;
         outbox := outbox w ++ map (pair u) (sent s);
         logged := logged w ++ match r with inl e => [(u, e)] | inr _ => [] end |}
  end.

Definition run (w : World) (evs : list Event) : World := foldl step w evs.

(** ** Predicates used by the statements *)

(** A session in progress: the state is [TestState.answering] and the data
    hold the sampled questions [qs], the index [i] and the count [c]. *)
Definition active (c0 : FSMContext) (topic_id : Z) (qs : list Question) (i c : Z) : Prop :=
  fsm_state c0 = Some TestState_answering
  ∧ d_topic_id (fsm_data c0) = Some topic_id
  ∧ d_questions (fsm_data c0) = Some qs
  ∧ d_current (fsm_data c0) = Some i
  ∧ d_correct (fsm_data c0) = Some c
  ∧ 0 <= i < Z.of_nat (length qs).

(** The context after [update_data(correct=v)] and [update_data(current=v)]. *)
Definition ctx_set_correct (v : Z) (c0 : FSMContext) : FSMContext :=
  {| fsm_state := fsm_state c0; fsm_data := set_correct v (fsm_data c0) |}.

Definition ctx_set_current (v : Z) (c0 : FSMContext) : FSMContext :=
  {| fsm_state := fsm_state c0; fsm_data := set_current v (fsm_data c0) |}.

(** The topic that line 51 of [student.py] picks from [list_topics]. *)
Definition visible_topic (db : Database) (topic_id : Z) : option Topic :=
  find (fun t => t_topic_id t =? topic_id)
       (order_by_title (filter (fun t => t_is_available t = 1) (topics db))).

(** The question pool of a topic. *)
Definition pool (db : Database) (topic_id : Z) : list Question :=
  filter (fun q => q_topic_id q = topic_id) (questions db).

(** The attempt-limit gate of lines 67-77, as a decision. *)
Definition gate_passes (limit : option Z) (prior_count : Z) : bool :=
  match limit with
  | None => true
  | Some l => negb (l <=? prior_count)
  end.

(** The number of answers in [opts] that match the questions in order. *)
Fixpoint matches (qs : list Question) (opts : list Z) : Z :=
  match qs, opts with
  | q :: qs', o :: opts' =>
      (if q_correct_option q =? o then 1 else 0) + matches qs' opts'
  | _, _ => 0
  end.

(** Answering the questions from index [i] on, one update each. *)
Fixpoint answer_from (user_id i : Z) (opts : list Z) : list Event :=
  match opts with
  | [] => []
  | o :: opts' => Ev_answer user_id i o :: answer_from user_id (i + 1) opts'
  end.

(** Every row carries the number of earlier rows of its user and topic,
    plus one. *)
Definition ledger_numbered (rows : list Attempt) : Prop :=
  ∀ pre a post, rows = pre ++ a :: post →
    a_attempt_number a = count_attempts (a_user_id a) (a_topic_id a) pre + 1.

(** The rows of one user and topic, oldest first. *)
Definition attempts_of (user_id topic_id : Z) (rows : list Attempt) : list Attempt :=
  filter (fun a => a_user_id a = user_id ∧ a_topic_id a = topic_id) rows.

(** The CHECK constraint of [questions.correct_option]. *)
Definition check_correct_option (q : Question) : Prop :=
  1 <= q_correct_option q <= 4.

(** ** A concrete database for the examples

    One registered student (7), the topic "HTML Basics" (1) with twelve
    questions and a limit of two attempts, a hidden topic (2) with three
    questions, and an open topic (3) with three questions and no limit. *)

Definition mk_question (id topic_id correct_option : Z) : Question :=
  {| q_question_id := id; q_topic_id := topic_id; q_text := "Q";
     q_option1 := "a"; q_option2 := "b"; q_option3 := "c"; q_option4 := "d";
     q_correct_option := correct_option |}.

Definition html_basics : Topic :=
  {| t_topic_id := 1; t_title := "HTML Basics"; t_is_available := 1;
     t_attempt_limit := Some 2 |}.

Definition hidden_topic : Topic :=
  {| t_topic_id := 2; t_title := "CSS"; t_is_available := 0;
     t_attempt_limit := None |}.

Definition short_topic : Topic :=
  {| t_topic_id := 3; t_title := "Forms"; t_is_available := 1;
     t_attempt_limit := None |}.

Definition demo_questions : list Question :=
  map (fun i => mk_question i 1 (i `mod` 4 + 1)) [1; 2; 3; 4; 5; 6; 7; 8; 9; 10; 11; 12]
  ++ map (fun i => mk_question i 2 1) [13; 14; 15]
  ++ map (fun i => mk_question i 3 2) [16; 17; 18].

Definition demo_db : Database :=
  {| users := [{| u_user_id := 7; u_full_name := "Ann"; u_role := "student" |}];
     topics := [html_basics; hidden_topic; short_topic];
     questions := demo_questions;
     attempts := [];
     messages := [];
     db_fault := no_fault |}.

Definition demo_world : World :=
  {| storage := ∅; database := demo_db; outbox := []; logged := [] |}.

(** The sample drawn when [rnd] is the identity: questions 1 to 10, whose
    correct options are 2, 3, 4, 1, 2, 3, 4, 1, 2, 3. *)
Definition demo_sample : list Question := take 10 demo_questions.

(** A session of the student 7 on topic 1 at index [i] with count [c]. *)
Definition demo_session (i c : Z) : FSMContext :=
  {| fsm_state := Some TestState_answering;
     fsm_data := {| d_attempts_done := Some 0; d_topic_id := Some 1;
                    d_topic_title := Some "HTML Basics";
                    d_questions := Some demo_sample;
                    d_current := Some i; d_correct := Some c |} |}.

Definition demo_hstate (c0 : FSMContext) (db : Database) : HState :=
  {| ctx := c0; hdb := db; sent := [] |}.

(** A storage layer whose INSERT into [attempts] fails. *)
Definition write_fails (e : exn) : db_method -> option exn := fun m =>
  match m with
  | m_save_attempt => Some e
  | _ => None
  end.

(** The message that [_send_question] sends for the question [q] at index
    [idx]. *)
Definition presented (idx : Z) (q : Question) : Reply :=
  QuestionPresented (idx + 1) (q_text q)
    [q_option1 q; q_option2 q; q_option3 q; q_option4 q]
    [("A", idx, 1); ("B", idx, 2); ("C", idx, 3); ("D", idx, 4)].

(** The context once the answer [opt] to the question [q] is tallied: the
    count is stored again only when the option is the correct one. *)
Definition tallied (q : Question) (opt c : Z) (c0 : FSMContext) : FSMContext :=
  if q_correct_option q =? opt then ctx_set_correct (c + 1) c0 else c0.

(** The row that [_finish_test] writes for the user [u] on the topic [t]
    with [score] out of [max_score], given the rows already in the table. *)
Definition committed (u t score max_score : Z) (rows : list Attempt) : Attempt :=
  {| a_user_id := u; a_topic_id := t; a_score := score; a_max_score := max_score;
     a_attempt_number := count_attempts u t rows + 1 |}.

(** A handler that does not write to the database. *)
Definition read_only {A} (h : Handler A) : Prop :=
  ∀ s, hdb (snd (h s)) = hdb s.

(** A handler run by the user [u] that leaves the database as it is or
    appends one row numbered by the count of the earlier rows. *)
Definition appends_numbered {A} (u : Z) (h : Handler A) : Prop :=
  ∀ s, hdb (snd (h s)) = hdb s
     ∨ ∃ t score max_score,
         hdb (snd (h s)) =
         with_attempts (hdb s)
           (attempts (hdb s) ++ [committed u t score max_score (attempts (hdb s))]).

(** The world once the storage layer behaves as [f]; the tables, the
    contexts, the messages and the log are as they were. *)
Definition recovered (f : db_method -> option exn) (w : World) : World :=
  {| storage := storage w; database := with_fault (database w) f;
     outbox := outbox w; logged := logged w |}.

(** The rows of the ledger that belong to one user. *)
Definition attempts_by (user_id : Z) (rows : list Attempt) : list Attempt :=
  filter (λ a, a_user_id a = user_id) rows.

(** Every method reaches the database. *)
Definition storage_ok (db : Database) : Prop := ∀ m, db_fault db m = None.

(** What [fetch_random_questions(topic_id, limit=10)] returns when the call
    draws the order [rnd]. *)
Definition sample (rnd : list Question -> list Question) (db : Database)
    (topic_id : Z) : list Question :=
  sql_limit 10 (rnd (pool db topic_id)).

(** The context that a successful Start leaves: [attempts_done] is stored
    only for a topic with a limit, the other keys of an earlier session are
    overwritten. *)
Definition started (topic_id : Z) (topic : Topic) (qs : list Question)
    (prior_count : Z) (c0 : FSMContext) : FSMContext :=
  {| fsm_state := Some TestState_answering;
     fsm_data :=
       set_session topic_id (t_title topic) qs 0 0
         (match t_attempt_limit topic with
          | Some _ => set_attempts_done prior_count (fsm_data c0)
          | None => fsm_data c0
          end) |}.

(** The user has a row in [users]. *)
Definition registered (db : Database) (user_id : Z) : Prop :=
  ∃ x, x ∈ users db ∧ u_user_id x = user_id.

(** Ten answers to [demo_sample]: the first seven are the correct options,
    the last three are not. *)
Definition demo_answers : list Z := [2; 3; 4; 1; 2; 3; 4; 2; 3; 4].

(** Ten correct answers to [demo_sample]. *)
Definition demo_all_correct : list Z := [2; 3; 4; 1; 2; 3; 4; 1; 2; 3].

(** The demo world with a storage layer that rejects every INSERT into
    [attempts]. *)
Definition demo_world_write_fails : World :=
  {| storage := ∅;
     database := with_fault demo_db (write_fails (StorageError 5));
     outbox := []; logged := [] |}.

(** What holds of a context between two updates while the ledger accepts
    every write: a context in [TestState.answering] is an active session on
    a topic of the database, and its count is at most its index. *)
Definition session_ok (db : Database) (c0 : FSMContext) : Prop :=
  fsm_state c0 = Some TestState_answering →
  ∃ t qs i c, active c0 t qs i c ∧ 0 <= c <= i
            ∧ ∃ topic, topic ∈ topics db ∧ t_topic_id topic = t.

Definition world_ok (w : World) : Prop :=
  storage_ok (database w) ∧ ∀ u, session_ok (database w) (context_of w u).

(** [db'] is [db] but for its users and messages, and every user of [db]
    still has a row. *)
Definition keeps_users (db db' : Database) : Prop :=
  topics db' = topics db ∧ questions db' = questions db
  ∧ attempts db' = attempts db ∧ db_fault db' = db_fault db
  ∧ ∀ v, registered db v → registered db' v.

(** A handler that writes at most [users] and [messages], deletes no user,
    and leaves the context as it is or clears it. *)
Definition registers {A} (h : Handler A) : Prop :=
  ∀ s, keeps_users (hdb s) (hdb (snd (h s)))
     ∧ (ctx (snd (h s)) = ctx s ∨ ctx (snd (h s)) = idle).

(** The callback queries.  No handler of [common.py] takes one. *)
Definition is_callback (ev : Event) : Prop :=
  match ev with
  | Ev_cmd_test _ _ _ => False
  | _ => True
  end.

(** The inline buttons of a question message: label, question index and
    option number, as packed into [callback_data]. *)
Definition buttons_of (r : Reply) : list (string * Z * Z) :=
  match r with
  | QuestionPresented _ _ _ buttons => buttons
  | _ => []
  end.

(** One whole test: the Start and an answer to each question in order. *)
Definition full_session (u topic_id : Z) (rnd : list Question -> list Question)
    (opts : list Z) : list Event :=
  Ev_retry u topic_id rnd :: answer_from u 0 opts.

(** Several whole tests on the same topic, one after the other. *)
Fixpoint sessions (u topic_id : Z) (rnd : list Question -> list Question)
    (optss : list (list Z)) : list Event :=
  match optss with
  | [] => []
  | opts :: rest => full_session u topic_id rnd opts ++ sessions u topic_id rnd rest
  end.

(** The demo database after [/set_attempts 1 0]. *)
Definition zero_limit_topic : Topic :=
  {| t_topic_id := 1; t_title := "HTML Basics"; t_is_available := 1;
     t_attempt_limit := Some 0 |}.

Definition zero_limit_db : Database :=
  {| users := users demo_db; topics := [zero_limit_topic; hidden_topic; short_topic];
     questions := demo_questions; attempts := []; messages := [];
     db_fault := no_fault |}.

(** ** [database/db.py]: the methods of the administrator

    Like [upsert_user], each of them takes [io], the exception that the
    storage layer raises for the call, if any. *)

Definition with_topics (db : Database) (rows : list Topic) : Database :=
  {| users := users db; topics := rows; questions := questions db;
     attempts := attempts db; messages := messages db; db_fault := db_fault db |}.

Definition with_questions (db : Database) (rows : list Question) : Database :=
  {| users := users db; topics := topics db; questions := rows;
     attempts := attempts db; messages := messages db; db_fault := db_fault db |}.

(** [add_topic]; [strip] is Python's [str.strip].  The column [title] is
    UNIQUE. *)
Definition add_topic (io : option exn) (strip : string -> string)
    (title : string) (attempt_limit : option Z) : Handler Z :=
  db ← connect_io io;
  if existsb (λ t, String.eqb (t_title t) (strip title)) (topics db) then
    raise IntegrityError
  else
    let topic_id := next_rowid (map t_topic_id (topics db)) in
    put_db (with_topics db
              (topics db ++
               [{| t_topic_id := topic_id; t_title := strip title;
                   t_is_available := 0; t_attempt_limit := attempt_limit |}]));;
    mret topic_id.

Definition get_topic (io : option exn) (topic_id : Z) : Handler (option Topic) :=
  db ← connect_io io;
  mret (find (λ t, t_topic_id t =? topic_id) (topics db)).

Definition set_topic_availability (io : option exn) (topic_id : Z)
    (is_available : bool) : Handler unit :=
  db ← connect_io io;
  put_db (with_topics db
            (map (λ t, if t_topic_id t =? topic_id then
                         {| t_topic_id := t_topic_id t; t_title := t_title t;
                            t_is_available := if is_available then 1 else 0;
                            t_attempt_limit := t_attempt_limit t |}
                       else t) (topics db))).

Definition set_topic_attempt_limit (io : option exn) (topic_id : Z)
    (attempt_limit : option Z) : Handler unit :=
  db ← connect_io io;
  put_db (with_topics db
            (map (λ t, if t_topic_id t =? topic_id then
                         {| t_topic_id := t_topic_id t; t_title := t_title t;
                            t_is_available := t_is_available t;
                            t_attempt_limit := attempt_limit |}
                       else t) (topics db))).

(** [QuestionPayload]: the dictionary built by the parsers. *)
Record QuestionPayload := {
  p_text : string;
  p_option1 : string;
  p_option2 : string;
  p_option3 : string;
  p_option4 : string;
  p_correct_option : Z
}.

(** The rows that [executemany] inserts, numbered from [next]. *)
Fixpoint question_rows (next topic_id : Z) (payloads : list QuestionPayload)
    : list Question :=
  match payloads with
  | [] => []
  | q :: rest =>
      {| q_question_id := next; q_topic_id := topic_id; q_text := p_text q;
         q_option1 := p_option1 q; q_option2 := p_option2 q;
         q_option3 := p_option3 q; q_option4 := p_option4 q;
         q_correct_option := p_correct_option q |}
      :: question_rows (next + 1) topic_id rest
  end.

(** What SQLite checks for a row of [questions]: the CHECK on
    [correct_option] and the FOREIGN KEY on [topic_id]. *)
Definition question_row_ok (db : Database) (topic_id : Z) (q : QuestionPayload)
    : bool :=
  (1 <=? p_correct_option q) && (p_correct_option q <=? 4)
  && existsb (λ t, t_topic_id t =? topic_id) (topics db).

(** [add_questions]: the first row that SQLite refuses raises, and nothing
    is committed. *)
Definition add_questions (io : option exn) (topic_id : Z)
    (payloads : list QuestionPayload) : Handler Z :=
  db ← connect_io io;
  if forallb (question_row_ok db topic_id) payloads then
    put_db (with_questions db
              (questions db ++
               question_rows (next_rowid (map q_question_id (questions db)))
                 topic_id payloads));;
    mret (Z.of_nat (length payloads))
  else raise IntegrityError.

(** Every row of [questions] satisfies the CHECK constraint. *)
Definition questions_checked (db : Database) : Prop :=
  ∀ q, q ∈ questions db → check_correct_option q.

(** The primary key of [topics]. *)
Definition topic_ids_unique (db : Database) : Prop :=
  NoDup (map t_topic_id (topics db)).

(** An upload of ten well-formed questions, and one whose third row names
    a fifth option. *)
Definition mk_payload (correct_option : Z) : QuestionPayload :=
  {| p_text := "Q"; p_option1 := "a"; p_option2 := "b"; p_option3 := "c";
     p_option4 := "d"; p_correct_option := correct_option |}.

Definition demo_upload : list QuestionPayload :=
  map mk_payload [1; 2; 3; 4; 1; 2; 3; 4; 1; 2].

Definition bad_upload : list QuestionPayload :=
  map mk_payload [1; 2; 5; 4].

(** ** [database/db.py]: materials

    The table [materials] is not part of [Database]; the methods take it as
    an argument. *)

Record Material := {
  m_material_id : Z;
  m_topic_id : option Z;
  m_type : string;
  m_content : string;
  m_title : string
}.

(** [ORDER BY (topic_id IS NULL), material_id DESC]: the row [a] may stand
    before the row [b]. *)
Definition material_before (a b : Material) : bool :=
  match m_topic_id a, m_topic_id b with
  | Some _, None => true
  | None, Some _ => false
  | _, _ => m_material_id b <=? m_material_id a
  end.

Fixpoint insert_material (a : Material) (l : list Material) : list Material :=
  match l with
  | [] => [a]
  | b :: rest =>
      if material_before a b then a :: l else b :: insert_material a rest
  end.

Definition order_materials (l : list Material) : list Material :=
  foldr insert_material [] l.

(** The WHERE clause that [get_materials] builds. *)
Definition material_selected (topic_id : option Z) (include_general : bool)
    (m : Material) : bool :=
  match topic_id with
  | Some t =>
      match m_topic_id m with
      | Some t' => t' =? t
      | None => include_general
      end
  | None =>
      if include_general then true
      else match m_topic_id m with Some _ => false | None => true end
  end.

Definition get_materials (io : option exn) (table : list Material)
    (topic_id : option Z) (include_general : bool) : exn + list Material :=
  match io with
  | Some e => inl e
  | None =>
      inr (order_materials
             (List.filter (material_selected topic_id include_general) table))
  end.

(** A small table: two materials of topic 1, one of topic 2, two general. *)
Definition mk_material (id : Z) (topic_id : option Z) : Material :=
  {| m_material_id := id; m_topic_id := topic_id; m_type := "text";
     m_content := "c"; m_title := "t" |}.

Definition demo_materials : list Material :=
  [mk_material 1 None; mk_material 2 (Some 1); mk_material 3 (Some 2);
   mk_material 4 (Some 1); mk_material 5 None].

(** ** [utils/parsers.py]

    The parsers raise [ValueError]; [parse_error] tells the four places
    apart.  Python's [int] and [str.strip] are parameters: [int s] is [None]
    when [int(s)] raises.  The CSV parser works on the rows that
    [csv.reader] yields, the TXT parser on the lines that
    [content.splitlines()] yields. *)

Inductive parse_error :=
| ExpectedSixColumns (line_no : Z) (got : Z)
| InvalidLiteral (text : string)
| AnswerOutOfRange (line_no : Z)
| NoQuestionsFound.

(** [question, *options, correct = row[:6]] and the rest of the loop body,
    for a row of at least six fields. *)
Definition question_of_fields (int : string -> option Z)
    (strip : string -> string) (strip_correct : bool) (line_no : Z)
    (row : list string) : parse_error + QuestionPayload :=
  match take 6 row with
  | [question; o1; o2; o3; o4; correct] =>
      let literal := if strip_correct then strip correct else correct in
      match int literal with
      | None => inl (InvalidLiteral literal)
      | Some correct_idx =>
          if (1 <=? correct_idx) && (correct_idx <=? 4) then
            inr {| p_text := strip question; p_option1 := strip o1;
                   p_option2 := strip o2; p_option3 := strip o3;
                   p_option4 := strip o4; p_correct_option := correct_idx |}
          else inl (AnswerOutOfRange line_no)
      end
  | short => inl (ExpectedSixColumns line_no (Z.of_nat (length short)))
  end.

(** The loop of [parse_csv_questions] from the row numbered [line_no]. *)
Fixpoint parse_csv_rows (int : string -> option Z) (strip : string -> string)
    (line_no : Z) (rows : list (list string))
    : parse_error + list QuestionPayload :=
  match rows with
  | [] => inr []
  | row :: rest =>
      if (length row <? 6)%nat then
        inl (ExpectedSixColumns line_no (Z.of_nat (length row)))
      else
        match question_of_fields int strip false line_no row with
        | inl e => inl e
        | inr q =>
            match parse_csv_rows int strip (line_no + 1) rest with
            | inl e => inl e
            | inr qs => inr (q :: qs)
            end
        end
  end.

Definition parse_csv_questions (int : string -> option Z)
    (strip : string -> string) (rows : list (list string))
    : parse_error + list QuestionPayload :=
  parse_csv_rows int strip 1 rows.

(** [s.split(sep)] for a one-character separator. *)
Fixpoint split_on (sep : Ascii.ascii) (s : string) : list string :=
  match s with
  | EmptyString => [EmptyString]
  | String c rest =>
      if Ascii.eqb c sep then EmptyString :: split_on sep rest
      else match split_on sep rest with
           | [] => [String c EmptyString]
           | field :: fields => String c field :: fields
           end
  end.

(** The loop of [parse_txt_questions] from the line numbered [line_no]. *)
Fixpoint parse_txt_lines (int : string -> option Z) (strip : string -> string)
    (line_no : Z) (lines : list string) : parse_error + list QuestionPayload :=
  match lines with
  | [] => inr []
  | line :: rest =>
      let line := strip line in
      if String.eqb line "" then parse_txt_lines int strip (line_no + 1) rest
      else
        let parts := split_on ";"%char line in
        if (length parts <? 6)%nat then
          inl (ExpectedSixColumns line_no (Z.of_nat (length parts)))
        else
          match question_of_fields int strip true line_no parts with
          | inl e => inl e
          | inr q =>
              match parse_txt_lines int strip (line_no + 1) rest with
              | inl e => inl e
              | inr qs => inr (q :: qs)
              end
          end
  end.

Definition parse_txt_questions (int : string -> option Z)
    (strip : string -> string) (lines : list string)
    : parse_error + list QuestionPayload :=
  match parse_txt_lines int strip 1 lines with
  | inl e => inl e
  | inr [] => inl NoQuestionsFound
  | inr qs => inr qs
  end.

(** For the examples: [int] on the one-digit literals, and a [strip] that
    removes nothing. *)
Definition digit_int (s : string) : option Z :=
  if String.eqb s "1" then Some 1 else if String.eqb s "2" then Some 2
  else if String.eqb s "3" then Some 3 else if String.eqb s "4" then Some 4
  else if String.eqb s "5" then Some 5 else None.

Definition demo_txt : list string :=
  ["Which tag is a paragraph?;p;div;h1;span;1"; "";
   "Which tag is a link?;b;a;i;u;2"].

(** * Properties *)

(** ** The monad, unfolded *)

Ltac run_handler :=
  cbv [mbind mret Handler_bind Handler_ret raise get_db put_db get_ctx put_ctx
       answer key index get_data get_state set_state update_data clear connect];
  cbn [ctx hdb sent fsm_state fsm_data fst snd].

Example start_demo :
  ctx (snd (_start_test_for_topic id 7 1 (demo_hstate idle demo_db))) = demo_session 0 0.
Proof. vm_compute. reflexivity. Qed.

Example start_demo_sent :
  sent (snd (_start_test_for_topic id 7 1 (demo_hstate idle demo_db))) =
  [TestStarted "HTML Basics";
   QuestionPresented 1 "Q" ["a"; "b"; "c"; "d"] [("A", 0, 1); ("B", 0, 2); ("C", 0, 3); ("D", 0, 4)]].
Proof. vm_compute. reflexivity. Qed.

Example answer_demo :
  ctx (snd (process_answer 7 0 2 (demo_hstate (demo_session 0 0) demo_db))) = demo_session 1 1.
Proof. vm_compute. reflexivity. Qed.

(** ** Stale answers *)

Lemma process_answer_stale user_id idx opt (s : HState) (i : Z) :
  d_current (fsm_data (ctx s)) = Some i → idx ≠ i →
  process_answer user_id idx opt s =
  (inr tt, {| ctx := ctx s; hdb := hdb s; sent := sent s ++ [CallbackAck] |}).
Proof.
  intros Hcur Hne. unfold process_answer. run_handler.
  rewrite Hcur. rewrite bool_decide_eq_true_2 by done. reflexivity.
Qed.

Lemma context_of_insert (w : World) (u v : Z) (c0 : FSMContext) db out lg :
  context_of {| storage := <[u := c0]> (storage w); database := db;
                outbox := out; logged := lg |} v
  = if decide (u = v) then c0 else context_of w v.
Proof.
  unfold context_of; cbn [storage]. rewrite lookup_insert.
  destruct (decide (u = v)); reflexivity.
Qed.

Lemma context_of_step_other (w : World) (ev : Event) (v : Z) :
  v ≠ event_user ev → context_of (step w ev) v = context_of w v.
Proof.
  intros Hv. unfold step.
  destruct (route ev _) as [h|]; [|reflexivity].
  destruct (h _) as [r s]. rewrite context_of_insert.
  destruct (decide (event_user ev = v)); congruence.
Qed.

(** C1.  In an active session an answer whose question index is not the
    current index changes nothing: the context of every user (so the index
    and the running count of the session) and the database (so the attempt
    ledger) are as before, nothing is logged, and the only thing sent is the
    acknowledgement of the callback. *)
Theorem stale_answer_changes_nothing (w : World) (u t : Z) (qs : list Question)
    (i c idx opt : Z) :
  active (context_of w u) t qs i c → idx ≠ i →
  let w' := step w (Ev_answer u idx opt) in
  (∀ v, context_of w' v = context_of w v)
  ∧ database w' = database w
  ∧ outbox w' = outbox w ++ [(u, CallbackAck)]
  ∧ logged w' = logged w.
Proof.
  intros (Hst & _ & _ & Hcur & _) Hne. unfold step.
  cbn [event_user route]. rewrite Hst.
  rewrite decide_True by reflexivity.
  rewrite (process_answer_stale u idx opt _ i) by (cbn [ctx]; assumption || done).
  cbn [ctx hdb sent app map]. repeat split.
  - intros v. rewrite context_of_insert. destruct (decide (u = v)); congruence.
  - apply app_nil_r.
Qed.

Lemma stale_answer_changes_nothing_witness :
  let w := {| storage := {[ 7 := demo_session 3 2 ]}; database := demo_db;
              outbox := []; logged := [] |} in
  context_of (step w (Ev_answer 7 2 1)) 7 = demo_session 3 2
  ∧ database (step w (Ev_answer 7 2 1)) = demo_db.
Proof.
  intros w.
  destruct (stale_answer_changes_nothing w 7 1 demo_sample 3 2 2 1) as (H1 & H2 & _).
  - unfold active, w. vm_compute. repeat split; congruence.
  - lia.
  - split; [exact (H1 7) | exact H2].
Defined.

(** ** Answers at the current index *)

Lemma py_index_in_range {A} (l : list A) (i : Z) :
  0 <= i < Z.of_nat (length l) → py_index l i = l !! Z.to_nat i.
Proof.
  intros [H0 H1]. unfold py_index.
  rewrite (proj2 (Z.leb_le 0 i)) by lia.
  rewrite (proj2 (Z.ltb_lt _ _)) by lia. reflexivity.
Qed.

Lemma lookup_in_range {A} (l : list A) (i : Z) :
  0 <= i < Z.of_nat (length l) → ∃ x, l !! Z.to_nat i = Some x.
Proof.
  intros H. destruct (lookup_lt_is_Some_2 l (Z.to_nat i)) as [x Hx]; [lia|]. eauto.
Qed.

Lemma send_question_ok (s : HState) (qs : list Question) (i : Z) (q : Question) :
  d_current (fsm_data (ctx s)) = Some i →
  d_questions (fsm_data (ctx s)) = Some qs →
  0 <= i < Z.of_nat (length qs) →
  qs !! Z.to_nat i = Some q →
  _send_question s =
  (inr tt, {| ctx := ctx s; hdb := hdb s; sent := sent s ++ [presented i q] |}).
Proof.
  intros Hcur Hqs Hi Hq. unfold _send_question. run_handler.
  rewrite Hcur, Hqs. rewrite py_index_in_range, Hq by assumption. reflexivity.
Qed.

(** The two branches of [process_answer] once the index matches. *)
Lemma process_answer_next (s : HState) (u t : Z) (qs : list Question)
    (i c opt : Z) (q q' : Question) :
  active (ctx s) t qs i c →
  qs !! Z.to_nat i = Some q →
  qs !! Z.to_nat (i + 1) = Some q' →
  process_answer u i opt s =
  (inr tt, {| ctx := ctx_set_current (i + 1) (tallied q opt c (ctx s));
              hdb := hdb s;
              sent := sent s ++ [CallbackAck; presented (i + 1) q'] |}).
Proof.
  intros (Hst & Ht & Hqs & Hcur & Hcor & Hi) Hq Hq'.
  assert (Hlen : i + 1 < Z.of_nat (length qs)).
  { apply lookup_lt_Some in Hq'. lia. }
  unfold process_answer, tallied. run_handler.
  rewrite Hcur. rewrite bool_decide_eq_false_2 by (intros ?; congruence).
  rewrite Hqs. rewrite py_index_in_range, Hq by assumption.
  rewrite (proj2 (Z.leb_gt _ _)) by lia.
  destruct (q_correct_option q =? opt).
  - rewrite Hcor. cbn [ctx hdb sent].
    erewrite send_question_ok; cbn [ctx hdb sent fsm_data]; eauto; [|lia].
    rewrite <- app_assoc. reflexivity.
  - cbn [ctx hdb sent].
    erewrite send_question_ok; cbn [ctx hdb sent fsm_data]; eauto; [|lia].
    rewrite <- app_assoc. reflexivity.
Qed.

Lemma process_answer_last (s : HState) (u t : Z) (qs : list Question)
    (i c opt : Z) (q : Question) :
  active (ctx s) t qs i c →
  qs !! Z.to_nat i = Some q →
  i + 1 = Z.of_nat (length qs) →
  process_answer u i opt s =
  _finish_test u {| ctx := tallied q opt c (ctx s); hdb := hdb s;
                    sent := sent s ++ [CallbackAck] |}.
Proof.
  intros (Hst & Ht & Hqs & Hcur & Hcor & Hi) Hq Hlen.
  unfold process_answer, tallied. run_handler.
  rewrite Hcur. rewrite bool_decide_eq_false_2 by (intros ?; congruence).
  rewrite Hqs. rewrite py_index_in_range, Hq by assumption.
  rewrite (proj2 (Z.leb_le _ _)) by lia.
  destruct (q_correct_option q =? opt).
  - rewrite Hcor. reflexivity.
  - reflexivity.
Qed.

(** ** [_finish_test] *)

Lemma finish_test_commits (s : HState) (u t : Z) (qs : list Question) (c : Z) :
  d_correct (fsm_data (ctx s)) = Some c →
  d_questions (fsm_data (ctx s)) = Some qs →
  d_topic_id (fsm_data (ctx s)) = Some t →
  qs ≠ [] →
  db_fault (hdb s) m_get_attempt_count = None →
  db_fault (hdb s) m_save_attempt = None →
  foreign_keys_ok (hdb s) u t = true →
  _finish_test u s =
  (inr tt,
   {| ctx := idle;
      hdb := with_attempts (hdb s)
               (attempts (hdb s) ++
                [committed u t c (Z.of_nat (length qs)) (attempts (hdb s))]);
      sent := sent s ++
              [AttemptCompleted c (Z.of_nat (length qs))
                 (count_attempts u t (attempts (hdb s)) + 1);
               NextActions t] |}).
Proof.
  intros Hc Hqs Ht Hne Hf1 Hf2 Hfk.
  unfold _finish_test, get_attempt_count, save_attempt. run_handler.
  rewrite Hc, Hqs, Ht, Hf1. cbn [hdb]. rewrite Hf2, Hfk. cbn [ctx hdb sent].
  destruct (Z.eqb_spec (Z.of_nat (length qs)) 0) as [H0|H0].
  - destruct qs; [congruence|]. cbn [length] in H0. lia.
  - unfold committed. rewrite <- app_assoc. reflexivity.
Qed.

Lemma finish_test_write_fails (s : HState) (u t : Z) (qs : list Question)
    (c : Z) (e : exn) :
  d_correct (fsm_data (ctx s)) = Some c →
  d_questions (fsm_data (ctx s)) = Some qs →
  d_topic_id (fsm_data (ctx s)) = Some t →
  db_fault (hdb s) m_get_attempt_count = None →
  db_fault (hdb s) m_save_attempt = Some e →
  _finish_test u s = (inl e, s).
Proof.
  intros Hc Hqs Ht Hf1 Hf2.
  unfold _finish_test, get_attempt_count, save_attempt. run_handler.
  rewrite Hc, Hqs, Ht, Hf1. cbn [hdb]. rewrite Hf2. reflexivity.
Qed.

Lemma tallied_fields (q : Question) (opt c : Z) (c0 : FSMContext) :
  d_correct (fsm_data c0) = Some c →
  fsm_state (tallied q opt c c0) = fsm_state c0
  ∧ d_topic_id (fsm_data (tallied q opt c c0)) = d_topic_id (fsm_data c0)
  ∧ d_questions (fsm_data (tallied q opt c c0)) = d_questions (fsm_data c0)
  ∧ d_current (fsm_data (tallied q opt c c0)) = d_current (fsm_data c0)
  ∧ d_correct (fsm_data (tallied q opt c c0)) =
    Some (if q_correct_option q =? opt then c + 1 else c).
Proof.
  intros Hc. unfold tallied. destruct (q_correct_option q =? opt); cbn; auto.
Qed.

Ltac demo_active := unfold active; repeat split; vm_compute; congruence.

Lemma active_tallied (q : Question) (opt c : Z) (c0 : FSMContext) (t : Z)
    (qs : list Question) (i : Z) :
  active c0 t qs i c →
  active (tallied q opt c c0) t qs i (if q_correct_option q =? opt then c + 1 else c).
Proof.
  intros (Hst & Ht & Hqs & Hcur & Hcor & Hi).
  destruct (tallied_fields q opt c c0 Hcor) as (Tst & Tt & Tqs & Tcur & Tcor).
  unfold active. rewrite Tst, Tt, Tqs, Tcur, Tcor. auto 10.
Qed.

Lemma active_advanced (c0 : FSMContext) (t : Z) (qs : list Question) (i c : Z) :
  active c0 t qs i c → i + 1 < Z.of_nat (length qs) →
  active (ctx_set_current (i + 1) c0) t qs (i + 1) c.
Proof.
  intros (Hst & Ht & Hqs & Hcur & Hcor & Hi) Hlen.
  unfold active, ctx_set_current; cbn [fsm_state fsm_data set_current
    d_topic_id d_questions d_current d_correct].
  repeat split; try assumption; lia.
Qed.

(** An answer at the current index before the last question. *)
Lemma process_answer_advances (s : HState) (u t : Z) (qs : list Question)
    (i c opt : Z) (q : Question) :
  active (ctx s) t qs i c → qs !! Z.to_nat i = Some q →
  i + 1 < Z.of_nat (length qs) →
  ∃ s', process_answer u i opt s = (inr tt, s')
      ∧ ctx s' = ctx_set_current (i + 1) (tallied q opt c (ctx s))
      ∧ active (ctx s') t qs (i + 1) (if q_correct_option q =? opt then c + 1 else c)
      ∧ hdb s' = hdb s.
Proof.
  intros Hact Hq Hlen.
  destruct (lookup_in_range qs (i + 1)) as [q' Hq'].
  { destruct Hact as (_ & _ & _ & _ & _ & Hi). lia. }
  eexists. split; [eapply process_answer_next; eauto|].
  cbn [ctx hdb]. split; [reflexivity|]. split; [|reflexivity].
  apply active_advanced; [apply active_tallied; exact Hact | exact Hlen].
Qed.

(** An answer at the last question with a ledger that accepts the write. *)
Lemma process_answer_commits (s : HState) (u t : Z) (qs : list Question)
    (i c opt : Z) (q : Question) :
  active (ctx s) t qs i c → qs !! Z.to_nat i = Some q →
  i + 1 = Z.of_nat (length qs) →
  db_fault (hdb s) m_get_attempt_count = None →
  db_fault (hdb s) m_save_attempt = None →
  foreign_keys_ok (hdb s) u t = true →
  ∃ s', process_answer u i opt s = (inr tt, s')
      ∧ ctx s' = idle
      ∧ attempts (hdb s') =
        attempts (hdb s) ++
        [committed u t (if q_correct_option q =? opt then c + 1 else c)
           (Z.of_nat (length qs)) (attempts (hdb s))].
Proof.
  intros Hact Hq Hlen Hf1 Hf2 Hfk.
  destruct (active_tallied q opt c (ctx s) t qs i Hact)
    as (_ & Tt & Tqs & _ & Tcor & Hi).
  eexists. split.
  - erewrite process_answer_last by eauto.
    eapply (finish_test_commits _ u t qs); cbn [ctx hdb]; eauto.
    intros ->. cbn in Hi. lia.
  - cbn [ctx hdb]. split; reflexivity.
Qed.

(** C2 as stated fails at the last question: after the correct option is
    submitted at index 9 of 10 the context is cleared, so it holds neither
    the index 10 nor the count 6. *)
Lemma answer_advances_counterexample :
  ¬ (∀ (s : HState) (u t : Z) (qs : list Question) (i c opt : Z) (q : Question),
       active (ctx s) t qs i c → qs !! Z.to_nat i = Some q →
       q_correct_option q = opt →
       d_current (fsm_data (ctx (snd (process_answer u i opt s)))) = Some (i + 1)
       ∧ d_correct (fsm_data (ctx (snd (process_answer u i opt s)))) = Some (c + 1)).
Proof.
  intros H.
  destruct (H (demo_hstate (demo_session 9 5) demo_db) 7 1 demo_sample 9 5 3
              (mk_question 10 1 3)) as [Hcur _].
  - demo_active.
  - reflexivity.
  - reflexivity.
  - vm_compute in Hcur. discriminate.
Qed.

(** C2 (amended).  In an active session an answer at the current index [i]
    is tallied: the count becomes [c + 1] when the option is the question's
    correct option and stays [c] otherwise.  When another question follows,
    the handler returns without error, the index becomes [i + 1], the count
    is the tallied one and the database is untouched.  At the last question
    the stored index is not advanced: the handler continues as
    [_finish_test] on the tallied context, which, when the ledger accepts
    the write, records the tallied count as the score and clears the
    context. *)
Theorem answer_at_current_index (s : HState) (u t : Z) (qs : list Question)
    (i c opt : Z) (q : Question) :
  active (ctx s) t qs i c → qs !! Z.to_nat i = Some q →
  let c' := if q_correct_option q =? opt then c + 1 else c in
  (i + 1 < Z.of_nat (length qs) →
     ∃ s', process_answer u i opt s = (inr tt, s')
         ∧ ctx s' = ctx_set_current (i + 1) (tallied q opt c (ctx s))
         ∧ active (ctx s') t qs (i + 1) c'
         ∧ hdb s' = hdb s)
  ∧ (i + 1 = Z.of_nat (length qs) →
       process_answer u i opt s =
       _finish_test u {| ctx := tallied q opt c (ctx s); hdb := hdb s;
                         sent := sent s ++ [CallbackAck] |}
       ∧ active (tallied q opt c (ctx s)) t qs i c'
       ∧ (db_fault (hdb s) m_get_attempt_count = None →
          db_fault (hdb s) m_save_attempt = None →
          foreign_keys_ok (hdb s) u t = true →
          ∃ s', process_answer u i opt s = (inr tt, s')
              ∧ ctx s' = idle
              ∧ attempts (hdb s') =
                attempts (hdb s) ++
                [committed u t c' (Z.of_nat (length qs)) (attempts (hdb s))])).
Proof.
  intros Hact Hq c'. split.
  - intros Hlen. exact (process_answer_advances s u t qs i c opt q Hact Hq Hlen).
  - intros Hlen. split; [eapply process_answer_last; eauto|].
    split; [apply active_tallied; exact Hact|].
    intros Hf1 Hf2 Hfk.
    exact (process_answer_commits s u t qs i c opt q Hact Hq Hlen Hf1 Hf2 Hfk).
Qed.

Lemma answer_at_current_index_witness :
  ∃ s', process_answer 7 0 2 (demo_hstate (demo_session 0 0) demo_db) = (inr tt, s')
      ∧ active (ctx s') 1 demo_sample 1 1.
Proof.
  destruct (answer_at_current_index (demo_hstate (demo_session 0 0) demo_db)
              7 1 demo_sample 0 0 2 (mk_question 1 1 2)) as [Hnext _].
  - demo_active.
  - reflexivity.
  - destruct Hnext as (s' & Hrun & _ & Hact & _).
    + vm_compute. reflexivity.
    + exists s'. split; assumption.
Defined.

(** ** Options outside 1..4 *)

Lemma tallied_out_of_range (q : Question) (opt c : Z) (c0 : FSMContext) :
  check_correct_option q → ¬ (1 <= opt <= 4) → tallied q opt c c0 = c0.
Proof.
  unfold check_correct_option, tallied. intros Hq Hopt.
  destruct (Z.eqb_spec (q_correct_option q) opt); [lia | reflexivity].
Qed.

(** C10 as stated fails at the last question: the option 9 submitted at
    index 9 of 10 ends the session, and the cleared context does not hold
    the index 10. *)
Lemma option_out_of_range_counterexample :
  ¬ (∀ (s : HState) (u t : Z) (qs : list Question) (i c opt : Z) (q : Question),
       active (ctx s) t qs i c → qs !! Z.to_nat i = Some q →
       check_correct_option q → ¬ (1 <= opt <= 4) →
       d_current (fsm_data (ctx (snd (process_answer u i opt s)))) = Some (i + 1)).
Proof.
  intros H.
  specialize (H (demo_hstate (demo_session 9 5) demo_db) 7 1 demo_sample 9 5 9
                (mk_question 10 1 3)).
  vm_compute in H. discriminate H.
  - repeat split; congruence.
  - reflexivity.
  - split; congruence.
  - intros [_ Hle]. apply Hle. reflexivity.
Qed.

(** C10 (amended).  In an active session an answer at the current index
    whose option is not one of 1, 2, 3, 4 never matches a correct option
    that satisfies the CHECK constraint, so it is tallied as a wrong answer.
    When another question follows, the handler returns without error, the
    index becomes [i + 1] and the count and the database are unchanged.  At
    the last question the stored index is not advanced: the handler
    continues as [_finish_test] on the unchanged context, which, when the
    ledger accepts the write, records the unchanged count and clears the
    context without error. *)
Theorem option_out_of_range_counts_as_wrong (s : HState) (u t : Z)
    (qs : list Question) (i c opt : Z) (q : Question) :
  active (ctx s) t qs i c → qs !! Z.to_nat i = Some q →
  check_correct_option q → ¬ (1 <= opt <= 4) →
  (i + 1 < Z.of_nat (length qs) →
     ∃ s', process_answer u i opt s = (inr tt, s')
         ∧ ctx s' = ctx_set_current (i + 1) (ctx s)
         ∧ active (ctx s') t qs (i + 1) c
         ∧ hdb s' = hdb s)
  ∧ (i + 1 = Z.of_nat (length qs) →
       process_answer u i opt s =
       _finish_test u {| ctx := ctx s; hdb := hdb s;
                         sent := sent s ++ [CallbackAck] |}
       ∧ (db_fault (hdb s) m_get_attempt_count = None →
          db_fault (hdb s) m_save_attempt = None →
          foreign_keys_ok (hdb s) u t = true →
          ∃ s', process_answer u i opt s = (inr tt, s')
              ∧ ctx s' = idle
              ∧ attempts (hdb s') =
                attempts (hdb s) ++
                [committed u t c (Z.of_nat (length qs)) (attempts (hdb s))])).
Proof.
  intros Hact Hq Hchk Hopt.
  pose proof Hact as (Hst & Ht & Hqs & Hcur & Hcor & Hi).
  pose proof (tallied_out_of_range q opt c (ctx s) Hchk Hopt) as Htal.
  split.
  - intros Hlen.
    destruct (lookup_in_range qs (i + 1)) as [q' Hq']; [lia|].
    eexists. split; [eapply process_answer_next; eauto|].
    rewrite Htal. cbn [ctx hdb]. split; [reflexivity|]. split; [|reflexivity].
    unfold active, ctx_set_current; cbn [fsm_state fsm_data set_current
      d_topic_id d_questions d_current d_correct].
    repeat split; try assumption; lia.
  - intros Hlen.
    assert (Hlast : process_answer u i opt s =
                    _finish_test u {| ctx := ctx s; hdb := hdb s;
                                      sent := sent s ++ [CallbackAck] |}).
    { erewrite process_answer_last by eauto. rewrite Htal. reflexivity. }
    split; [exact Hlast|].
    intros Hf1 Hf2 Hfk. eexists. split.
    + rewrite Hlast.
      eapply (finish_test_commits _ u t qs c); cbn [ctx hdb];
        first [assumption | intros ->; cbn in Hi; lia].
    + cbn [ctx hdb]. split; reflexivity.
Qed.

Lemma option_out_of_range_counts_as_wrong_witness :
  ∃ s', process_answer 7 0 9 (demo_hstate (demo_session 0 0) demo_db) = (inr tt, s')
      ∧ active (ctx s') 1 demo_sample 1 0.
Proof.
  destruct (option_out_of_range_counts_as_wrong
              (demo_hstate (demo_session 0 0) demo_db)
              7 1 demo_sample 0 0 9 (mk_question 1 1 2)) as [Hnext _].
  - demo_active.
  - reflexivity.
  - split; vm_compute; congruence.
  - intros [_ Hle]. apply Hle. reflexivity.
  - destruct Hnext as (s' & Hrun & _ & Hact & _).
    + vm_compute. reflexivity.
    + exists s'. split; assumption.
Defined.

(** ** The topic that Start looks up *)

Lemma elem_of_insert_by_title (t x : Topic) (l : list Topic) :
  x ∈ insert_by_title t l ↔ x = t ∨ x ∈ l.
Proof.
  induction l as [|t' l IH]; cbn [insert_by_title].
  - rewrite list_elem_of_singleton, elem_of_nil. tauto.
  - destruct (String.leb _ _).
    + rewrite elem_of_cons. reflexivity.
    + rewrite !elem_of_cons, IH. tauto.
Qed.

Lemma elem_of_order_by_title (x : Topic) (l : list Topic) :
  x ∈ order_by_title l ↔ x ∈ l.
Proof.
  unfold order_by_title. induction l as [|t l IH]; cbn [foldr].
  - reflexivity.
  - rewrite elem_of_insert_by_title, elem_of_cons, IH. reflexivity.
Qed.

Lemma order_by_title_perm (l : list Topic) : order_by_title l ≡ₚ l.
Proof.
  unfold order_by_title. induction l as [|t l IH]; cbn [foldr]; [reflexivity|].
  rewrite <- IH at 2. generalize (foldr insert_by_title [] l) as m. clear.
  induction m as [|t' m IH]; cbn [insert_by_title]; [reflexivity|].
  destruct (String.leb _ _); [reflexivity|].
  rewrite IH. apply Permutation_swap.
Qed.

(** A topic that Start finds is a row of [topics] that is available and has
    the requested id; Start finds none exactly when there is no such row. *)
Lemma visible_topic_Some (db : Database) (topic_id : Z) (t : Topic) :
  visible_topic db topic_id = Some t →
  t ∈ topics db ∧ t_is_available t = 1 ∧ t_topic_id t = topic_id.
Proof.
  unfold visible_topic. intros H. destruct (find_some _ _ H) as [Hin Hid].
  apply list_elem_of_In, elem_of_order_by_title, list_elem_of_filter in Hin.
  apply Z.eqb_eq in Hid. tauto.
Qed.

Lemma visible_topic_None (db : Database) (topic_id : Z) :
  visible_topic db topic_id = None ↔
  ∀ t, t ∈ topics db → t_is_available t = 1 → t_topic_id t ≠ topic_id.
Proof.
  unfold visible_topic. split.
  - intros H t Hin Hav Hid.
    assert (Hne : (t_topic_id t =? topic_id) = false).
    { apply (find_none _ _ H t).
      apply list_elem_of_In, elem_of_order_by_title, list_elem_of_filter. auto. }
    apply Z.eqb_neq in Hne. contradiction.
  - intros H. destruct (find _ _) as [t|] eqn:Hf; [|reflexivity].
    apply visible_topic_Some in Hf as (Hin & Hav & Hid).
    destruct (H t Hin Hav Hid).
Qed.

(** ** The branches of [_start_test_for_topic] *)

Ltac start_handler Hok :=
  unfold _start_test_for_topic, list_topics, fetch_random_questions,
    get_attempt_count;
  run_handler; rewrite ?Hok; cbn [hdb].

Lemma start_topic_unavailable rnd (u topic_id : Z) (s : HState) :
  storage_ok (hdb s) →
  visible_topic (hdb s) topic_id = None →
  _start_test_for_topic rnd u topic_id s =
  (inr tt, {| ctx := ctx s; hdb := hdb s; sent := sent s ++ [TopicUnavailable] |}).
Proof.
  intros Hok Hvis. unfold visible_topic in Hvis.
  start_handler Hok. rewrite Hvis. reflexivity.
Qed.

Lemma start_insufficient rnd (u topic_id : Z) (s : HState) (topic : Topic) :
  storage_ok (hdb s) →
  visible_topic (hdb s) topic_id = Some topic →
  Z.of_nat (length (sample rnd (hdb s) topic_id)) < 10 →
  _start_test_for_topic rnd u topic_id s =
  (inr tt, {| ctx := ctx s; hdb := hdb s;
              sent := sent s ++ [InsufficientQuestions] |}).
Proof.
  intros Hok Hvis Hlen. unfold visible_topic in Hvis. unfold sample, pool in Hlen.
  start_handler Hok. rewrite Hvis. cbn [hdb]. rewrite ?Hok.
  rewrite (proj2 (Z.ltb_lt _ _)) by exact Hlen. reflexivity.
Qed.

Lemma start_limit_exhausted rnd (u topic_id : Z) (s : HState) (topic : Topic)
    (limit : Z) :
  storage_ok (hdb s) →
  visible_topic (hdb s) topic_id = Some topic →
  10 <= Z.of_nat (length (sample rnd (hdb s) topic_id)) →
  t_attempt_limit topic = Some limit →
  limit <= count_attempts u topic_id (attempts (hdb s)) →
  _start_test_for_topic rnd u topic_id s =
  (inr tt, {| ctx := idle; hdb := hdb s; sent := sent s ++ [LimitExhausted] |}).
Proof.
  intros Hok Hvis Hlen Hlim Hcnt. unfold visible_topic in Hvis.
  unfold sample, pool in Hlen.
  start_handler Hok. rewrite Hvis. cbn [hdb]. rewrite ?Hok.
  rewrite (proj2 (Z.ltb_ge _ _)) by exact Hlen.
  rewrite Hlim. cbn [hdb]. rewrite ?Hok.
  rewrite (proj2 (Z.leb_le _ _)) by exact Hcnt. reflexivity.
Qed.

Lemma start_succeeds rnd (u topic_id : Z) (s : HState) (topic : Topic) :
  storage_ok (hdb s) →
  visible_topic (hdb s) topic_id = Some topic →
  10 <= Z.of_nat (length (sample rnd (hdb s) topic_id)) →
  (∀ limit, t_attempt_limit topic = Some limit →
            count_attempts u topic_id (attempts (hdb s)) < limit) →
  ∃ q0, sample rnd (hdb s) topic_id !! 0%nat = Some q0 ∧
  _start_test_for_topic rnd u topic_id s =
  (inr tt,
   {| ctx := started topic_id topic (sample rnd (hdb s) topic_id)
               (count_attempts u topic_id (attempts (hdb s))) (ctx s);
      hdb := hdb s;
      sent := sent s ++ [TestStarted (t_title topic); presented 0 q0] |}).
Proof.
  intros Hok Hvis Hlen Hgate. unfold visible_topic in Hvis.
  destruct (lookup_in_range (sample rnd (hdb s) topic_id) 0) as [q0 Hq0]; [lia|].
  exists q0. split; [exact Hq0|].
  unfold started. unfold sample, pool in *.
  set (qs := sql_limit 10 _) in *.
  start_handler Hok. rewrite Hvis. cbn [hdb]. rewrite ?Hok. fold qs.
  rewrite (proj2 (Z.ltb_ge _ _)) by exact Hlen.
  destruct (t_attempt_limit topic) as [limit|] eqn:Hlim.
  - cbn [hdb]. rewrite ?Hok.
    rewrite (proj2 (Z.leb_gt _ _)) by (apply Hgate; reflexivity).
    cbn [ctx hdb sent fsm_state fsm_data].
    erewrite send_question_ok; cbn [ctx hdb sent fsm_data set_session
      d_current d_questions]; try reflexivity; [|lia|exact Hq0].
    rewrite <- app_assoc. reflexivity.
  - cbn [ctx hdb sent fsm_state fsm_data].
    erewrite send_question_ok; cbn [ctx hdb sent fsm_data set_session
      d_current d_questions]; try reflexivity; [|lia|exact Hq0].
    rewrite <- app_assoc. reflexivity.
Qed.

(** ** The attempt-limit gate *)

Lemma gate_passes_spec (limit : option Z) (prior : Z) :
  gate_passes limit prior = true ↔ ∀ l, limit = Some l → prior < l.
Proof.
  unfold gate_passes. destruct limit as [l|].
  - rewrite negb_true_iff, Z.leb_gt. split.
    + intros H l' [= <-]. exact H.
    + intros H. apply H. reflexivity.
  - split; [intros _ l; discriminate | reflexivity].
Qed.

Lemma active_not_idle (t : Z) (qs : list Question) (i c : Z) :
  ¬ active idle t qs i c.
Proof. intros (Hst & _). discriminate Hst. Qed.

Lemma active_started (topic_id : Z) (topic : Topic) (qs : list Question)
    (prior : Z) (c0 : FSMContext) :
  10 <= Z.of_nat (length qs) →
  active (started topic_id topic qs prior c0) topic_id qs 0 0.
Proof.
  intros Hlen. unfold active, started; cbn. repeat split; lia.
Qed.

(** C3.  At Start, for a topic that is available and has at least ten
    sampled questions, the gate decides: it passes when the limit is null,
    whatever the number of prior attempts, and for a limit [l] it passes
    exactly when the number of prior attempts of the user on the topic is
    less than [l].  When it passes, Start creates the session at index 0
    with count 0; when it fails, Start is rejected with the limit-exhausted
    reason and the context is cleared. *)
Theorem attempt_limit_gate rnd (u topic_id : Z) (s : HState) (topic : Topic) :
  storage_ok (hdb s) →
  visible_topic (hdb s) topic_id = Some topic →
  10 <= Z.of_nat (length (sample rnd (hdb s) topic_id)) →
  let prior := count_attempts u topic_id (attempts (hdb s)) in
  let qs := sample rnd (hdb s) topic_id in
  let r := _start_test_for_topic rnd u topic_id s in
  (∀ n, gate_passes None n = true)
  ∧ (∀ l n, gate_passes (Some l) n = true ↔ n < l)
  ∧ (gate_passes (t_attempt_limit topic) prior = true ↔
     fst r = inr tt ∧ active (ctx (snd r)) topic_id qs 0 0)
  ∧ (gate_passes (t_attempt_limit topic) prior = false →
     r = (inr tt, {| ctx := idle; hdb := hdb s;
                     sent := sent s ++ [LimitExhausted] |})).
Proof.
  intros Hok Hvis Hlen prior qs r.
  assert (Hrej : gate_passes (t_attempt_limit topic) prior = false →
                 r = (inr tt, {| ctx := idle; hdb := hdb s;
                                 sent := sent s ++ [LimitExhausted] |})).
  { unfold gate_passes. destruct (t_attempt_limit topic) as [l|] eqn:Hlim;
      [|discriminate].
    rewrite negb_false_iff, Z.leb_le. intros Hle.
    eapply start_limit_exhausted; eauto. }
  split; [reflexivity|]. split.
  { intros l n. cbn. rewrite negb_true_iff. apply Z.leb_gt. }
  split; [|exact Hrej]. split.
  - intros Hpass.
    destruct (start_succeeds rnd u topic_id s topic Hok Hvis Hlen) as (q0 & _ & Hrun).
    { apply gate_passes_spec. exact Hpass. }
    subst r. rewrite Hrun. cbn [fst snd ctx].
    split; [reflexivity | apply active_started; exact Hlen].
  - intros [_ Hact].
    destruct (gate_passes (t_attempt_limit topic) prior) eqn:Hg; [reflexivity|].
    rewrite (Hrej eq_refl) in Hact. cbn [snd ctx] in Hact.
    destruct (active_not_idle _ _ _ _ Hact).
Qed.

Lemma attempt_limit_gate_witness :
  active (ctx (snd (_start_test_for_topic id 7 1 (demo_hstate idle demo_db))))
    1 demo_sample 0 0.
Proof.
  destruct (attempt_limit_gate id 7 1 (demo_hstate idle demo_db) html_basics)
    as (_ & _ & [Hpass _] & _).
  - intros m. reflexivity.
  - reflexivity.
  - vm_compute. congruence.
  - apply Hpass. reflexivity.
Defined.

(** ** Too few questions *)

Lemma length_sql_limit {A} (limit : Z) (rows : list A) :
  (length (sql_limit limit rows) <= length rows)%nat.
Proof.
  unfold sql_limit. destruct (limit <? 0); [lia|]. rewrite length_take. lia.
Qed.

(** C4 as stated fails for a topic that is hidden: topic 2 has three
    questions, and Start rejects it as unavailable, not for its pool. *)
Lemma short_pool_counterexample :
  ¬ (∀ rnd (u topic_id : Z) (s : HState),
       storage_ok (hdb s) →
       (∃ topic, topic ∈ topics (hdb s) ∧ t_topic_id topic = topic_id) →
       rnd (pool (hdb s) topic_id) ≡ₚ pool (hdb s) topic_id →
       Z.of_nat (length (pool (hdb s) topic_id)) < 10 →
       sent (snd (_start_test_for_topic rnd u topic_id s)) =
       sent s ++ [InsufficientQuestions]).
Proof.
  intros H.
  specialize (H id 7 2 (demo_hstate idle demo_db)).
  assert (Hsent : sent (snd (_start_test_for_topic id 7 2 (demo_hstate idle demo_db)))
                  = [TopicUnavailable]) by (vm_compute; reflexivity).
  rewrite Hsent in H. cbn [demo_hstate sent hdb app] in H.
  discriminate H.
  - intros m. reflexivity.
  - exists hidden_topic. split; [|reflexivity].
    cbn. rewrite !elem_of_cons. tauto.
  - reflexivity.
  - vm_compute. reflexivity.
Qed.

(** C4 (amended).  For every available topic whose question pool holds
    fewer than ten questions, Start rejects with the insufficient-questions
    reason and nothing else happens: the context is as it was, so no session
    is created, the database is as it was, and no question is presented. *)
Theorem start_rejects_short_pool rnd (u topic_id : Z) (s : HState) (topic : Topic) :
  storage_ok (hdb s) →
  visible_topic (hdb s) topic_id = Some topic →
  rnd (pool (hdb s) topic_id) ≡ₚ pool (hdb s) topic_id →
  Z.of_nat (length (pool (hdb s) topic_id)) < 10 →
  _start_test_for_topic rnd u topic_id s =
  (inr tt, {| ctx := ctx s; hdb := hdb s;
              sent := sent s ++ [InsufficientQuestions] |}).
Proof.
  intros Hok Hvis Hperm Hlen.
  eapply start_insufficient; eauto.
  pose proof (length_sql_limit 10 (rnd (pool (hdb s) topic_id))) as Hle.
  apply Permutation_length in Hperm. unfold sample. lia.
Qed.

Lemma start_rejects_short_pool_witness :
  _start_test_for_topic id 7 3 (demo_hstate idle demo_db) =
  (inr tt, {| ctx := idle; hdb := demo_db; sent := [InsufficientQuestions] |}).
Proof.
  apply (start_rejects_short_pool id 7 3 (demo_hstate idle demo_db) short_topic).
  - intros m. reflexivity.
  - reflexivity.
  - reflexivity.
  - vm_compute. reflexivity.
Defined.

(** ** Which handlers write to the database *)

Lemma read_only_ret {A} (x : A) : read_only (mret x : Handler A).
Proof. intros s. reflexivity. Qed.

Lemma read_only_bind {A B} (m : Handler A) (k : A → Handler B) :
  read_only m → (∀ x, read_only (k x)) → read_only (m ≫= k).
Proof.
  intros Hm Hk s. specialize (Hm s).
  unfold mbind, Handler_bind. destruct (m s) as [[e|x] s1]; cbn [snd] in *.
  - exact Hm.
  - rewrite Hk. exact Hm.
Qed.

Lemma read_only_raise {A} (e : exn) : read_only (raise e : Handler A).
Proof. intros s. reflexivity. Qed.

Lemma read_only_get_db : read_only get_db.
Proof. intros s. reflexivity. Qed.

Lemma read_only_get_ctx : read_only get_ctx.
Proof. intros s. reflexivity. Qed.

Lemma read_only_put_ctx (c : FSMContext) : read_only (put_ctx c).
Proof. intros s. reflexivity. Qed.

Lemma read_only_answer (r : Reply) : read_only (answer r).
Proof. intros s. reflexivity. Qed.

Create HintDb handler.

#[local] Hint Resolve read_only_ret read_only_raise read_only_get_db
  read_only_get_ctx read_only_put_ctx read_only_answer : handler.

(** Splits a handler along its binds and its case distinctions, down to the
    primitive operations. *)
Ltac read_only_step :=
  match goal with
  | |- read_only (_ ≫= _) => apply read_only_bind; [|intros ?]
  | |- read_only (match ?x with _ => _ end) => destruct x
  | |- read_only _ => solve [auto with handler]
  end.

Ltac unfold_handlers :=
  unfold process_test_topic, retry_callback, cmd_test, _start_test_for_topic,
    _send_question, get_user, list_topics, fetch_random_questions,
    get_attempt_count, connect, get_data, get_state, set_state, update_data,
    clear, key, index.

Lemma read_only_send_question : read_only _send_question.
Proof. unfold_handlers. repeat read_only_step. Qed.

Lemma read_only_start rnd (u topic_id : Z) :
  read_only (_start_test_for_topic rnd u topic_id).
Proof. unfold_handlers. repeat read_only_step. Qed.

Lemma read_only_cmd_test (u : Z) : read_only (cmd_test u).
Proof. unfold_handlers. repeat read_only_step. Qed.

Lemma read_only_appends {A} (u : Z) (h : Handler A) :
  read_only h → appends_numbered u h.
Proof. intros H s. left. apply H. Qed.

Lemma appends_numbered_bind {A B} (u : Z) (m : Handler A) (k : A → Handler B) :
  read_only m → (∀ x, appends_numbered u (k x)) → appends_numbered u (m ≫= k).
Proof.
  intros Hm Hk s. specialize (Hm s).
  unfold mbind, Handler_bind. destruct (m s) as [[e|x] s1]; cbn [snd] in *.
  - left. exact Hm.
  - rewrite <- Hm. apply Hk.
Qed.

Lemma appends_numbered_save (u t score max_score : Z) (k : Z → Handler unit) :
  (∀ n, read_only (k n)) →
  appends_numbered u
    (attempt_count ← get_attempt_count u t;
     save_attempt u t score max_score (Some (attempt_count + 1));;
     k attempt_count).
Proof.
  intros Hk s. unfold get_attempt_count, save_attempt, connect.
  run_handler.
  destruct (db_fault (hdb s) m_get_attempt_count); [left; reflexivity|].
  cbn [hdb]. destruct (db_fault (hdb s) m_save_attempt); [left; reflexivity|].
  destruct (foreign_keys_ok (hdb s) u t); [|left; reflexivity].
  right. exists t, score, max_score.
  match goal with |- hdb (snd (k ?n ?s1)) = _ => rewrite (Hk n s1) end.
  reflexivity.
Qed.

Lemma appends_numbered_finish (u : Z) : appends_numbered u (_finish_test u).
Proof.
  unfold _finish_test.
  apply appends_numbered_bind; [unfold_handlers; repeat read_only_step|intros data].
  apply appends_numbered_bind; [unfold_handlers; repeat read_only_step|intros score].
  apply appends_numbered_bind; [unfold_handlers; repeat read_only_step|intros qs].
  apply appends_numbered_bind; [unfold_handlers; repeat read_only_step|intros t].
  cbv zeta.
  refine (appends_numbered_save u t score (Z.of_nat (length qs)) (fun n => _) _).
  intros n. unfold_handlers. repeat read_only_step.
Qed.

Lemma appends_numbered_process_answer (u i o : Z) :
  appends_numbered u (process_answer u i o).
Proof.
  unfold process_answer.
  apply appends_numbered_bind; [unfold_handlers; repeat read_only_step|intros _].
  apply appends_numbered_bind; [unfold_handlers; repeat read_only_step|intros data].
  apply appends_numbered_bind; [unfold_handlers; repeat read_only_step|intros cur].
  destruct (bool_decide _); [apply read_only_appends; auto with handler|].
  apply appends_numbered_bind; [unfold_handlers; repeat read_only_step|intros qs].
  apply appends_numbered_bind; [unfold_handlers; repeat read_only_step|intros q].
  apply appends_numbered_bind; [unfold_handlers; repeat read_only_step|intros _].
  destruct (_ <=? _); [apply appends_numbered_finish|].
  apply read_only_appends. pose proof read_only_send_question.
  unfold update_data. repeat read_only_step.
Qed.

(** ** The two handlers of [common.py] *)

Lemma keeps_users_refl (db : Database) : keeps_users db db.
Proof. unfold keeps_users. auto 10. Qed.

Lemma keeps_users_trans (db1 db2 db3 : Database) :
  keeps_users db1 db2 → keeps_users db2 db3 → keeps_users db1 db3.
Proof.
  intros (Ht & Hq & Ha & Hf & Hr) (Ht' & Hq' & Ha' & Hf' & Hr').
  unfold keeps_users. rewrite Ht', Hq', Ha', Hf'. auto 10.
Qed.

Lemma registers_bind {A B} (m : Handler A) (k : A → Handler B) :
  registers m → (∀ x, registers (k x)) → registers (m ≫= k).
Proof.
  intros Hm Hk s. destruct (Hm s) as [Hdb Hctx].
  unfold mbind, Handler_bind. destruct (m s) as [[e|x] s1]; cbn [snd] in *.
  - split; assumption.
  - destruct (Hk x s1) as [Hdb' Hctx']. split.
    + eapply keeps_users_trans; eassumption.
    + destruct Hctx' as [->| ->]; auto.
Qed.

Lemma registers_ret {A} (x : A) : registers (mret x : Handler A).
Proof. intros s. split; [apply keeps_users_refl | left; reflexivity]. Qed.

Lemma registers_raise {A} (e : exn) : registers (raise e : Handler A).
Proof. intros s. split; [apply keeps_users_refl | left; reflexivity]. Qed.

Lemma registers_answer (r : Reply) : registers (answer r).
Proof. intros s. split; [apply keeps_users_refl | left; reflexivity]. Qed.

Lemma registers_clear : registers clear.
Proof. intros s. split; [apply keeps_users_refl | right; reflexivity]. Qed.

Lemma registers_index {A} (l : list A) (i : Z) : registers (index l i).
Proof. unfold index. destruct (py_index l i); [apply registers_ret | apply registers_raise]. Qed.

Lemma registers_get_user (u : Z) : registers (get_user u).
Proof.
  intros s. unfold get_user. run_handler.
  destruct (db_fault (hdb s) m_get_user);
    (split; [apply keeps_users_refl | left; reflexivity]).
Qed.

Lemma registers_upsert_user (io : option exn) (u : Z) (name role : string) :
  registers (upsert_user io u name role).
Proof.
  intros s. unfold upsert_user, connect_io. run_handler.
  destruct io as [e|]; [split; [apply keeps_users_refl | left; reflexivity]|].
  destruct (existsb _ _); cbn [snd hdb ctx]; (split; [|left; reflexivity]);
    unfold keeps_users; cbn [with_users users topics questions attempts db_fault];
    repeat (split; [reflexivity|]); intros v (x & Hx & Hv).
  - exists (if u_user_id x =? u
            then {| u_user_id := u; u_full_name := name; u_role := role |} else x).
    split.
    + apply (list_elem_of_fmap_2 (λ x, if u_user_id x =? u then _ else x)), Hx.
    + destruct (Z.eqb_spec (u_user_id x) u); cbn [u_user_id]; congruence.
  - exists x. split; [apply elem_of_app; left; exact Hx | exact Hv].
Qed.

Lemma registers_record_message (io : option exn) (a b : Z) (text : string)
    (is_answered : bool) :
  registers (record_message io a b text is_answered).
Proof.
  intros s. unfold record_message, connect_io. run_handler.
  destruct io as [e|]; [split; [apply keeps_users_refl | left; reflexivity]|].
  destruct (_ && _); cbn [snd hdb ctx]; (split; [|left; reflexivity]).
  - unfold keeps_users, registered. cbn. auto 10.
  - apply keeps_users_refl.
Qed.

Lemma registers_process_full_name (u : Z) (m : Message) (o : Outside) :
  registers (process_full_name u m o).
Proof.
  unfold process_full_name. destruct (_ <? _)%nat; [apply registers_answer|].
  apply registers_bind; [apply registers_upsert_user | intros _].
  apply registers_bind; [apply registers_clear | intros _].
  apply registers_answer.
Qed.

Lemma registers_process_question (u : Z) (m : Message) (o : Outside) :
  registers (process_question u m o).
Proof.
  unfold process_question. destruct (String.eqb _ _); [apply registers_answer|].
  apply registers_bind; [apply registers_index | intros admin_id].
  apply registers_bind; [apply registers_get_user | intros admin_record].
  apply registers_bind.
  { destruct admin_record; [apply registers_ret | apply registers_upsert_user]. }
  intros _.
  apply registers_bind; [apply registers_record_message | intros message_id].
  apply registers_bind; [apply registers_clear | intros _].
  apply registers_bind; apply registers_answer || (intros _; apply registers_answer).
Qed.

(** ** Attempt numbers *)

(** The handler that takes an update either leaves the database alone but
    for one new row of the ledger, or is one of the two handlers of
    [common.py]. *)
Lemma route_cases (ev : Event) (st : option State) (h : Handler unit) :
  route ev st = Some h →
  appends_numbered (event_user ev) h ∨ (¬ is_callback ev ∧ registers h).
Proof.
  destruct ev as [u m o|u t rnd|u t rnd|u i o]; cbn [route event_user].
  - destruct (decide _); [intros [= <-]; right; split;
                            [tauto | apply registers_process_full_name]|].
    destruct (decide _); [intros [= <-]; right; split;
                            [tauto | apply registers_process_question]|].
    intros [= <-]. left. apply read_only_appends, read_only_cmd_test.
  - destruct (decide _); [|discriminate]. intros [= <-]. left.
    apply read_only_appends. unfold process_test_topic.
    apply read_only_bind; [auto with handler | intros _; apply read_only_start].
  - intros [= <-]. left. apply read_only_appends. unfold retry_callback.
    apply read_only_bind; [auto with handler | intros _; apply read_only_start].
  - destruct (decide _); [|discriminate]. intros [= <-]. left.
    apply appends_numbered_process_answer.
Qed.

(** One update leaves the ledger as it is or appends one row, written for
    the user of the update and numbered from the rows present before. *)
Lemma step_ledger (w : World) (ev : Event) :
  attempts (database (step w ev)) = attempts (database w)
  ∨ ∃ t score max_score,
      attempts (database (step w ev)) =
      attempts (database w) ++
      [committed (event_user ev) t score max_score (attempts (database w))].
Proof.
  unfold step.
  destruct (route ev _) as [h|] eqn:Hroute; [|left; reflexivity].
  set (s0 := {| ctx := context_of w (event_user ev); hdb := database w;
                sent := [] |}).
  destruct (route_cases _ _ _ Hroute) as [Hh | [_ Hh]]; specialize (Hh s0).
  - destruct (h s0) as [r s]. cbn [snd hdb database] in *.
    destruct Hh as [-> | (t & sc & mx & ->)]; [left; reflexivity|].
    right. exists t, sc, mx. reflexivity.
  - destruct (h s0) as [r s]. cbn [snd hdb database] in *.
    destruct Hh as [(_ & _ & -> & _) _]. left. reflexivity.
Qed.

Lemma ledger_numbered_nil : ledger_numbered [].
Proof. intros pre a post H. destruct pre; discriminate H. Qed.

Lemma ledger_numbered_snoc (rows : list Attempt) (u t score max_score : Z) :
  ledger_numbered rows →
  ledger_numbered (rows ++ [committed u t score max_score rows]).
Proof.
  intros Hrows pre a post Heq.
  destruct post as [|x post _] using rev_ind.
  - apply app_inj_tail in Heq as [<- <-]. reflexivity.
  - rewrite app_comm_cons, app_assoc in Heq.
    apply app_inj_tail in Heq as [-> _]. eapply Hrows. reflexivity.
Qed.

Lemma ledger_numbered_prefix (rows : list Attempt) (a : Attempt) :
  ledger_numbered (rows ++ [a]) →
  ledger_numbered rows
  ∧ a_attempt_number a = count_attempts (a_user_id a) (a_topic_id a) rows + 1.
Proof.
  intros H. split.
  - intros pre b post ->. apply (H pre b (post ++ [a])).
    rewrite <- app_assoc. reflexivity.
  - apply (H rows a []). reflexivity.
Qed.

Lemma ledger_numbered_step (w : World) (ev : Event) :
  ledger_numbered (attempts (database w)) →
  ledger_numbered (attempts (database (step w ev))).
Proof.
  intros H. destruct (step_ledger w ev) as [-> | (t & sc & mx & ->)].
  - exact H.
  - apply ledger_numbered_snoc, H.
Qed.

Lemma ledger_numbered_run (evs : list Event) (w : World) :
  ledger_numbered (attempts (database w)) →
  ledger_numbered (attempts (database (run w evs))).
Proof.
  revert w. induction evs as [|ev evs IH]; intros w H; cbn [run foldl].
  - exact H.
  - apply IH, ledger_numbered_step, H.
Qed.

(** In a numbered ledger the rows of one user and topic carry 1, 2, 3, ...
    in the order in which they were written. *)
Lemma ledger_numbered_seq (rows : list Attempt) (u t : Z) :
  ledger_numbered rows →
  a_attempt_number <$> attempts_of u t rows =
  Z.of_nat <$> seq 1 (length (attempts_of u t rows)).
Proof.
  induction rows as [|a rows IH] using rev_ind; intros H; [reflexivity|].
  apply ledger_numbered_prefix in H as [Hrows Ha].
  unfold attempts_of in *. rewrite filter_app, fmap_app, length_app, seq_app,
    fmap_app, IH by exact Hrows.
  f_equal. rewrite filter_cons, filter_nil.
  destruct (decide _) as [[Hu Ht]|]; [|reflexivity].
  cbn [length seq fmap list_fmap]. rewrite Ha, Hu, Ht. unfold count_attempts.
  f_equal. lia.
Qed.

(** C5.  Every update leaves the ledger as it is or appends one row whose
    [attempt_number] is the number of rows that the table holds for that
    user and topic at that moment, plus one.  Hence, with updates handled
    one at a time, every row of the ledger carries the number of earlier
    rows of its user and topic plus one, and the rows of one user and topic
    are numbered 1, 2, 3, ... in the order of their completion: the N-th
    attempt records [attempt_number = N]. *)
Theorem attempt_number_counts_prior_attempts (w : World) (evs : list Event) :
  ledger_numbered (attempts (database w)) →
  let rows := attempts (database (run w evs)) in
  (∀ w' ev,
     attempts (database (step w' ev)) = attempts (database w')
     ∨ ∃ t score max_score,
         attempts (database (step w' ev)) =
         attempts (database w') ++
         [{| a_user_id := event_user ev; a_topic_id := t; a_score := score;
             a_max_score := max_score;
             a_attempt_number :=
               count_attempts (event_user ev) t (attempts (database w')) + 1 |}])
  ∧ ledger_numbered rows
  ∧ ∀ u t, a_attempt_number <$> attempts_of u t rows =
           Z.of_nat <$> seq 1 (length (attempts_of u t rows)).
Proof.
  intros H rows. split; [exact step_ledger|].
  assert (Hrows : ledger_numbered rows) by (apply ledger_numbered_run, H).
  split; [exact Hrows|].
  intros u t. apply ledger_numbered_seq, Hrows.
Qed.

Lemma attempt_number_counts_prior_attempts_witness :
  a_attempt_number <$>
    attempts_of 7 1
      (attempts (database (run demo_world
         (Ev_retry 7 1 id :: answer_from 7 0 demo_all_correct ++
          Ev_retry 7 1 id :: answer_from 7 0 demo_answers))))
  = [1; 2].
Proof.
  destruct (attempt_number_counts_prior_attempts demo_world
              (Ev_retry 7 1 id :: answer_from 7 0 demo_all_correct ++
               Ev_retry 7 1 id :: answer_from 7 0 demo_answers))
    as (_ & _ & Hseq).
  - intros pre a post Heq. destruct pre; discriminate Heq.
  - rewrite Hseq. vm_compute. reflexivity.
Defined.

(** The scenario of the specification: twelve questions, a limit of two.
    The first attempt scores 10 of 10 as attempt 1, the second 7 of 10 as
    attempt 2, and the third Start is rejected. *)
Example html_basics_scenario :
  let w := run demo_world
             (Ev_retry 7 1 id :: answer_from 7 0 demo_all_correct ++
              Ev_retry 7 1 id :: answer_from 7 0 demo_answers ++
              [Ev_retry 7 1 id]) in
  attempts (database w) =
    [{| a_user_id := 7; a_topic_id := 1; a_score := 10; a_max_score := 10;
        a_attempt_number := 1 |};
     {| a_user_id := 7; a_topic_id := 1; a_score := 7; a_max_score := 10;
        a_attempt_number := 2 |}]
  ∧ last (outbox w) = Some (7, LimitExhausted)
  ∧ context_of w 7 = idle.
Proof. vm_compute. repeat split; reflexivity. Qed.

(** ** A whole session *)

Lemma step_answer (w : World) (u i o : Z) (r : exn + unit) (s : HState) :
  fsm_state (context_of w u) = Some TestState_answering →
  process_answer u i o {| ctx := context_of w u; hdb := database w; sent := [] |}
  = (r, s) →
  context_of (step w (Ev_answer u i o)) u = ctx s
  ∧ database (step w (Ev_answer u i o)) = hdb s.
Proof.
  intros Hst Hrun. unfold step. cbn [event_user route].
  rewrite Hst, decide_True by reflexivity. rewrite Hrun.
  rewrite context_of_insert, decide_True by reflexivity.
  split; reflexivity.
Qed.

Lemma step_retry (w : World) (u t : Z) rnd (r : exn + unit) (s : HState) :
  _start_test_for_topic rnd u t
    {| ctx := context_of w u; hdb := database w; sent := [CallbackAck] |}
  = (r, s) →
  context_of (step w (Ev_retry u t rnd)) u = ctx s
  ∧ database (step w (Ev_retry u t rnd)) = hdb s.
Proof.
  intros Hrun. unfold step. cbn [event_user route].
  unfold retry_callback. run_handler. cbn [app]. rewrite Hrun.
  rewrite context_of_insert, decide_True by reflexivity.
  split; reflexivity.
Qed.

Lemma matches_nil_r (qs : list Question) : matches qs [] = 0.
Proof. destruct qs; reflexivity. Qed.

Lemma matches_drop (qs : list Question) (i : Z) (q : Question) (o : Z)
    (opts : list Z) :
  0 <= i → qs !! Z.to_nat i = Some q →
  matches (drop (Z.to_nat i) qs) (o :: opts) =
  (if q_correct_option q =? o then 1 else 0)
  + matches (drop (Z.to_nat (i + 1)) qs) opts.
Proof.
  intros Hi Hq. rewrite (drop_S _ _ _ Hq).
  replace (Z.to_nat (i + 1)) with (S (Z.to_nat i)) by lia. reflexivity.
Qed.

Lemma foreign_keys_ok_intro (db : Database) (u t : Z) (topic : Topic) :
  registered db u → topic ∈ topics db → t_topic_id topic = t →
  foreign_keys_ok db u t = true.
Proof.
  intros (x & Hx & Hu) Htopic Ht. unfold foreign_keys_ok.
  apply andb_true_iff. split; apply existsb_exists.
  - exists x. split; [apply list_elem_of_In, Hx | apply Z.eqb_eq, Hu].
  - exists topic. split; [apply list_elem_of_In, Htopic | apply Z.eqb_eq, Ht].
Qed.

(** Answering every remaining question of an active session, in order,
    commits one attempt: the score is the count so far plus the number of
    matching answers, the maximum is the number of questions. *)
Lemma run_answers (opts : list Z) :
  ∀ (w : World) (u t : Z) (qs : list Question) (i c : Z),
    active (context_of w u) t qs i c →
    storage_ok (database w) →
    foreign_keys_ok (database w) u t = true →
    Z.of_nat (length opts) = Z.of_nat (length qs) - i →
    attempts (database (run w (answer_from u i opts))) =
    attempts (database w) ++
    [committed u t (c + matches (drop (Z.to_nat i) qs) opts)
       (Z.of_nat (length qs)) (attempts (database w))]
    ∧ context_of (run w (answer_from u i opts)) u = idle.
Proof.
  induction opts as [|o opts IH]; intros w u t qs i c Hact Hok Hfk Hlen.
  { destruct Hact as (_ & _ & _ & _ & _ & Hi). cbn [length] in Hlen. lia. }
  pose proof Hact as (Hst & Ht & Hqs & Hcur & Hcor & Hi).
  destruct (lookup_in_range qs i Hi) as [q Hq].
  cbn [answer_from run foldl]. fold (run (step w (Ev_answer u i o)) (answer_from u (i + 1) opts)).
  set (s0 := {| ctx := context_of w u; hdb := database w; sent := [] |}).
  destruct (decide (i + 1 < Z.of_nat (length qs))) as [Hlt|Hge].
  - destruct (process_answer_advances s0 u t qs i c o q Hact Hq Hlt)
      as (s' & Hrun & _ & Hact' & Hdb).
    destruct (step_answer w u i o _ _ Hst Hrun) as [Hc1 Hd1].
    cbn [s0 hdb] in Hdb.
    destruct (IH (step w (Ev_answer u i o)) u t qs (i + 1)
                (if q_correct_option q =? o then c + 1 else c)) as [Hrows Hidle].
    + rewrite Hc1. exact Hact'.
    + rewrite Hd1, Hdb. exact Hok.
    + rewrite Hd1, Hdb. exact Hfk.
    + cbn [length] in Hlen. lia.
    + split; [|exact Hidle].
      rewrite Hrows, Hd1, Hdb. rewrite (matches_drop qs i q o opts) by (lia || exact Hq).
      do 3 f_equal. destruct (q_correct_option q =? o); lia.
  - assert (Hend : i + 1 = Z.of_nat (length qs)) by lia.
    destruct (process_answer_commits s0 u t qs i c o q Hact Hq Hend
                (Hok _) (Hok _) Hfk) as (s' & Hrun & Hctx & Hrows).
    destruct (step_answer w u i o _ _ Hst Hrun) as [Hc1 Hd1].
    assert (opts = []) as -> by (destruct opts; [reflexivity | cbn [length] in Hlen; lia]).
    cbn [answer_from run foldl]. rewrite Hc1, Hd1. split; [|exact Hctx].
    rewrite Hrows. cbn [s0 hdb].
    rewrite (matches_drop qs i q o []) by (lia || exact Hq).
    rewrite matches_nil_r. do 3 f_equal. destruct (q_correct_option q =? o); lia.
Qed.

Lemma length_sample_le rnd (db : Database) (topic_id : Z) :
  (length (sample rnd db topic_id) <= 10)%nat.
Proof.
  unfold sample, sql_limit. cbn [Z.ltb Z.compare Z.to_nat].
  rewrite length_take. lia.
Qed.

(** C6.  A registered user starts a test on an available topic with ten
    sampled questions and a free attempt, then answers the questions in
    order.  The ledger gains exactly one row.  Its [max_score] is the number
    of questions sampled by Start, which is 10: [_finish_test] reads the
    list stored in the session and does not ask the database again.  Its
    score is the number of answers that match; so with exactly 7 matching
    answers out of 10 the row has score 7 and [max_score] 10. *)
Theorem committed_score_and_max_score (w : World) (u topic_id : Z) rnd
    (topic : Topic) (opts : list Z) :
  storage_ok (database w) →
  registered (database w) u →
  visible_topic (database w) topic_id = Some topic →
  10 <= Z.of_nat (length (sample rnd (database w) topic_id)) →
  (∀ limit, t_attempt_limit topic = Some limit →
            count_attempts u topic_id (attempts (database w)) < limit) →
  length opts = length (sample rnd (database w) topic_id) →
  let qs := sample rnd (database w) topic_id in
  let w' := run w (Ev_retry u topic_id rnd :: answer_from u 0 opts) in
  ∃ a, attempts (database w') = attempts (database w) ++ [a]
     ∧ a_user_id a = u ∧ a_topic_id a = topic_id
     ∧ a_max_score a = Z.of_nat (length qs)
     ∧ a_max_score a = 10
     ∧ a_score a = matches qs opts
     ∧ (matches qs opts = 7 → a_score a = 7 ∧ a_max_score a = 10).
Proof.
  intros Hok Hreg Hvis Hlen Hgate Hopts qs w'.
  pose proof (length_sample_le rnd (database w) topic_id) as Hle.
  destruct (visible_topic_Some _ _ _ Hvis) as (Hin & _ & Hid).
  pose proof (foreign_keys_ok_intro _ u topic_id topic Hreg Hin Hid) as Hfk.
  destruct (start_succeeds rnd u topic_id
              {| ctx := context_of w u; hdb := database w; sent := [CallbackAck] |}
              topic Hok Hvis Hlen Hgate) as (q0 & _ & Hrun).
  destruct (step_retry w u topic_id rnd _ _ Hrun) as [Hc1 Hd1].
  cbn [ctx hdb] in Hc1, Hd1.
  destruct (run_answers opts (step w (Ev_retry u topic_id rnd)) u topic_id qs 0 0)
    as [Hrows _].
  - rewrite Hc1. apply active_started. exact Hlen.
  - rewrite Hd1. exact Hok.
  - rewrite Hd1. exact Hfk.
  - subst qs. lia.
  - subst w'. cbn [run foldl]. fold (run (step w (Ev_retry u topic_id rnd)) (answer_from u 0 opts)).
    rewrite Hrows, Hd1. eexists. split; [reflexivity|].
    cbn [committed a_user_id a_topic_id a_max_score a_score Z.to_nat drop].
    assert (Hten : Z.of_nat (length qs) = 10) by (subst qs; lia).
    repeat split; try assumption; lia.
Qed.

Lemma committed_score_and_max_score_witness :
  ∃ a, attempts (database (run demo_world
                   (Ev_retry 7 1 id :: answer_from 7 0 demo_answers))) = [a]
     ∧ a_score a = 7 ∧ a_max_score a = 10.
Proof.
  destruct (committed_score_and_max_score demo_world 7 1 id html_basics demo_answers)
    as (a & Hrows & _ & _ & _ & _ & _ & Hseven).
  - intros m. reflexivity.
  - exists {| u_user_id := 7; u_full_name := "Ann"; u_role := "student" |}.
    split; [apply list_elem_of_here | reflexivity].
  - reflexivity.
  - vm_compute. congruence.
  - intros limit [= <-]. reflexivity.
  - reflexivity.
  - exists a. split; [exact Hrows|]. apply Hseven. vm_compute. reflexivity.
Defined.

(** ** The session invariant *)

(** A callback leaves the database alone but for the ledger. *)
Lemma step_database (w : World) (ev : Event) :
  is_callback ev →
  database (step w ev) = database w
  ∨ ∃ rows, database (step w ev) = with_attempts (database w) rows.
Proof.
  intros Hcb. unfold step.
  destruct (route ev _) as [h|] eqn:Hroute; [|left; reflexivity].
  destruct (route_cases _ _ _ Hroute) as [Hh | [Hno _]]; [|contradiction].
  specialize (Hh {| ctx := context_of w (event_user ev); hdb := database w;
                    sent := [] |}).
  destruct (h _) as [r s]. cbn [snd hdb database] in *.
  destruct Hh as [-> | (t & sc & mx & ->)]; [left; reflexivity|].
  right. eexists. reflexivity.
Qed.

(** No update deletes a user, and none touches the topics or the storage
    layer. *)
Lemma step_tables (w : World) (ev : Event) :
  (∀ u, registered (database w) u → registered (database (step w ev)) u)
  ∧ topics (database (step w ev)) = topics (database w)
  ∧ db_fault (database (step w ev)) = db_fault (database w).
Proof.
  unfold step.
  destruct (route ev _) as [h|] eqn:Hroute; [|auto].
  set (s0 := {| ctx := context_of w (event_user ev); hdb := database w;
                sent := [] |}).
  destruct (route_cases _ _ _ Hroute) as [Hh | [_ Hh]]; specialize (Hh s0).
  - destruct (h s0) as [r s]. cbn [snd hdb database] in *.
    destruct Hh as [-> | (t & sc & mx & ->)]; auto.
  - destruct (h s0) as [r s]. cbn [snd hdb database] in *.
    destruct Hh as [(Ht & _ & _ & Hf & Hreg) _]. auto.
Qed.

Lemma session_ok_tables (db db' : Database) (c0 : FSMContext) :
  topics db' = topics db → session_ok db c0 → session_ok db' c0.
Proof. unfold session_ok. intros ->. trivial. Qed.

Lemma session_ok_not_answering (db : Database) (c0 : FSMContext) :
  fsm_state c0 ≠ Some TestState_answering → session_ok db c0.
Proof. intros Hne Hst. contradiction. Qed.

Lemma cmd_test_context (u : Z) (s : HState) :
  ctx (snd (cmd_test u s)) = ctx s
  ∨ fsm_state (ctx (snd (cmd_test u s))) = Some TestState_choosing_topic.
Proof.
  unfold cmd_test, get_user, list_topics. run_handler.
  destruct (db_fault (hdb s) m_get_user); [left; reflexivity|].
  destruct (find _ _); [|left; reflexivity].
  cbn [hdb]. destruct (db_fault (hdb s) m_list_topics); [left; reflexivity|].
  destruct (order_by_title _); [left; reflexivity | right; reflexivity].
Qed.

(** A Start leaves the context as it was, clears it, or creates a session at
    index 0 with count 0 on a topic of the database. *)
Lemma start_context rnd (u topic_id : Z) (s : HState) :
  storage_ok (hdb s) →
  let c1 := ctx (snd (_start_test_for_topic rnd u topic_id s)) in
  c1 = ctx s ∨ c1 = idle
  ∨ ∃ topic qs prior,
      c1 = started topic_id topic qs prior (ctx s)
      ∧ 10 <= Z.of_nat (length qs)
      ∧ topic ∈ topics (hdb s) ∧ t_topic_id topic = topic_id.
Proof.
  intros Hok c1. subst c1.
  destruct (visible_topic (hdb s) topic_id) as [topic|] eqn:Hvis.
  2: { left. rewrite start_topic_unavailable by assumption. reflexivity. }
  destruct (Z.lt_ge_cases (Z.of_nat (length (sample rnd (hdb s) topic_id))) 10)
    as [Hshort|Hlen].
  { left. erewrite start_insufficient by eassumption. reflexivity. }
  set (prior := count_attempts u topic_id (attempts (hdb s))).
  destruct (gate_passes (t_attempt_limit topic) prior) eqn:Hgate.
  - right. right.
    destruct (start_succeeds rnd u topic_id s topic Hok Hvis Hlen) as (q0 & _ & ->).
    { apply gate_passes_spec. exact Hgate. }
    destruct (visible_topic_Some _ _ _ Hvis) as (Hin & _ & Hid).
    exists topic, (sample rnd (hdb s) topic_id), prior. cbn [snd ctx]. auto.
  - right. left. unfold gate_passes in Hgate.
    destruct (t_attempt_limit topic) as [limit|] eqn:Hlim; [|discriminate].
    apply negb_false_iff, Z.leb_le in Hgate.
    erewrite start_limit_exhausted by eassumption. reflexivity.
Qed.

Lemma session_ok_start rnd (u topic_id : Z) (s : HState) :
  storage_ok (hdb s) → session_ok (hdb s) (ctx s) →
  session_ok (hdb s) (ctx (snd (_start_test_for_topic rnd u topic_id s))).
Proof.
  intros Hok Hs.
  destruct (start_context rnd u topic_id s Hok)
    as [-> | [-> | (topic & qs & prior & -> & Hlen & Hin & Hid)]].
  - exact Hs.
  - apply session_ok_not_answering. discriminate.
  - intros _. exists topic_id, qs, 0, 0.
    split; [apply active_started; exact Hlen|]. split; [lia|]. eauto.
Qed.

(** An answer in an active session whose count is at most its index, with
    a ledger that accepts the write, leaves such a session or none. *)
Lemma session_ok_answer (u idx o : Z) (s : HState) :
  storage_ok (hdb s) → registered (hdb s) u → session_ok (hdb s) (ctx s) →
  fsm_state (ctx s) = Some TestState_answering →
  session_ok (hdb s) (ctx (snd (process_answer u idx o s))).
Proof.
  intros Hok Hreg Hs Hst.
  destruct (Hs Hst) as (t & qs & i & c & Hact & Hc & topic & Hin & Hid).
  pose proof Hact as (_ & _ & _ & Hcur & _ & Hi).
  destruct (decide (idx = i)) as [->|Hne].
  2: { rewrite (process_answer_stale u idx o s i) by assumption. exact Hs. }
  destruct (lookup_in_range qs i Hi) as [q Hq].
  destruct (decide (i + 1 < Z.of_nat (length qs))) as [Hlt|Hge].
  - destruct (process_answer_advances s u t qs i c o q Hact Hq Hlt)
      as (s' & -> & _ & Hact' & _). cbn [snd].
    intros _. eexists t, qs, (i + 1), _. split; [exact Hact'|].
    split; [destruct (q_correct_option q =? o); lia | eauto].
  - assert (Hend : i + 1 = Z.of_nat (length qs)) by lia.
    destruct (process_answer_commits s u t qs i c o q Hact Hq Hend
                (Hok _) (Hok _)) as (s' & -> & Hidle & _).
    { eapply foreign_keys_ok_intro; eauto. }
    cbn [snd]. rewrite Hidle. apply session_ok_not_answering. discriminate.
Qed.

Lemma context_of_step_user (w : World) (ev : Event) (h : Handler unit) :
  route ev (fsm_state (context_of w (event_user ev))) = Some h →
  context_of (step w ev) (event_user ev) =
  ctx (snd (h {| ctx := context_of w (event_user ev); hdb := database w;
                 sent := [] |})).
Proof.
  intros Hroute. unfold step. rewrite Hroute.
  destruct (h _) as [r s]. rewrite context_of_insert, decide_True by reflexivity.
  reflexivity.
Qed.

Lemma step_unrouted (w : World) (ev : Event) :
  route ev (fsm_state (context_of w (event_user ev))) = None → step w ev = w.
Proof. intros Hroute. unfold step. rewrite Hroute. reflexivity. Qed.

Lemma world_ok_step (w : World) (ev : Event) :
  world_ok w → registered (database w) (event_user ev) → world_ok (step w ev).
Proof.
  intros [Hok Hs] Hreg.
  destruct (step_tables w ev) as (_ & Htopics & Hfault).
  split; [intros m; rewrite Hfault; apply Hok|].
  intros v. apply (session_ok_tables (database w)); [exact Htopics|].
  destruct (decide (v = event_user ev)) as [->|Hv].
  2: { rewrite context_of_step_other by exact Hv. apply Hs. }
  destruct (route ev (fsm_state (context_of w (event_user ev)))) as [h|] eqn:Hroute.
  2: { rewrite step_unrouted by exact Hroute. apply Hs. }
  rewrite (context_of_step_user w ev h Hroute).
  specialize (Hs (event_user ev)).
  set (s0 := {| ctx := context_of w (event_user ev); hdb := database w;
                sent := [] |}).
  destruct ev as [u m o|u t rnd|u t rnd|u i o]; cbn [route event_user] in *.
  - destruct (decide _) as [Hname|_].
    { injection Hroute as <-.
      destruct (registers_process_full_name u m o s0) as [_ [-> | ->]];
        [exact Hs | apply session_ok_not_answering; discriminate]. }
    destruct (decide _) as [Hask|_].
    { injection Hroute as <-.
      destruct (registers_process_question u m o s0) as [_ [-> | ->]];
        [exact Hs | apply session_ok_not_answering; discriminate]. }
    injection Hroute as <-.
    destruct (cmd_test_context u s0) as [-> | Hch]; [exact Hs|].
    apply session_ok_not_answering. rewrite Hch. discriminate.
  - destruct (decide _); [|discriminate]. injection Hroute as <-.
    apply (session_ok_start rnd u t
             {| ctx := ctx s0; hdb := hdb s0; sent := [CallbackAck] |});
      assumption.
  - injection Hroute as <-.
    apply (session_ok_start rnd u t
             {| ctx := ctx s0; hdb := hdb s0; sent := [CallbackAck] |});
      assumption.
  - destruct (decide _) as [Hst|]; [|discriminate]. injection Hroute as <-.
    apply (session_ok_answer u i o s0); assumption.
Qed.

Lemma registered_step (w : World) (ev : Event) (u : Z) :
  registered (database w) u → registered (database (step w ev)) u.
Proof. apply step_tables. Qed.

(** While the ledger accepts every write, every sequence of updates by
    registered users keeps every session within its bounds: the index is a
    position of the question list and the count is at most the index. *)
Lemma session_invariant_when_storage_works (evs : list Event) :
  ∀ w : World,
    world_ok w →
    Forall (λ ev, registered (database w) (event_user ev)) evs →
    world_ok (run w evs)
    ∧ ∀ u t qs i c, active (context_of (run w evs) u) t qs i c →
        0 <= i < Z.of_nat (length qs) ∧ 0 <= c <= i + 1.
Proof.
  assert (Hbounds : ∀ w, world_ok w →
            ∀ u t qs i c, active (context_of w u) t qs i c →
              0 <= i < Z.of_nat (length qs) ∧ 0 <= c <= i + 1).
  { intros w [_ Hs] u t qs i c Hact.
    pose proof Hact as (Hst & _ & Hqs & Hcur & Hcor & Hi).
    destruct (Hs u Hst) as (t' & qs' & i' & c' & Hact' & Hc & _).
    destruct Hact' as (_ & _ & Hqs' & Hcur' & Hcor' & _).
    assert (i' = i) by congruence. assert (c' = c) by congruence. lia. }
  induction evs as [|ev evs IH]; intros w Hw Hreg; cbn [run foldl].
  - split; [exact Hw | apply Hbounds, Hw].
  - apply Forall_cons in Hreg as [Hev Hevs].
    apply IH.
    + apply world_ok_step; assumption.
    + eapply Forall_impl; [exact Hevs|]. intros ev' H'. apply registered_step, H'.
Qed.

(** C9, at the failing input.  The storage rejects every INSERT into
    [attempts].  The student starts the test and gives ten correct answers;
    the tenth is counted, the commit raises and the session stays at index
    9 with count 10.  The tenth answer is then submitted again: its index
    is still the current one, so it is counted again, and the session holds
    index 9 with count 11, which is more than the index plus one.  When
    the storage works again a third submission commits a score of 12 out
    of 10. *)
Theorem resubmitted_last_answer_is_counted_again :
  let evs := Ev_retry 7 1 id :: answer_from 7 0 demo_all_correct
             ++ [Ev_answer 7 9 3] in
  let w := run demo_world_write_fails evs in
  active (context_of w 7) 1 demo_sample 9 11
  ∧ ¬ (11 <= 9 + 1)
  ∧ logged w = [(7, StorageError 5); (7, StorageError 5)]
  ∧ attempts (database
      (step {| storage := storage w; database := with_fault (database w) no_fault;
               outbox := outbox w; logged := logged w |}
            (Ev_answer 7 9 3)))
    = [{| a_user_id := 7; a_topic_id := 1; a_score := 12; a_max_score := 10;
          a_attempt_number := 1 |}].
Proof.
  intros evs w. split; [demo_active|]. split; [lia|].
  split; vm_compute; reflexivity.
Qed.

(** ** Who writes to the ledger *)

Lemma py_index_Some_bounds {A} (l : list A) (i : Z) (x : A) :
  py_index l i = Some x → - Z.of_nat (length l) <= i < Z.of_nat (length l).
Proof.
  unfold py_index.
  destruct (Z.leb_spec 0 i) as [Ha|Ha],
    (Z.ltb_spec i (Z.of_nat (length l))) as [Hb|Hb]; cbn [andb];
    try (intros _; lia).
  all: destruct (Z.leb_spec (- Z.of_nat (length l)) i) as [Hc|Hc],
    (Z.ltb_spec i 0) as [Hd|Hd];
    cbn [andb]; intros Hx; try discriminate Hx; lia.
Qed.

Lemma process_answer_writes (u i o : Z) (s : HState) :
  hdb (snd (process_answer u i o s)) ≠ hdb s →
  ∃ qs, d_current (fsm_data (ctx s)) = Some i
      ∧ d_questions (fsm_data (ctx s)) = Some qs
      ∧ i + 1 = Z.of_nat (length qs).
Proof.
  unfold process_answer. run_handler.
  destruct (d_current (fsm_data (ctx s))) as [cur|] eqn:Hcur;
    [|intros Hw; destruct Hw; reflexivity].
  destruct (bool_decide_reflect (i ≠ cur)) as [Hne|Heq];
    [intros Hw; destruct Hw; reflexivity|].
  assert (i = cur) as <- by (destruct (decide (i = cur)); [assumption|contradiction]).
  destruct (d_questions (fsm_data (ctx s))) as [qs|] eqn:Hqs;
    [|intros Hw; destruct Hw; reflexivity].
  destruct (py_index qs i) as [q|] eqn:Hq; [|intros Hw; destruct Hw; reflexivity].
  apply py_index_Some_bounds in Hq.
  assert (Hrest : ∀ s1 : HState, hdb s1 = hdb s →
            hdb (snd ((if Z.of_nat (length qs) <=? i + 1 then _finish_test u
                       else update_data (set_current (i + 1));; _send_question) s1))
            ≠ hdb s →
            i + 1 = Z.of_nat (length qs)).
  { intros s1 Hs1. destruct (Z.leb_spec (Z.of_nat (length qs)) (i + 1)) as [Hle|Hgt].
    - intros _. lia.
    - intros Hw. destruct Hw. rewrite <- Hs1.
      apply (read_only_bind (update_data (set_current (i + 1))) (λ _, _send_question)).
      + unfold update_data. repeat read_only_step.
      + intros _. apply read_only_send_question. }
  destruct (q_correct_option q =? o).
  - destruct (d_correct (fsm_data (ctx s))) as [c|];
      [|intros Hw; destruct Hw; reflexivity].
    intros Hw. exists qs. split; [reflexivity|]. split; [reflexivity|].
    eapply Hrest; [|exact Hw]. reflexivity.
  - intros Hw. exists qs. split; [reflexivity|]. split; [reflexivity|].
    eapply Hrest; [|exact Hw]. reflexivity.
Qed.

(** The step of an update that some handler takes. *)
Lemma step_routed (w : World) (ev : Event) (h : Handler unit) :
  route ev (fsm_state (context_of w (event_user ev))) = Some h →
  database (step w ev) =
  hdb (snd (h {| ctx := context_of w (event_user ev); hdb := database w;
                 sent := [] |})).
Proof.
  intros Hroute. unfold step. rewrite Hroute. destruct (h _) as [r s].
  reflexivity.
Qed.

(** An update that changes the ledger is an answer at the current index
    and the last position. *)
Lemma step_writes_ledger (w : World) (ev : Event) :
  attempts (database (step w ev)) ≠ attempts (database w) →
  ∃ u i o qs,
    ev = Ev_answer u i o
    ∧ fsm_state (context_of w u) = Some TestState_answering
    ∧ d_current (fsm_data (context_of w u)) = Some i
    ∧ d_questions (fsm_data (context_of w u)) = Some qs
    ∧ i + 1 = Z.of_nat (length qs).
Proof.
  destruct (route ev (fsm_state (context_of w (event_user ev)))) as [h|] eqn:Hroute.
  2: { rewrite step_unrouted by exact Hroute. intros Hw. destruct Hw. reflexivity. }
  set (s0 := {| ctx := context_of w (event_user ev); hdb := database w;
                sent := [] |}).
  rewrite (step_routed w ev h Hroute). fold s0. intros Hw.
  destruct ev as [u m o|u t rnd|u t rnd|u i o]; cbn [event_user] in *.
  1-3: exfalso; apply Hw;
    destruct (route_cases _ _ _ Hroute) as [Hh | [_ Hh]]; specialize (Hh s0);
    [|destruct Hh as [(_ & _ & Ha & _) _]; exact Ha].
  - cbn [route] in Hroute.
    destruct (decide _) in Hroute;
      [injection Hroute as <-;
       apply (proj1 (registers_process_full_name u m o s0))|].
    destruct (decide _) in Hroute;
      [injection Hroute as <-;
       apply (proj1 (registers_process_question u m o s0))|].
    injection Hroute as <-. rewrite read_only_cmd_test. reflexivity.
  - cbn [route] in Hroute. destruct (decide _); [|discriminate].
    injection Hroute as <-. unfold process_test_topic.
    rewrite (read_only_bind (answer CallbackAck)
               (λ _, _start_test_for_topic rnd u t));
      [reflexivity | auto with handler | intros _; apply read_only_start].
  - cbn [route] in Hroute. injection Hroute as <-. unfold retry_callback.
    rewrite (read_only_bind (answer CallbackAck)
               (λ _, _start_test_for_topic rnd u t));
      [reflexivity | auto with handler | intros _; apply read_only_start].
  - cbn [route] in Hroute. destruct (decide _) as [Hst|]; [|discriminate].
    injection Hroute as <-.
    destruct (process_answer_writes u i o s0) as (qs & Hcur & Hqs & Hlen).
    { intros Heq. apply Hw. rewrite Heq. reflexivity. }
    exists u, i, o, qs. auto.
Qed.

(** ** A failing ledger write *)

(** At the last question, when the INSERT raises [e], the handler raises
    that same [e]; the answer is tallied, nothing else has changed. *)
Lemma process_answer_write_fails (s : HState) (u t : Z) (qs : list Question)
    (i c opt : Z) (q : Question) (e : exn) :
  active (ctx s) t qs i c → qs !! Z.to_nat i = Some q →
  i + 1 = Z.of_nat (length qs) →
  db_fault (hdb s) m_get_attempt_count = None →
  db_fault (hdb s) m_save_attempt = Some e →
  process_answer u i opt s =
  (inl e, {| ctx := tallied q opt c (ctx s); hdb := hdb s;
             sent := sent s ++ [CallbackAck] |}).
Proof.
  intros Hact Hq Hlen Hf1 Hf2.
  destruct (active_tallied q opt c (ctx s) t qs i Hact)
    as (_ & Tt & Tqs & _ & Tcor & _).
  erewrite process_answer_last by eauto.
  eapply finish_test_write_fails; cbn [ctx hdb]; eauto.
Qed.

(** The attempts of a user change only when that user answers. *)
Lemma step_attempts_by (w : World) (ev : Event) (u : Z) :
  (∀ i o, ev ≠ Ev_answer u i o) →
  attempts_by u (attempts (database (step w ev))) =
  attempts_by u (attempts (database w)).
Proof.
  intros Hev. unfold attempts_by.
  destruct (step_ledger w ev) as [-> | (t & sc & mx & Hrows)]; [reflexivity|].
  destruct (step_writes_ledger w ev) as (u' & i & o & qs & -> & _).
  { rewrite Hrows. intros Heq. apply (f_equal length) in Heq.
    rewrite length_app in Heq. cbn [length] in Heq. lia. }
  rewrite Hrows, filter_app, filter_cons_False, filter_nil, app_nil_r;
    [reflexivity|].
  cbn [committed a_user_id event_user]. intros ->. destruct (Hev i o). reflexivity.
Qed.

Lemma run_attempts_by (evs : list Event) (u : Z) :
  ∀ w : World,
    Forall (λ ev, ∀ i o, ev ≠ Ev_answer u i o) evs →
    attempts_by u (attempts (database (run w evs))) =
    attempts_by u (attempts (database w)).
Proof.
  induction evs as [|ev evs IH]; intros w Hevs; cbn [run foldl]; [reflexivity|].
  apply Forall_cons in Hevs as [Hev Hevs]. fold (run (step w ev) evs).
  rewrite IH by exact Hevs. apply step_attempts_by, Hev.
Qed.

(** C7, at the failing input.  The storage rejects every INSERT into
    [attempts].  The student 7 starts the test on topic 1 and gives ten
    correct answers.  The commit of the tenth raises: the exception is
    logged as it was raised, nothing is written and the session is not
    cleared; it stays at index 9 with ten answers counted.  Then the storage
    works again.  The handlers run [_finish_test] from an answer only: no
    sequence of updates in which the student answers no question commits an
    attempt of the student.  And the answer to the tenth question, given
    again, is counted again before the commit: the ledger gets a score of
    11 out of 10, not the 10 out of 10 that the session held when the write
    failed. *)
Theorem finish_is_retried_by_a_new_answer_only :
  let w := run demo_world_write_fails (full_session 7 1 id demo_all_correct) in
  let w' := recovered no_fault w in
  logged w = [(7, StorageError 5)]
  ∧ context_of w 7 = demo_session 9 10
  ∧ attempts (database w) = []
  ∧ (∀ evs, Forall (λ ev, ∀ i o, ev ≠ Ev_answer 7 i o) evs →
       attempts_by 7 (attempts (database (run w' evs))) = [])
  ∧ attempts (database (step w' (Ev_answer 7 9 3))) =
    [{| a_user_id := 7; a_topic_id := 1; a_score := 11; a_max_score := 10;
        a_attempt_number := 1 |}].
Proof.
  intros w w'. split; [vm_compute; reflexivity|].
  split; [vm_compute; reflexivity|]. split; [vm_compute; reflexivity|].
  split; [|vm_compute; reflexivity].
  intros evs Hevs. rewrite (run_attempts_by evs 7 w' Hevs). reflexivity.
Qed.

(** ** Rejected starts *)

(** C8, at the failing input.  The student 7 is answering question 4 of a
    test on topic 1 and presses the retry button of topic 2, which is
    closed.  Start reports that the topic is unavailable and returns: the
    state is still [TestState.answering] with the session as it was, and
    the next answer is counted as before.  The retry button of topic 3,
    whose pool is too small, does the same.  A student in
    [TestState.choosing_topic] who chooses the closed topic stays in
    [TestState.choosing_topic].  The third rejection is different: when the
    limit of topic 1 is used up, the same retry in the same session clears
    the context. *)
Theorem rejected_start_keeps_the_state :
  let w := {| storage := {[ 7 := demo_session 3 2 ]}; database := demo_db;
              outbox := []; logged := [] |} in
  let choosing := {| fsm_state := Some TestState_choosing_topic;
                     fsm_data := empty_data |} in
  let wc := {| storage := {[ 7 := choosing ]}; database := demo_db;
               outbox := []; logged := [] |} in
  let wz := {| storage := {[ 7 := demo_session 3 2 ]}; database := zero_limit_db;
               outbox := []; logged := [] |} in
  outbox (step w (Ev_retry 7 2 id)) = [(7, CallbackAck); (7, TopicUnavailable)]
  ∧ context_of (step w (Ev_retry 7 2 id)) 7 = demo_session 3 2
  ∧ context_of (step (step w (Ev_retry 7 2 id)) (Ev_answer 7 3 1)) 7
    = demo_session 4 3
  ∧ outbox (step w (Ev_retry 7 3 id)) = [(7, CallbackAck); (7, InsufficientQuestions)]
  ∧ context_of (step w (Ev_retry 7 3 id)) 7 = demo_session 3 2
  ∧ fsm_state (demo_session 3 2) = Some TestState_answering
  ∧ outbox (step wc (Ev_take_topic 7 2 id)) = [(7, CallbackAck); (7, TopicUnavailable)]
  ∧ context_of (step wc (Ev_take_topic 7 2 id)) 7 = choosing
  ∧ outbox (step wz (Ev_retry 7 1 id)) = [(7, CallbackAck); (7, LimitExhausted)]
  ∧ context_of (step wz (Ev_retry 7 1 id)) 7 = idle.
Proof. vm_compute. repeat split; reflexivity. Qed.

(** * Further properties of the handlers *)

(** ** Finishing twice *)

Lemma finish_test_no_session (u : Z) (s : HState) :
  d_correct (fsm_data (ctx s)) = None →
  _finish_test u s = (inl (KeyError "correct"), s).
Proof.
  intros Hc. unfold _finish_test. run_handler. rewrite Hc. reflexivity.
Qed.

(** X1.  [_finish_test] cannot commit the same session twice: after a
    successful commit the context is cleared, so a second call raises
    [KeyError] on the key "correct" and leaves the database, the context and
    the messages untouched; the ledger holds exactly one new row. *)
Theorem finish_test_twice_raises (s : HState) (u t : Z) (qs : list Question)
    (i c : Z) :
  active (ctx s) t qs i c →
  db_fault (hdb s) m_get_attempt_count = None →
  db_fault (hdb s) m_save_attempt = None →
  foreign_keys_ok (hdb s) u t = true →
  ∃ s1, _finish_test u s = (inr tt, s1)
      ∧ attempts (hdb s1) =
        attempts (hdb s) ++
        [committed u t c (Z.of_nat (length qs)) (attempts (hdb s))]
      ∧ _finish_test u s1 = (inl (KeyError "correct"), s1).
Proof.
  intros (Hst & Ht & Hqs & Hcur & Hcor & Hi) Hf1 Hf2 Hfk.
  eexists. split; [|split].
  - eapply (finish_test_commits s u t qs c); try assumption.
    intros ->. cbn in Hi. lia.
  - reflexivity.
  - apply finish_test_no_session. reflexivity.
Qed.

Lemma finish_test_twice_raises_witness :
  ∃ s1, _finish_test 7 (demo_hstate (demo_session 9 7) demo_db) = (inr tt, s1)
      ∧ length (attempts (hdb s1)) = 1%nat
      ∧ _finish_test 7 s1 = (inl (KeyError "correct"), s1).
Proof.
  destruct (finish_test_twice_raises (demo_hstate (demo_session 9 7) demo_db)
              7 1 demo_sample 9 7) as (s1 & Hrun & Hrows & Hagain).
  - demo_active.
  - reflexivity.
  - reflexivity.
  - reflexivity.
  - exists s1. split; [exact Hrun|]. split; [|exact Hagain].
    rewrite Hrows. reflexivity.
Defined.

(** ** Who writes to the database *)


(** Both kinds of write occur.  A [/test] with two more words, sent by the
    unregistered user 8 while the bot waits for a full name, registers the
    sender under that text; a bare [/test], sent by the student 7 while the
    bot waits for a question, is stored as a question to the administrator
    1, who gets a row in [users] on that occasion.  Neither reaches
    [cmd_test]. *)
Example test_message_taken_as_name :
  let w := {| storage := {[ 8 := {| fsm_state := Some RegistrationState_waiting_full_name;
                                    fsm_data := empty_data |} ]};
              database := demo_db; outbox := []; logged := [] |} in
  let w' := step w (Ev_cmd_test 8
                      {| stripped_text := "/test Ann Lee"; word_count := 3;
                         from_full_name := "ann" |}
                      {| admin_ids := [1]; io_upsert_user := None;
                         io_record_message := None |}) in
  users (database w') =
    users demo_db ++ [{| u_user_id := 8; u_full_name := "/test Ann Lee";
                         u_role := "student" |}]
  ∧ context_of w' 8 = idle
  ∧ outbox w' = [(8, RegistrationDone)].
Proof. vm_compute. repeat split; reflexivity. Qed.

Example test_message_taken_as_question :
  let w := {| storage := {[ 7 := {| fsm_state := Some QuestionState_awaiting_question;
                                    fsm_data := empty_data |} ]};
              database := demo_db; outbox := []; logged := [] |} in
  let w' := step w (Ev_cmd_test 7
                      {| stripped_text := "/test"; word_count := 1;
                         from_full_name := "ann" |}
                      {| admin_ids := [1]; io_upsert_user := None;
                         io_record_message := None |}) in
  messages (database w') =
    [{| r_message_id := 1; r_from_user_id := 7; r_to_user_id := 1;
        r_text := "/test"; r_is_answered := 0 |}]
  ∧ map u_user_id (users (database w')) = [7; 1]
  ∧ context_of w' 7 = idle
  ∧ outbox w' = [(7, QuestionSent); (7, AdminNotified 1 1 "ann" "/test")].
Proof. vm_compute. repeat split; reflexivity. Qed.

(** ** Tables that the callbacks never touch *)

Lemma run_app (w : World) (evs evs' : list Event) :
  run w (evs ++ evs') = run (run w evs) evs'.
Proof. unfold run. apply foldl_app. Qed.

Lemma step_fixed_tables (w : World) (ev : Event) :
  is_callback ev →
  users (database (step w ev)) = users (database w)
  ∧ topics (database (step w ev)) = topics (database w)
  ∧ questions (database (step w ev)) = questions (database w)
  ∧ db_fault (database (step w ev)) = db_fault (database w).
Proof.
  intros Hcb.
  destruct (step_database w ev Hcb) as [-> | (rows & ->)]; repeat split; reflexivity.
Qed.

Lemma run_fixed_tables (evs : list Event) (w : World) :
  Forall is_callback evs →
  users (database (run w evs)) = users (database w)
  ∧ topics (database (run w evs)) = topics (database w)
  ∧ questions (database (run w evs)) = questions (database w)
  ∧ db_fault (database (run w evs)) = db_fault (database w).
Proof.
  revert w. induction evs as [|ev evs IH]; intros w Hcb; cbn [run foldl].
  - repeat split; reflexivity.
  - apply Forall_cons in Hcb as [Hev Hevs]. fold (run (step w ev) evs).
    destruct (IH (step w ev) Hevs) as (-> & -> & -> & ->).
    apply step_fixed_tables, Hev.
Qed.

Lemma full_session_callbacks (u topic_id : Z) rnd (opts : list Z) :
  Forall is_callback (full_session u topic_id rnd opts).
Proof.
  unfold full_session. apply Forall_cons. split; [exact I|].
  generalize 0. induction opts as [|o opts IH]; intros i; cbn [answer_from].
  - apply Forall_nil_2.
  - apply Forall_cons. split; [exact I | apply IH].
Qed.

(** What a Start reads from the database depends on these tables only. *)
Lemma start_inputs_fixed (db db' : Database) rnd (u topic_id : Z) :
  users db' = users db → topics db' = topics db →
  questions db' = questions db → db_fault db' = db_fault db →
  (storage_ok db → storage_ok db')
  ∧ (registered db u → registered db' u)
  ∧ visible_topic db' topic_id = visible_topic db topic_id
  ∧ sample rnd db' topic_id = sample rnd db topic_id.
Proof.
  intros Hu Ht Hq Hf. unfold storage_ok, registered, visible_topic, sample, pool.
  rewrite Hu, Ht, Hq, Hf. auto.
Qed.

(** A whole test of a registered user on an available topic with a free
    attempt: one row is appended and the context is cleared. *)
Lemma run_full_session (w : World) (u topic_id : Z) rnd (topic : Topic)
    (opts : list Z) :
  storage_ok (database w) →
  registered (database w) u →
  visible_topic (database w) topic_id = Some topic →
  10 <= Z.of_nat (length (sample rnd (database w) topic_id)) →
  (∀ limit, t_attempt_limit topic = Some limit →
            count_attempts u topic_id (attempts (database w)) < limit) →
  length opts = length (sample rnd (database w) topic_id) →
  let qs := sample rnd (database w) topic_id in
  let w' := run w (full_session u topic_id rnd opts) in
  attempts (database w') =
  attempts (database w) ++
  [committed u topic_id (matches qs opts) (Z.of_nat (length qs))
     (attempts (database w))]
  ∧ context_of w' u = idle.
Proof.
  intros Hok Hreg Hvis Hlen Hgate Hopts qs w'.
  destruct (visible_topic_Some _ _ _ Hvis) as (Hin & _ & Hid).
  pose proof (foreign_keys_ok_intro _ u topic_id topic Hreg Hin Hid) as Hfk.
  destruct (start_succeeds rnd u topic_id
              {| ctx := context_of w u; hdb := database w; sent := [CallbackAck] |}
              topic Hok Hvis Hlen Hgate) as (q0 & _ & Hrun).
  destruct (step_retry w u topic_id rnd _ _ Hrun) as [Hc1 Hd1].
  cbn [ctx hdb] in Hc1, Hd1.
  destruct (run_answers opts (step w (Ev_retry u topic_id rnd)) u topic_id qs 0 0)
    as [Hrows Hidle].
  - rewrite Hc1. apply active_started. exact Hlen.
  - rewrite Hd1. exact Hok.
  - rewrite Hd1. exact Hfk.
  - subst qs. lia.
  - subst w'. unfold full_session. cbn [run foldl].
    fold (run (step w (Ev_retry u topic_id rnd)) (answer_from u 0 opts)).
    split; [|exact Hidle]. rewrite Hrows, Hd1. cbn [Z.to_nat drop].
    do 3 f_equal.
Qed.

(** ** Counting completed tests *)

Lemma count_attempts_snoc (u t : Z) (rows : list Attempt) (a : Attempt) :
  count_attempts u t (rows ++ [a]) =
  count_attempts u t rows
  + (if decide (a_user_id a = u ∧ a_topic_id a = t) then 1 else 0).
Proof.
  unfold count_attempts. rewrite filter_app, length_app, filter_cons, filter_nil.
  destruct (decide _); cbn [length]; lia.
Qed.

Lemma count_attempts_nonneg (u t : Z) (rows : list Attempt) :
  0 <= count_attempts u t rows.
Proof. unfold count_attempts. lia. Qed.

(** X3.  A completed test counts once: after a registered user has started
    a test on an available topic with a free attempt and answered its ten
    questions, the number of attempts of that user on that topic is one more
    than before, and the number of attempts of every other user or topic is
    what it was. *)
Theorem completed_session_counts_once (w : World) (u topic_id : Z) rnd
    (topic : Topic) (opts : list Z) :
  storage_ok (database w) →
  registered (database w) u →
  visible_topic (database w) topic_id = Some topic →
  10 <= Z.of_nat (length (sample rnd (database w) topic_id)) →
  (∀ limit, t_attempt_limit topic = Some limit →
            count_attempts u topic_id (attempts (database w)) < limit) →
  length opts = length (sample rnd (database w) topic_id) →
  let w' := run w (full_session u topic_id rnd opts) in
  count_attempts u topic_id (attempts (database w')) =
  count_attempts u topic_id (attempts (database w)) + 1
  ∧ ∀ u' t', u' ≠ u ∨ t' ≠ topic_id →
      count_attempts u' t' (attempts (database w')) =
      count_attempts u' t' (attempts (database w)).
Proof.
  intros Hok Hreg Hvis Hlen Hgate Hopts w'.
  destruct (run_full_session w u topic_id rnd topic opts Hok Hreg Hvis Hlen
              Hgate Hopts) as [Hrows _].
  subst w'. rewrite Hrows. split.
  - rewrite count_attempts_snoc. cbn [committed a_user_id a_topic_id].
    rewrite decide_True by (split; reflexivity). reflexivity.
  - intros u' t' Hother. rewrite count_attempts_snoc.
    cbn [committed a_user_id a_topic_id].
    rewrite decide_False by (intros [-> ->]; destruct Hother; contradiction). lia.
Qed.

Lemma completed_session_counts_once_witness :
  count_attempts 7 1 (attempts (database (run demo_world
                        (full_session 7 1 id demo_answers)))) = 1.
Proof.
  destruct (completed_session_counts_once demo_world 7 1 id html_basics
              demo_answers) as [Hcount _].
  - intros m. reflexivity.
  - exists {| u_user_id := 7; u_full_name := "Ann"; u_role := "student" |}.
    split; [apply list_elem_of_here | reflexivity].
  - reflexivity.
  - vm_compute. congruence.
  - intros limit [= <-]. reflexivity.
  - reflexivity.
  - rewrite Hcount. reflexivity.
Defined.

(** ** The limit, end to end *)

Lemma step_retry_world (w : World) (u t : Z) rnd (r : exn + unit) (s : HState) :
  _start_test_for_topic rnd u t
    {| ctx := context_of w u; hdb := database w; sent := [CallbackAck] |}
  = (r, s) →
  step w (Ev_retry u t rnd) =
  {| storage := <[u := ctx s]> (storage w);
     database := hdb s;
     outbox := outbox w ++ map (pair u) (sent s);
     logged := logged w ++ match r with inl e => [(u, e)] | inr _ => [] end |}.
Proof.
  intros Hrun. unfold step. cbn [event_user route].
  unfold retry_callback. run_handler. cbn [app]. rewrite Hrun. reflexivity.
Qed.

(** X4.  A limit of [limit] attempts allows exactly the attempts that are
    left: when the attempts made plus the tests in [optss] equal the limit,
    every one of these tests is started and committed, the count reaches the
    limit, and the next Start is rejected with the limit-exhausted reason,
    leaving the user idle and the database as it is. *)
Theorem limit_allows_the_remaining_attempts (optss : list (list Z)) :
  ∀ (w : World) (u topic_id : Z) rnd (topic : Topic) (limit : Z),
    storage_ok (database w) →
    registered (database w) u →
    visible_topic (database w) topic_id = Some topic →
    t_attempt_limit topic = Some limit →
    10 <= Z.of_nat (length (sample rnd (database w) topic_id)) →
    Forall (λ opts, length opts = length (sample rnd (database w) topic_id)) optss →
    count_attempts u topic_id (attempts (database w)) + Z.of_nat (length optss)
    = limit →
    let w' := run w (sessions u topic_id rnd optss) in
    let w'' := step w' (Ev_retry u topic_id rnd) in
    count_attempts u topic_id (attempts (database w')) = limit
    ∧ length (attempts (database w')) =
      (length (attempts (database w)) + length optss)%nat
    ∧ context_of w'' u = idle
    ∧ database w'' = database w'
    ∧ outbox w'' = outbox w' ++ [(u, CallbackAck); (u, LimitExhausted)].
Proof.
  induction optss as [|opts optss IH];
    intros w u topic_id rnd topic limit Hok Hreg Hvis Hlim Hlen Hopts Hcount w' w''.
  - cbn [sessions run foldl length] in *. subst w' w''.
    erewrite step_retry_world.
    2: { eapply start_limit_exhausted; cbn [hdb]; eauto. lia. }
    rewrite context_of_insert, decide_True by reflexivity.
    cbn [ctx hdb sent database outbox map app]. repeat split; lia.
  - apply Forall_cons in Hopts as [Hopt Hopts].
    cbn [length] in Hcount.
    destruct (run_full_session w u topic_id rnd topic opts Hok Hreg Hvis Hlen)
      as [Hrows _]; [intros l Hl; assert (l = limit) by congruence; lia | exact Hopt |].
    set (w1 := run w (full_session u topic_id rnd opts)) in *.
    destruct (run_fixed_tables (full_session u topic_id rnd opts) w
                (full_session_callbacks u topic_id rnd opts))
      as (Hu & Ht & Hq & Hf). fold w1 in Hu, Ht, Hq, Hf.
    destruct (start_inputs_fixed (database w) (database w1) rnd u topic_id
                Hu Ht Hq Hf) as (Hok1 & Hreg1 & Hvis1 & Hsample1).
    specialize (IH w1 u topic_id rnd topic limit).
    destruct IH as (Hc & Hl & Hidle & Hdb & Hout).
    + auto.
    + auto.
    + rewrite Hvis1. exact Hvis.
    + exact Hlim.
    + rewrite Hsample1. exact Hlen.
    + rewrite Hsample1. exact Hopts.
    + rewrite Hrows, count_attempts_snoc. cbn [committed a_user_id a_topic_id].
      rewrite decide_True by (split; reflexivity). lia.
    + subst w' w''. cbn [sessions]. rewrite run_app. fold w1.
      split; [exact Hc|]. split; [|auto].
      rewrite Hl, Hrows, length_app. cbn [length]. lia.
Qed.

Lemma limit_allows_the_remaining_attempts_witness :
  let w' := run demo_world (sessions 7 1 id [demo_all_correct; demo_answers]) in
  count_attempts 7 1 (attempts (database w')) = 2
  ∧ context_of (step w' (Ev_retry 7 1 id)) 7 = idle.
Proof.
  destruct (limit_allows_the_remaining_attempts [demo_all_correct; demo_answers]
              demo_world 7 1 id html_basics 2) as (Hc & _ & Hidle & _).
  - intros m. reflexivity.
  - exists {| u_user_id := 7; u_full_name := "Ann"; u_role := "student" |}.
    split; [apply list_elem_of_here | reflexivity].
  - reflexivity.
  - reflexivity.
  - vm_compute. congruence.
  - repeat constructor.
  - reflexivity.
  - split; assumption.
Defined.

(** X5.  A limit that is zero or negative (the administrator may set any
    integer) closes the topic: every Start on it is rejected with the
    limit-exhausted reason, even for a user without any attempt. *)
Theorem start_rejected_when_limit_not_positive rnd (u topic_id : Z) (s : HState)
    (topic : Topic) (limit : Z) :
  storage_ok (hdb s) →
  visible_topic (hdb s) topic_id = Some topic →
  10 <= Z.of_nat (length (sample rnd (hdb s) topic_id)) →
  t_attempt_limit topic = Some limit →
  limit <= 0 →
  _start_test_for_topic rnd u topic_id s =
  (inr tt, {| ctx := idle; hdb := hdb s; sent := sent s ++ [LimitExhausted] |}).
Proof.
  intros Hok Hvis Hlen Hlim Hle.
  eapply start_limit_exhausted; eauto.
  pose proof (count_attempts_nonneg u topic_id (attempts (hdb s))). lia.
Qed.

Lemma start_rejected_when_limit_not_positive_witness :
  _start_test_for_topic id 7 1 (demo_hstate idle zero_limit_db) =
  (inr tt, {| ctx := idle; hdb := zero_limit_db; sent := [LimitExhausted] |}).
Proof.
  apply (start_rejected_when_limit_not_positive id 7 1
           (demo_hstate idle zero_limit_db) zero_limit_topic 0).
  - intros m. reflexivity.
  - reflexivity.
  - vm_compute. congruence.
  - reflexivity.
  - lia.
Defined.

(** ** [/test] while a test is pending *)

Lemma find_registered (db : Database) (u : Z) :
  registered db u → ∃ x, find (λ x, u_user_id x =? u) (users db) = Some x.
Proof.
  intros (x & Hx & Hu).
  destruct (find _ _) as [y|] eqn:Hfind; [eauto|].
  apply list_elem_of_In in Hx.
  pose proof (find_none _ _ Hfind x Hx) as Hnone. cbn in Hnone.
  apply Z.eqb_neq in Hnone. contradiction.
Qed.

Lemma order_by_title_nonempty (l : list Topic) :
  l ≠ [] → order_by_title l ≠ [].
Proof.
  intros Hl Hnil. pose proof (order_by_title_perm l) as Hperm.
  rewrite Hnil in Hperm. apply Permutation_length in Hperm.
  destruct l; [contradiction | discriminate Hperm].
Qed.

(** X6.  [/test] sent by a registered user while some topic is open, unless
    the bot is waiting for that user's full name or question (where the
    message does not reach [cmd_test]), puts the user in
    [TestState.choosing_topic] and keeps the stored data, so a pending test
    is neither finished nor deleted; but from then on every answer callback
    of that user is dropped, whatever its index: nothing is counted, sent or
    written until a new test is started. *)
Theorem test_command_suspends_answers (w : World) (u : Z) (m : Message)
    (o : Outside) :
  storage_ok (database w) →
  registered (database w) u →
  (∃ topic, topic ∈ topics (database w) ∧ t_is_available topic = 1) →
  fsm_state (context_of w u) ≠ Some RegistrationState_waiting_full_name →
  fsm_state (context_of w u) ≠ Some QuestionState_awaiting_question →
  let w1 := step w (Ev_cmd_test u m o) in
  fsm_state (context_of w1 u) = Some TestState_choosing_topic
  ∧ fsm_data (context_of w1 u) = fsm_data (context_of w u)
  ∧ database w1 = database w
  ∧ ∀ i opt, step w1 (Ev_answer u i opt) = w1.
Proof.
  intros Hok Hreg (topic & Hin & Hav) Hname Hask w1.
  destruct (find_registered _ _ Hreg) as [x Hx].
  assert (Hopen : order_by_title
            (filter (λ t, t_is_available t = 1) (topics (database w))) ≠ []).
  { apply order_by_title_nonempty. intros Hnil.
    assert (Ht : topic ∈ filter (λ t, t_is_available t = 1) (topics (database w)))
      by (apply list_elem_of_filter; auto).
    rewrite Hnil in Ht. apply elem_of_nil in Ht. exact Ht. }
  assert (Hstep : context_of w1 u =
                  {| fsm_state := Some TestState_choosing_topic;
                     fsm_data := fsm_data (context_of w u) |}
                  ∧ database w1 = database w).
  { subst w1. unfold step. cbn [event_user route].
    rewrite !decide_False by assumption.
    unfold cmd_test, get_user, list_topics. run_handler.
    rewrite !Hok, Hx. cbn [hdb]. rewrite !Hok.
    destruct (order_by_title _) as [|t0 ts]; [contradiction|].
    cbn [ctx hdb sent]. rewrite context_of_insert, decide_True by reflexivity.
    split; reflexivity. }
  destruct Hstep as [Hctx Hdb].
  rewrite Hctx. cbn [fsm_state fsm_data]. repeat split; try assumption.
  intros i opt. apply step_unrouted. cbn [event_user route]. rewrite Hctx.
  cbn [fsm_state]. rewrite decide_False by discriminate. reflexivity.
Qed.

Lemma test_command_suspends_answers_witness :
  let w := {| storage := {[ 7 := demo_session 3 2 ]}; database := demo_db;
              outbox := []; logged := [] |} in
  let ev := Ev_cmd_test 7 {| stripped_text := "/test"; word_count := 1;
                             from_full_name := "ann" |}
              {| admin_ids := [1]; io_upsert_user := None;
                 io_record_message := None |} in
  d_current (fsm_data (context_of (step w ev) 7)) = Some 3
  ∧ step (step w ev) (Ev_answer 7 3 1) = step w ev.
Proof.
  intros w ev.
  destruct (test_command_suspends_answers w 7
              {| stripped_text := "/test"; word_count := 1;
                 from_full_name := "ann" |}
              {| admin_ids := [1]; io_upsert_user := None;
                 io_record_message := None |}) as (_ & Hdata & _ & Hdrop).
  - intros meth. reflexivity.
  - exists {| u_user_id := 7; u_full_name := "Ann"; u_role := "student" |}.
    split; [apply list_elem_of_here | reflexivity].
  - exists html_basics. split; [apply list_elem_of_here | reflexivity].
  - vm_compute. discriminate.
  - vm_compute. discriminate.
  - subst ev. split; [rewrite Hdata; reflexivity | apply Hdrop].
Defined.

(** ** Buttons and options *)

(** X7.  The message for the current question carries four buttons, each
    tagged with the current index and an option number from 1 to 4.  Every
    one of them is accepted as an answer to the current question, and it is
    counted as correct exactly when its option number is the question's
    [correct_option]: before the last question the session moves on with
    the count raised or kept accordingly, at the last question that count
    is the committed score.  Exactly one of the four buttons is the correct
    one. *)
Theorem buttons_select_options (s : HState) (u t : Z) (qs : list Question)
    (i c : Z) (q : Question) :
  active (ctx s) t qs i c → qs !! Z.to_nat i = Some q →
  check_correct_option q →
  ∃ msg,
    _send_question s =
    (inr tt, {| ctx := ctx s; hdb := hdb s; sent := sent s ++ [msg] |})
    ∧ length (buttons_of msg) = 4%nat
    ∧ length (filter (λ b, b.2 = q_correct_option q) (buttons_of msg)) = 1%nat
    ∧ ∀ label idx opt, (label, idx, opt) ∈ buttons_of msg →
        let c' := if bool_decide (opt = q_correct_option q) then c + 1 else c in
        idx = i ∧ 1 <= opt <= 4
        ∧ (i + 1 < Z.of_nat (length qs) →
             ∃ s', process_answer u idx opt s = (inr tt, s')
                 ∧ active (ctx s') t qs (i + 1) c')
        ∧ (i + 1 = Z.of_nat (length qs) →
             db_fault (hdb s) m_get_attempt_count = None →
             db_fault (hdb s) m_save_attempt = None →
             foreign_keys_ok (hdb s) u t = true →
             ∃ s', process_answer u idx opt s = (inr tt, s')
                 ∧ attempts (hdb s') =
                   attempts (hdb s) ++
                   [committed u t c' (Z.of_nat (length qs)) (attempts (hdb s))]).
Proof.
  intros Hact Hq Hchk.
  pose proof Hact as (Hst & Ht & Hqs & Hcur & Hcor & Hi).
  exists (presented i q). split; [eapply send_question_ok; eauto|].
  split; [reflexivity|]. split.
  { unfold check_correct_option in Hchk.
    assert (Hcases : q_correct_option q = 1 ∨ q_correct_option q = 2
                     ∨ q_correct_option q = 3 ∨ q_correct_option q = 4) by lia.
    cbn [presented buttons_of].
    destruct Hcases as [-> | [-> | [-> | ->]]]; reflexivity. }
  intros label idx opt Hb c'. cbn [presented buttons_of] in Hb.
  assert (Hidx : idx = i ∧ 1 <= opt <= 4).
  { rewrite !elem_of_cons, elem_of_nil in Hb.
    destruct Hb as [Hb | [Hb | [Hb | [Hb | []]]]]; injection Hb as -> -> ->; lia. }
  destruct Hidx as [-> Hopt]. split; [reflexivity|]. split; [exact Hopt|].
  assert (Hc' : (if q_correct_option q =? opt then c + 1 else c) = c').
  { subst c'. destruct (Z.eqb_spec (q_correct_option q) opt) as [Heq|Hne].
    - rewrite bool_decide_eq_true_2 by congruence. reflexivity.
    - rewrite bool_decide_eq_false_2 by congruence. reflexivity. }
  split.
  - intros Hlen.
    destruct (process_answer_advances s u t qs i c opt q Hact Hq Hlen)
      as (s' & Hrun & _ & Hact' & _).
    exists s'. rewrite <- Hc'. split; assumption.
  - intros Hlen Hf1 Hf2 Hfk.
    destruct (process_answer_commits s u t qs i c opt q Hact Hq Hlen Hf1 Hf2 Hfk)
      as (s' & Hrun & _ & Hrows).
    exists s'. rewrite <- Hc'. split; assumption.
Qed.

Lemma buttons_select_options_witness :
  ∃ s', process_answer 7 0 2 (demo_hstate (demo_session 0 0) demo_db) = (inr tt, s')
      ∧ active (ctx s') 1 demo_sample 1 1.
Proof.
  destruct (buttons_select_options (demo_hstate (demo_session 0 0) demo_db)
              7 1 demo_sample 0 0 (mk_question 1 1 2)) as (msg & Hsend & _ & _ & Hb).
  - demo_active.
  - reflexivity.
  - split; vm_compute; congruence.
  - injection Hsend as <-.
    destruct (Hb "B" 0 2) as (_ & _ & Hnext & _).
    + cbn. rewrite !elem_of_cons. tauto.
    + apply Hnext. vm_compute. reflexivity.
Defined.

(** * Properties of the administrator's database methods *)

(** ** Topics *)

Lemma next_rowid_gt (ids : list Z) (x : Z) : x ∈ ids → x < next_rowid ids.
Proof.
  unfold next_rowid. induction ids as [|y ids IH]; intros Hx.
  - apply elem_of_nil in Hx. destruct Hx.
  - apply elem_of_cons in Hx as [->|Hx]; cbn [foldr]; [lia|].
    specialize (IH Hx). lia.
Qed.

Lemma existsb_title_false (title : string) (rows : list Topic) :
  existsb (λ t, String.eqb (t_title t) title) rows = false ↔
  ∀ t, t ∈ rows → t_title t ≠ title.
Proof.
  split.
  - intros Hex t Hin Heq.
    assert (Htrue : existsb (λ t, String.eqb (t_title t) title) rows = true).
    { apply existsb_exists. exists t. split; [apply list_elem_of_In, Hin|].
      apply String.eqb_eq, Heq. }
    congruence.
  - intros Hall. destruct (existsb _ _) eqn:Hex; [|reflexivity].
    apply existsb_exists in Hex as (t & Hin & Heq).
    apply String.eqb_eq in Heq. apply list_elem_of_In in Hin.
    destruct (Hall t Hin Heq).
Qed.

Lemma visible_topic_snoc_hidden (db : Database) (row : Topic) (tid : Z) :
  t_is_available row ≠ 1 →
  visible_topic (with_topics db (topics db ++ [row])) tid = visible_topic db tid.
Proof.
  intros Hrow. unfold visible_topic. cbn [topics with_topics].
  rewrite filter_app, filter_cons, filter_nil.
  rewrite decide_False by exact Hrow. rewrite app_nil_r. reflexivity.
Qed.

(** X8.  A topic added under a title that is not yet in use gets an id
    above every existing id and is stored closed.  Nothing changes for the
    students: Start finds exactly the topics it found before, and does not
    find the new one until it is opened. *)
Theorem new_topic_is_hidden (strip : string -> string) (title : string)
    (limit : option Z) (s : HState) :
  (∀ t, t ∈ topics (hdb s) → t_title t ≠ strip title) →
  let new_id := next_rowid (map t_topic_id (topics (hdb s))) in
  let row := {| t_topic_id := new_id; t_title := strip title;
                t_is_available := 0; t_attempt_limit := limit |} in
  let s' := {| ctx := ctx s; hdb := with_topics (hdb s) (topics (hdb s) ++ [row]);
               sent := sent s |} in
  add_topic None strip title limit s = (inr new_id, s')
  ∧ (∀ t, t ∈ topics (hdb s) → t_topic_id t < new_id)
  ∧ (∀ tid, visible_topic (hdb s') tid = visible_topic (hdb s) tid)
  ∧ visible_topic (hdb s') new_id = None.
Proof.
  intros Hfresh new_id row s'.
  assert (Hids : ∀ t, t ∈ topics (hdb s) → t_topic_id t < new_id).
  { intros t Hin. apply next_rowid_gt, list_elem_of_fmap. eauto. }
  assert (Hvis : ∀ tid, visible_topic (hdb s') tid = visible_topic (hdb s) tid).
  { intros tid. apply visible_topic_snoc_hidden. discriminate. }
  split; [|split; [exact Hids|split; [exact Hvis|]]].
  - unfold add_topic, connect_io. run_handler.
    rewrite (proj2 (existsb_title_false _ _) Hfresh). reflexivity.
  - rewrite Hvis. apply visible_topic_None. intros t Hin _ Hid.
    specialize (Hids t Hin). lia.
Qed.

Lemma new_topic_is_hidden_witness :
  fst (add_topic None id "Tables" (Some 1) (demo_hstate idle demo_db)) = inr 4
  ∧ visible_topic
      (hdb (snd (add_topic None id "Tables" (Some 1) (demo_hstate idle demo_db)))) 4
    = None.
Proof.
  destruct (new_topic_is_hidden id "Tables" (Some 1) (demo_hstate idle demo_db))
    as (Hrun & _ & _ & Hnew).
  - intros t Hin. cbn in Hin. rewrite !elem_of_cons, elem_of_nil in Hin.
    destruct Hin as [-> | [-> | [-> | []]]]; discriminate.
  - rewrite Hrun. split; [reflexivity | exact Hnew].
Defined.

(** X9.  [add_topic] keeps the keys of [topics] unique.  A title that is
    already in use, once stripped, is refused: the method raises
    [IntegrityError] and the database is as it was.  And whatever happens,
    the storage layer failing included, a table in which no id and no title
    occurs twice is still such a table afterwards. *)
Theorem add_topic_keeps_keys_unique (io : option exn) (strip : string -> string)
    (title : string) (limit : option Z) (s : HState) :
  topic_ids_unique (hdb s) →
  NoDup (t_title <$> topics (hdb s)) →
  let s' := snd (add_topic io strip title limit s) in
  topic_ids_unique (hdb s')
  ∧ NoDup (t_title <$> topics (hdb s'))
  ∧ ∀ t, t ∈ topics (hdb s) → t_title t = strip title →
      add_topic None strip title limit s = (inl IntegrityError, s).
Proof.
  intros Hids Htitles s'. split; [|split].
  - subst s'. unfold add_topic, connect_io. run_handler.
    destruct io as [e|]; [exact Hids|].
    destruct (existsb _ _) eqn:Hex; [exact Hids|].
    unfold topic_ids_unique. cbn [snd hdb topics with_topics].
    change (map t_topic_id ?l) with (t_topic_id <$> l).
    rewrite fmap_app. apply NoDup_app. split; [exact Hids|].
    split; [|apply NoDup_singleton].
    intros x Hx Hnew. cbn in Hnew. apply list_elem_of_singleton in Hnew.
    pose proof (next_rowid_gt _ _ Hx) as Hlt.
    change (t_topic_id <$> topics (hdb s)) with (map t_topic_id (topics (hdb s)))
      in Hlt.
    lia.
  - subst s'. unfold add_topic, connect_io. run_handler.
    destruct io as [e|]; [exact Htitles|].
    destruct (existsb _ _) eqn:Hex; [exact Htitles|].
    cbn [snd hdb topics with_topics].
    rewrite fmap_app. apply NoDup_app. split; [exact Htitles|].
    split; [|apply NoDup_singleton].
    intros x Hx Hnew. cbn in Hnew. apply list_elem_of_singleton in Hnew.
    apply list_elem_of_fmap in Hx as (t & -> & Ht).
    exact (proj1 (existsb_title_false _ _) Hex t Ht Hnew).
  - intros t Hin Htitle. unfold add_topic, connect_io. run_handler.
    destruct (existsb _ _) eqn:Hex; [reflexivity|].
    destruct (proj1 (existsb_title_false _ _) Hex t Hin Htitle).
Qed.

Lemma add_topic_keeps_keys_unique_witness :
  add_topic None id "CSS" None (demo_hstate idle demo_db) =
  (inl IntegrityError, demo_hstate idle demo_db).
Proof.
  destruct (add_topic_keeps_keys_unique None id "CSS" None
              (demo_hstate idle demo_db)) as (_ & _ & Hdup).
  - unfold topic_ids_unique. apply (bool_decide_unpack _). vm_compute. exact I.
  - apply (bool_decide_unpack _). vm_compute. exact I.
  - apply (Hdup hidden_topic); [|reflexivity].
    cbn. rewrite !elem_of_cons. tauto.
Defined.

Lemma NoDup_fmap_eq {A B} (f : A → B) (l : list A) (x y : A) :
  NoDup (f <$> l) → x ∈ l → y ∈ l → f x = f y → x = y.
Proof.
  induction l as [|z l IH]; intros Hnd Hx Hy Hf.
  - apply elem_of_nil in Hx. destruct Hx.
  - rewrite fmap_cons in Hnd. apply NoDup_cons in Hnd as [Hz Hnd].
    apply elem_of_cons in Hx as [->|Hx]; apply elem_of_cons in Hy as [->|Hy].
    + reflexivity.
    + destruct Hz. rewrite Hf. apply list_elem_of_fmap. eauto.
    + destruct Hz. rewrite <- Hf. apply list_elem_of_fmap. eauto.
    + apply IH; assumption.
Qed.

(** With unique ids, Start finds a topic exactly when it is an available
    row with the requested id. *)
Lemma visible_topic_unique (db : Database) (x : Topic) :
  topic_ids_unique db → x ∈ topics db → t_is_available x = 1 →
  visible_topic db (t_topic_id x) = Some x.
Proof.
  intros Hnd Hin Hav.
  destruct (visible_topic db (t_topic_id x)) as [y|] eqn:Hvis.
  - destruct (visible_topic_Some _ _ _ Hvis) as (Hy & _ & Hid).
    f_equal. eapply (NoDup_fmap_eq t_topic_id); eauto.
  - destruct (proj1 (visible_topic_None _ _) Hvis x Hin Hav). reflexivity.
Qed.

Lemma visible_topic_ext (db db' : Database) (tid : Z) :
  topic_ids_unique db → topic_ids_unique db' →
  (∀ x, t_topic_id x = tid → t_is_available x = 1 →
        (x ∈ topics db ↔ x ∈ topics db')) →
  visible_topic db' tid = visible_topic db tid.
Proof.
  intros Hnd Hnd' Hsame.
  destruct (visible_topic db tid) as [x|] eqn:Hvis.
  - destruct (visible_topic_Some _ _ _ Hvis) as (Hin & Hav & Hid).
    rewrite <- Hid. apply visible_topic_unique; [assumption| |assumption].
    apply Hsame; assumption.
  - apply visible_topic_None. intros x Hin Hav Hid.
    destruct (proj1 (visible_topic_None _ _) Hvis x); try assumption.
    apply Hsame; assumption.
Qed.

(** The rows of [topics] after [UPDATE topics SET ... WHERE topic_id = ?]. *)
Lemma elem_of_updated_topics (upd : Topic → Topic) (tid : Z) (rows : list Topic)
    (x : Topic) :
  x ∈ map (λ t, if t_topic_id t =? tid then upd t else t) rows ↔
  (∃ y, y ∈ rows ∧ t_topic_id y = tid ∧ x = upd y)
  ∨ (x ∈ rows ∧ t_topic_id x ≠ tid).
Proof.
  change (map ?f rows) with (f <$> rows). rewrite list_elem_of_fmap. split.
  - intros (y & -> & Hy). destruct (Z.eqb_spec (t_topic_id y) tid); eauto.
  - intros [(y & Hy & Hid & ->) | [Hx Hne]].
    + exists y. rewrite (proj2 (Z.eqb_eq _ _) Hid). auto.
    + exists x. rewrite (proj2 (Z.eqb_neq _ _) Hne). auto.
Qed.

Lemma updated_topic_ids (upd : Topic → Topic) (tid : Z) (rows : list Topic) :
  (∀ t, t_topic_id (upd t) = t_topic_id t) →
  map t_topic_id (map (λ t, if t_topic_id t =? tid then upd t else t) rows)
  = map t_topic_id rows.
Proof.
  intros Hupd. rewrite map_map. apply map_ext. intros t.
  destruct (t_topic_id t =? tid); [apply Hupd | reflexivity].
Qed.

(** X10.  Opening and closing decide what the students can start.  With
    unique topic ids, after [set_topic_availability(topic_id, True)] Start
    finds the topic, with its title and limit as they were; after
    [set_topic_availability(topic_id, False)] Start no longer finds it.
    Either way every other topic is found or not found as before. *)
Theorem availability_controls_visibility (s : HState) (tid : Z) (topic : Topic)
    (open : bool) :
  topic_ids_unique (hdb s) → topic ∈ topics (hdb s) → t_topic_id topic = tid →
  ∃ s', set_topic_availability None tid open s = (inr tt, s')
      ∧ ctx s' = ctx s
      ∧ visible_topic (hdb s') tid =
        (if open then
           Some {| t_topic_id := tid; t_title := t_title topic;
                   t_is_available := 1;
                   t_attempt_limit := t_attempt_limit topic |}
         else None)
      ∧ ∀ other, other ≠ tid →
          visible_topic (hdb s') other = visible_topic (hdb s) other.
Proof.
  intros Hnd Hin Hid.
  set (upd := λ t, {| t_topic_id := t_topic_id t; t_title := t_title t;
                      t_is_available := if open then 1 else 0;
                      t_attempt_limit := t_attempt_limit t |}).
  set (rows' := map (λ t, if t_topic_id t =? tid then upd t else t)
                  (topics (hdb s))).
  exists {| ctx := ctx s; hdb := with_topics (hdb s) rows'; sent := sent s |}.
  assert (Hnd' : topic_ids_unique (with_topics (hdb s) rows')).
  { unfold topic_ids_unique. cbn [topics with_topics]. subst rows'.
    rewrite updated_topic_ids by reflexivity. exact Hnd. }
  split; [reflexivity|]. split; [reflexivity|]. cbn [hdb]. split.
  - destruct open.
    + rewrite <- Hid.
      apply (visible_topic_unique (with_topics (hdb s) rows') (upd topic) Hnd');
        [|reflexivity].
      cbn [topics with_topics]. apply elem_of_updated_topics. left.
      exists topic. auto.
    + apply visible_topic_None. cbn [topics with_topics].
      intros x Hx Hav Hxid. apply elem_of_updated_topics in Hx
        as [(y & _ & _ & ->) | [_ Hne]]; [discriminate Hav | contradiction].
  - intros other Hother. apply visible_topic_ext; [assumption..|].
    intros x Hxid Hav. cbn [topics with_topics]. subst rows'.
    rewrite elem_of_updated_topics. split.
    + intros Hx. right. split; [exact Hx | congruence].
    + intros [(y & Hy & Hyid & ->) | [Hx _]]; [|exact Hx].
      cbn in Hxid. congruence.
Qed.

Lemma availability_controls_visibility_witness :
  visible_topic
    (hdb (snd (set_topic_availability None 2 true (demo_hstate idle demo_db)))) 2
  = Some {| t_topic_id := 2; t_title := "CSS"; t_is_available := 1;
            t_attempt_limit := None |}.
Proof.
  destruct (availability_controls_visibility (demo_hstate idle demo_db) 2
              hidden_topic true) as (s' & Hrun & _ & Hvis & _).
  - unfold topic_ids_unique. apply (bool_decide_unpack _). vm_compute. exact I.
  - cbn. rewrite !elem_of_cons. tauto.
  - reflexivity.
  - rewrite Hrun. exact Hvis.
Defined.

(** X11.  Start enforces the limit that the administrator has set.  After
    [set_topic_attempt_limit(topic_id, limit)] whichever row Start finds for
    that id carries [limit]; so, for an available topic with ten sampled
    questions, Start creates the session when [limit] is null or above the
    number of attempts made, and otherwise rejects with the limit-exhausted
    reason. *)
Theorem start_enforces_the_limit_set (s : HState) (tid : Z) (limit : option Z)
    rnd (u : Z) (topic : Topic) :
  let s1 := snd (set_topic_attempt_limit None tid limit s) in
  storage_ok (hdb s) →
  visible_topic (hdb s1) tid = Some topic →
  10 <= Z.of_nat (length (sample rnd (hdb s1) tid)) →
  let prior := count_attempts u tid (attempts (hdb s1)) in
  let r := _start_test_for_topic rnd u tid s1 in
  t_attempt_limit topic = limit
  ∧ prior = count_attempts u tid (attempts (hdb s))
  ∧ (gate_passes limit prior = true →
       fst r = inr tt ∧ active (ctx (snd r)) tid (sample rnd (hdb s1) tid) 0 0)
  ∧ (gate_passes limit prior = false →
       r = (inr tt, {| ctx := idle; hdb := hdb s1;
                       sent := sent s1 ++ [LimitExhausted] |})).
Proof.
  intros s1 Hok Hvis Hlen prior r.
  assert (Hok1 : storage_ok (hdb s1)) by exact Hok.
  assert (Hlim : t_attempt_limit topic = limit).
  { destruct (visible_topic_Some _ _ _ Hvis) as (Hin & _ & Hid).
    cbn [s1 set_topic_attempt_limit connect_io] in Hin.
    unfold set_topic_attempt_limit, connect_io in Hin. run_handler.
    cbn [snd hdb topics with_topics] in Hin.
    apply elem_of_updated_topics in Hin as [(y & _ & _ & ->) | [_ Hne]];
      [reflexivity | contradiction]. }
  split; [exact Hlim|]. split; [reflexivity|]. split.
  - intros Hpass.
    destruct (start_succeeds rnd u tid s1 topic Hok1 Hvis Hlen) as (q0 & _ & Hrun).
    { apply gate_passes_spec. rewrite Hlim. exact Hpass. }
    subst r. rewrite Hrun. cbn [fst snd ctx].
    split; [reflexivity | apply active_started; exact Hlen].
  - unfold gate_passes. destruct limit as [l|]; [|discriminate].
    rewrite negb_false_iff, Z.leb_le. intros Hle.
    eapply start_limit_exhausted; eauto.
Qed.

Lemma start_enforces_the_limit_set_witness :
  let s1 := snd (set_topic_attempt_limit None 1 (Some 0) (demo_hstate idle demo_db)) in
  _start_test_for_topic id 7 1 s1 =
  (inr tt, {| ctx := idle; hdb := hdb s1; sent := [LimitExhausted] |}).
Proof.
  intros s1.
  destruct (start_enforces_the_limit_set (demo_hstate idle demo_db) 1 (Some 0)
              id 7 zero_limit_topic) as (_ & _ & _ & Hrej).
  - intros m. reflexivity.
  - reflexivity.
  - vm_compute. congruence.
  - apply Hrej. reflexivity.
Defined.

(** ** Questions *)

Lemma question_rows_spec (next topic_id : Z) (payloads : list QuestionPayload) :
  length (question_rows next topic_id payloads) = length payloads
  ∧ ∀ q, q ∈ question_rows next topic_id payloads →
      q_topic_id q = topic_id
      ∧ next <= q_question_id q
      ∧ ∃ p, p ∈ payloads ∧ q_correct_option q = p_correct_option p.
Proof.
  revert next. induction payloads as [|p payloads IH]; intros next;
    cbn [question_rows length].
  - split; [reflexivity|]. intros q Hq. apply elem_of_nil in Hq. destruct Hq.
  - destruct (IH (next + 1)) as [Hlen Hrows]. split; [lia|].
    intros q Hq. apply elem_of_cons in Hq as [->|Hq].
    + cbn. split; [reflexivity|]. split; [lia|]. exists p.
      split; [apply list_elem_of_here | reflexivity].
    + destruct (Hrows q Hq) as (Ht & Hid & p' & Hp' & Hc).
      split; [exact Ht|]. split; [lia|]. exists p'.
      split; [apply list_elem_of_further, Hp' | exact Hc].
Qed.

Lemma forallb_question_row_ok (db : Database) (tid : Z)
    (payloads : list QuestionPayload) :
  forallb (question_row_ok db tid) payloads = true ↔
  Forall (λ p, 1 <= p_correct_option p <= 4) payloads
  ∧ (payloads = [] ∨ ∃ t, t ∈ topics db ∧ t_topic_id t = tid).
Proof.
  assert (Hfk : existsb (λ t, t_topic_id t =? tid) (topics db) = true ↔
                ∃ t, t ∈ topics db ∧ t_topic_id t = tid).
  { rewrite existsb_exists. split; intros (t & Hin & Hid); exists t.
    - split; [apply list_elem_of_In, Hin | apply Z.eqb_eq, Hid].
    - split; [apply list_elem_of_In, Hin | apply Z.eqb_eq, Hid]. }
  rewrite forallb_forall, Forall_forall. unfold question_row_ok. split.
  - intros Hall. split.
    + intros p Hp. apply list_elem_of_In in Hp. specialize (Hall p Hp).
      apply andb_true_iff in Hall as [Hrange _].
      apply andb_true_iff in Hrange as [H1 H4]. lia.
    + destruct payloads as [|p payloads]; [left; reflexivity|right].
      specialize (Hall p (or_introl eq_refl)).
      apply andb_true_iff in Hall as [_ Hex]. apply Hfk, Hex.
  - intros [Hrange Htopic] p Hp.
    assert (Hex : ∃ t, t ∈ topics db ∧ t_topic_id t = tid).
    { destruct Htopic as [->|Ht]; [destruct Hp | exact Ht]. }
    apply list_elem_of_In in Hp. specialize (Hrange p Hp).
    rewrite (proj2 Hfk Hex), andb_true_r. apply andb_true_iff. lia.
Qed.

Lemma filter_all {A} (P : A → Prop) `{∀ x, Decision (P x)} (l : list A) :
  Forall P l → filter P l = l.
Proof.
  induction 1 as [|x l Hx _ IH]; [reflexivity|].
  rewrite filter_cons_True by exact Hx. f_equal. exact IH.
Qed.

Lemma filter_none {A} (P : A → Prop) `{∀ x, Decision (P x)} (l : list A) :
  Forall (λ x, ¬ P x) l → filter P l = [].
Proof.
  induction 1 as [|x l Hx _ IH]; [reflexivity|].
  rewrite filter_cons_False by exact Hx. exact IH.
Qed.

(** The state after a well-formed upload for an existing topic. *)
Lemma add_questions_rows (s : HState) (tid : Z) (payloads : list QuestionPayload)
    (t : Topic) :
  Forall (λ p, 1 <= p_correct_option p <= 4) payloads →
  t ∈ topics (hdb s) → t_topic_id t = tid →
  ∃ rows,
    snd (add_questions None tid payloads s) =
      {| ctx := ctx s; hdb := with_questions (hdb s) (questions (hdb s) ++ rows);
         sent := sent s |}
    ∧ length rows = length payloads
    ∧ pool (with_questions (hdb s) (questions (hdb s) ++ rows)) tid
      = pool (hdb s) tid ++ rows.
Proof.
  intros Hrange Hin Hid.
  set (next := next_rowid (map q_question_id (questions (hdb s)))).
  exists (question_rows next tid payloads).
  destruct (question_rows_spec next tid payloads) as [Hlen Hrows].
  split; [|split; [exact Hlen|]].
  - unfold add_questions, connect_io. run_handler.
    rewrite (proj2 (forallb_question_row_ok (hdb s) tid payloads)) by eauto.
    reflexivity.
  - unfold pool. cbn [questions with_questions]. rewrite filter_app. f_equal.
    apply filter_all. apply Forall_forall. intros q Hq. apply Hrows, Hq.
Qed.

(** The row stored for each payload: its position decides the id, every
    other column is the payload's. *)
Lemma question_rows_lookup (next topic_id : Z) (payloads : list QuestionPayload)
    (k : nat) (p : QuestionPayload) :
  payloads !! k = Some p →
  question_rows next topic_id payloads !! k =
  Some {| q_question_id := next + Z.of_nat k; q_topic_id := topic_id;
          q_text := p_text p; q_option1 := p_option1 p;
          q_option2 := p_option2 p; q_option3 := p_option3 p;
          q_option4 := p_option4 p; q_correct_option := p_correct_option p |}.
Proof.
  revert next k. induction payloads as [|p0 payloads IH]; intros next k Hk;
    [discriminate Hk|].
  destruct k as [|k]; cbn [question_rows lookup list_lookup] in *.
  - injection Hk as ->. rewrite Z.add_0_r. reflexivity.
  - etrans; [exact (IH (next + 1) k Hk)|]. do 2 f_equal. lia.
Qed.

(** X12.  An upload whose rows all have a correct option from 1 to 4, for a
    topic that exists, is stored whole: the method returns the number of
    rows and only the table [questions] changes, by the new rows at its
    end.  The k-th new row carries the text, the four options in their
    order and the correct option of the k-th payload, the topic id, and the
    id that follows the largest id of the table by k + 1, which no old row
    has.  So the pool of that topic grows by exactly these rows in order,
    the pool of every other topic is unchanged, and the FSM context is not
    touched. *)
Theorem add_questions_extends_the_pool (s : HState) (tid : Z)
    (payloads : list QuestionPayload) (t : Topic) :
  Forall (λ p, 1 <= p_correct_option p <= 4) payloads →
  t ∈ topics (hdb s) → t_topic_id t = tid →
  ∃ s' rows,
    add_questions None tid payloads s = (inr (Z.of_nat (length payloads)), s')
    ∧ ctx s' = ctx s
    ∧ hdb s' = with_questions (hdb s) (questions (hdb s) ++ rows)
    ∧ length rows = length payloads
    ∧ (∀ k p, payloads !! k = Some p →
         rows !! k =
         Some {| q_question_id :=
                   next_rowid (map q_question_id (questions (hdb s))) + Z.of_nat k;
                 q_topic_id := tid; q_text := p_text p;
                 q_option1 := p_option1 p; q_option2 := p_option2 p;
                 q_option3 := p_option3 p; q_option4 := p_option4 p;
                 q_correct_option := p_correct_option p |})
    ∧ (∀ q q', q ∈ rows → q' ∈ questions (hdb s) →
         q_question_id q ≠ q_question_id q')
    ∧ p_correct_option <$> payloads = q_correct_option <$> rows
    ∧ pool (hdb s') tid = pool (hdb s) tid ++ rows
    ∧ ∀ other, other ≠ tid → pool (hdb s') other = pool (hdb s) other.
Proof.
  intros Hrange Hin Hid.
  set (next := next_rowid (map q_question_id (questions (hdb s)))).
  exists {| ctx := ctx s;
            hdb := with_questions (hdb s)
                     (questions (hdb s) ++ question_rows next tid payloads);
            sent := sent s |}, (question_rows next tid payloads).
  destruct (question_rows_spec next tid payloads) as [Hlen Hrows].
  split.
  { unfold add_questions, connect_io. run_handler.
    rewrite (proj2 (forallb_question_row_ok (hdb s) tid payloads)) by eauto.
    reflexivity. }
  split; [reflexivity|]. split; [reflexivity|]. split; [exact Hlen|].
  split; [intros k p Hk; apply question_rows_lookup, Hk|]. split.
  { intros q q' Hq Hq' Heq. destruct (Hrows q Hq) as (_ & Hge & _).
    assert (Hlt : q_question_id q' < next).
    { apply next_rowid_gt, list_elem_of_fmap. eauto. }
    lia. }
  split.
  { clear. generalize next. induction payloads as [|p ps IH]; intros n;
      cbn [question_rows fmap list_fmap]; [reflexivity|].
    cbn [q_correct_option]. f_equal. apply IH. }
  cbn [hdb]. unfold pool. cbn [questions with_questions].
  split; [|intros other Hother]; rewrite filter_app; [f_equal|].
  - apply filter_all. apply Forall_forall. intros q Hq. apply Hrows, Hq.
  - rewrite (filter_none _ (question_rows _ _ _)); [apply app_nil_r|].
    apply Forall_forall. intros q Hq Ht. destruct (Hrows q Hq) as (Ht' & _).
    congruence.
Qed.

Lemma add_questions_extends_the_pool_witness :
  fst (add_questions None 3 demo_upload (demo_hstate idle demo_db)) = inr 10
  ∧ pool (hdb (snd (add_questions None 3 demo_upload
                      (demo_hstate idle demo_db)))) 3 !! 3%nat
    = Some {| q_question_id := 19; q_topic_id := 3; q_text := "Q";
              q_option1 := "a"; q_option2 := "b"; q_option3 := "c";
              q_option4 := "d"; q_correct_option := 1 |}
  ∧ length (pool (hdb (snd (add_questions None 3 demo_upload
                              (demo_hstate idle demo_db)))) 3) = 13%nat.
Proof.
  destruct (add_questions_extends_the_pool (demo_hstate idle demo_db) 3
              demo_upload short_topic)
    as (s' & rows & Hrun & _ & _ & Hlen & Hrow & _ & _ & Hpool & _).
  - repeat constructor; cbn; lia.
  - cbn. rewrite !elem_of_cons. tauto.
  - reflexivity.
  - rewrite Hrun. split; [reflexivity|]. cbn [snd]. rewrite Hpool. split.
    + rewrite lookup_app_r by (vm_compute; lia).
      change (length (pool (hdb (demo_hstate idle demo_db)) 3)) with 3%nat.
      exact (Hrow 0%nat (mk_payload 1) eq_refl).
    + rewrite length_app, Hlen. reflexivity.
Defined.

(** X13.  One bad row spoils the whole upload: if some row has a correct
    option outside 1..4, or the rows are for a topic that does not exist,
    the method raises [IntegrityError] and stores none of the rows.  In
    every case, whatever the storage layer does, a table whose rows all
    satisfy the CHECK constraint still does so afterwards. *)
Theorem add_questions_all_or_nothing (io : option exn) (s : HState) (tid : Z)
    (payloads : list QuestionPayload) :
  (∀ p, p ∈ payloads → ¬ (1 <= p_correct_option p <= 4) →
     add_questions None tid payloads s = (inl IntegrityError, s))
  ∧ (payloads ≠ [] → (∀ t, t ∈ topics (hdb s) → t_topic_id t ≠ tid) →
     add_questions None tid payloads s = (inl IntegrityError, s))
  ∧ (questions_checked (hdb s) →
     questions_checked (hdb (snd (add_questions io tid payloads s)))).
Proof.
  assert (Hbad : forallb (question_row_ok (hdb s) tid) payloads = false →
                 add_questions None tid payloads s = (inl IntegrityError, s)).
  { intros Hf. unfold add_questions, connect_io. run_handler. rewrite Hf.
    reflexivity. }
  split; [|split].
  - intros p Hp Hrange. apply Hbad.
    destruct (forallb _ _) eqn:Hall; [|reflexivity].
    apply forallb_question_row_ok in Hall as [Hall _].
    rewrite Forall_forall in Hall. destruct (Hrange (Hall p Hp)).
  - intros Hne Hnone. apply Hbad.
    destruct (forallb _ _) eqn:Hall; [|reflexivity].
    apply forallb_question_row_ok in Hall as [_ [->|(t & Hin & Hid)]];
      [contradiction | destruct (Hnone t Hin Hid)].
  - intros Hchk. unfold add_questions, connect_io. run_handler.
    destruct io as [e|]; [exact Hchk|].
    destruct (forallb _ _) eqn:Hall; [|exact Hchk].
    apply forallb_question_row_ok in Hall as [Hall _].
    rewrite Forall_forall in Hall.
    intros q Hq. cbn [snd hdb questions with_questions] in Hq.
    apply elem_of_app in Hq as [Hq|Hq]; [apply Hchk, Hq|].
    destruct (question_rows_spec
                (next_rowid (map q_question_id (questions (hdb s)))) tid payloads)
      as [_ Hrows].
    destruct (Hrows q Hq) as (_ & _ & p & Hp & Hc).
    unfold check_correct_option. rewrite Hc. apply Hall, Hp.
Qed.

Lemma add_questions_all_or_nothing_witness :
  add_questions None 1 bad_upload (demo_hstate idle demo_db) =
  (inl IntegrityError, demo_hstate idle demo_db).
Proof.
  destruct (add_questions_all_or_nothing None (demo_hstate idle demo_db) 1
              bad_upload) as (Hbad & _ & _).
  apply (Hbad (mk_payload 5)).
  - cbn. rewrite !elem_of_cons. tauto.
  - cbn. lia.
Defined.

(** ** Sampling *)

(** X14.  Sampling is without replacement.  When [RANDOM()] orders the
    pool of the topic and question ids are unique, the rows returned by
    [fetch_random_questions] are rows of the table that belong to the topic,
    no question id occurs twice among them, and their number is the limit or
    the size of the pool, whichever is smaller; they satisfy the CHECK
    constraint when the table does.  The call changes nothing. *)
Theorem sampling_without_replacement rnd (tid limit : Z) (s : HState) :
  db_fault (hdb s) m_fetch_random_questions = None →
  rnd (pool (hdb s) tid) ≡ₚ pool (hdb s) tid →
  NoDup (q_question_id <$> questions (hdb s)) →
  0 <= limit →
  ∃ qs, fetch_random_questions rnd tid limit s = (inr qs, s)
      ∧ length qs = Nat.min (Z.to_nat limit) (length (pool (hdb s) tid))
      ∧ (∀ q, q ∈ qs → q ∈ questions (hdb s) ∧ q_topic_id q = tid)
      ∧ NoDup (q_question_id <$> qs)
      ∧ (questions_checked (hdb s) → ∀ q, q ∈ qs → check_correct_option q).
Proof.
  intros Hio Hperm Hnd Hlimit.
  exists (take (Z.to_nat limit) (rnd (pool (hdb s) tid))).
  assert (Hin : ∀ q, q ∈ take (Z.to_nat limit) (rnd (pool (hdb s) tid)) →
                     q ∈ questions (hdb s) ∧ q_topic_id q = tid).
  { intros q Hq.
    pose proof (elem_of_sublist _ _ _ Hq (sublist_take _ _)) as Hq'.
    rewrite Hperm in Hq'. unfold pool in Hq'.
    apply list_elem_of_filter in Hq' as [Ht Hq']. auto. }
  split; [|split; [|split; [exact Hin|split]]].
  - unfold fetch_random_questions, connect, sql_limit. run_handler.
    rewrite Hio. rewrite (proj2 (Z.ltb_ge _ _)) by exact Hlimit. reflexivity.
  - rewrite length_take. apply Permutation_length in Hperm. lia.
  - apply (sublist_NoDup _ (q_question_id <$> rnd (pool (hdb s) tid))).
    + rewrite Hperm. unfold pool.
      apply (sublist_NoDup _ (q_question_id <$> questions (hdb s)));
        [exact Hnd|].
      apply fmap_sublist, sublist_filter.
    + apply fmap_sublist, sublist_take.
  - intros Hchk q Hq. apply Hchk, Hin, Hq.
Qed.

Lemma sampling_without_replacement_witness :
  ∃ qs, fetch_random_questions reverse 1 10 (demo_hstate idle demo_db)
        = (inr qs, demo_hstate idle demo_db)
      ∧ length qs = 10%nat ∧ NoDup (q_question_id <$> qs).
Proof.
  destruct (sampling_without_replacement reverse 1 10 (demo_hstate idle demo_db))
    as (qs & Hrun & Hlen & _ & Hnd & _).
  - reflexivity.
  - apply reverse_Permutation.
  - apply (bool_decide_unpack _). vm_compute. exact I.
  - lia.
  - exists qs. split; [exact Hrun|]. split; [exact Hlen | exact Hnd].
Defined.

(** X15.  Uploading opens the test: once at least ten well-formed
    questions have been added to an available topic, a Start by a user with
    a free attempt no longer reports too few questions; it creates a session
    of exactly ten questions at index 0 with count 0. *)
Theorem upload_enables_start (s : HState) (tid : Z)
    (payloads : list QuestionPayload) (topic : Topic) rnd (u : Z) :
  storage_ok (hdb s) →
  visible_topic (hdb s) tid = Some topic →
  Forall (λ p, 1 <= p_correct_option p <= 4) payloads →
  (10 <= length payloads)%nat →
  (∀ l, rnd l ≡ₚ l) →
  (∀ limit, t_attempt_limit topic = Some limit →
            count_attempts u tid (attempts (hdb s)) < limit) →
  let s1 := snd (add_questions None tid payloads s) in
  ∃ s2 qs, _start_test_for_topic rnd u tid s1 = (inr tt, s2)
         ∧ active (ctx s2) tid qs 0 0
         ∧ length qs = 10%nat
         ∧ ∀ q, q ∈ qs → q ∈ questions (hdb s1) ∧ q_topic_id q = tid.
Proof.
  intros Hok Hvis Hrange Hten Hperm Hgate s1.
  destruct (visible_topic_Some _ _ _ Hvis) as (Hin & _ & Hid).
  destruct (add_questions_rows s tid payloads topic Hrange Hin Hid)
    as (rows & Hs1 & Hlen & Hpool).
  fold s1 in Hs1.
  assert (Hdb : users (hdb s1) = users (hdb s) ∧ topics (hdb s1) = topics (hdb s)
                ∧ attempts (hdb s1) = attempts (hdb s)
                ∧ db_fault (hdb s1) = db_fault (hdb s))
    by (rewrite Hs1; repeat split; reflexivity).
  destruct Hdb as (Hu & Ht & Ha & Hf).
  assert (Hok1 : storage_ok (hdb s1)) by (intros m; rewrite Hf; apply Hok).
  assert (Hvis1 : visible_topic (hdb s1) tid = Some topic)
    by (unfold visible_topic; rewrite Ht; exact Hvis).
  assert (Hsample : length (sample rnd (hdb s1) tid) = 10%nat).
  { unfold sample, sql_limit. cbn [Z.ltb Z.compare Z.to_nat].
    rewrite length_take.
    pose proof (Permutation_length (Hperm (pool (hdb s1) tid))) as Hl.
    assert (Hpool1 : pool (hdb s1) tid = pool (hdb s) tid ++ rows)
      by (rewrite Hs1; exact Hpool).
    rewrite Hpool1 in Hl |- *. rewrite length_app in Hl.
    change (Z.to_nat 10) with 10%nat. lia. }
  destruct (start_succeeds rnd u tid s1 topic Hok1 Hvis1) as (q0 & _ & Hrun).
  { lia. }
  { rewrite Ha. exact Hgate. }
  eexists _, (sample rnd (hdb s1) tid). split; [exact Hrun|].
  split; [apply active_started; lia|]. split; [exact Hsample|].
  intros q Hq. unfold sample, sql_limit in Hq. cbn [Z.ltb Z.compare] in Hq.
  pose proof (elem_of_sublist _ _ _ Hq (sublist_take _ _)) as Hq'.
  rewrite (Hperm _) in Hq'. unfold pool in Hq'.
  apply list_elem_of_filter in Hq' as [Hqt Hq']. auto.
Qed.

Lemma upload_enables_start_witness :
  ∃ s2 qs,
    _start_test_for_topic id 7 3
      (snd (add_questions None 3 demo_upload (demo_hstate idle demo_db)))
    = (inr tt, s2)
    ∧ active (ctx s2) 3 qs 0 0 ∧ length qs = 10%nat.
Proof.
  destruct (upload_enables_start (demo_hstate idle demo_db) 3 demo_upload
              short_topic id 7) as (s2 & qs & Hrun & Hact & Hlen & _).
  - intros m. reflexivity.
  - reflexivity.
  - repeat constructor; cbn; lia.
  - cbn. lia.
  - reflexivity.
  - intros limit Hlimit. discriminate Hlimit.
  - exists s2, qs. auto.
Defined.

(** ** Users *)

Lemma find_user_updated (u v : Z) (row : User) (rows : list User) :
  u_user_id row = u →
  find (λ x, u_user_id x =? v)
       (map (λ x, if u_user_id x =? u then row else x) rows)
  = if decide (v = u) then
      (if existsb (λ x, u_user_id x =? u) rows then Some row else None)
    else find (λ x, u_user_id x =? v) rows.
Proof.
  intros Hrow. induction rows as [|x rows IH]; cbn [map find existsb].
  - destruct (decide (v = u)); reflexivity.
  - rewrite IH. destruct (Z.eqb_spec (u_user_id x) u) as [Hx|Hx].
    + rewrite Hrow. destruct (decide (v = u)) as [->|Hv].
      * rewrite Z.eqb_refl. reflexivity.
      * rewrite (proj2 (Z.eqb_neq u v)) by congruence.
        rewrite (proj2 (Z.eqb_neq (u_user_id x) v)) by congruence. reflexivity.
    + destruct (decide (v = u)) as [->|Hv].
      * rewrite (proj2 (Z.eqb_neq (u_user_id x) u)) by exact Hx. reflexivity.
      * reflexivity.
Qed.

Lemma find_user_appended (v : Z) (row : User) (rows : list User) :
  find (λ x, u_user_id x =? v) (rows ++ [row])
  = match find (λ x, u_user_id x =? v) rows with
    | Some x => Some x
    | None => if u_user_id row =? v then Some row else None
    end.
Proof.
  induction rows as [|x rows IH]; cbn [app find]; [reflexivity|].
  destruct (u_user_id x =? v); [reflexivity | exact IH].
Qed.

Lemma find_user_absent (u : Z) (rows : list User) :
  existsb (λ x, u_user_id x =? u) rows = false →
  find (λ x, u_user_id x =? u) rows = None.
Proof.
  induction rows as [|x rows IH]; cbn [existsb find]; [reflexivity|].
  destruct (u_user_id x =? u); [discriminate | exact IH].
Qed.

(** X16.  Registration round trip: after [upsert_user(u, name, role)] the
    lookup [get_user(u)] returns exactly that record, whether the user is
    new or was registered under another name, and the lookup of every other
    user returns what it returned before.  A user that was registered keeps
    a single row. *)
Theorem upsert_then_get_user (s : HState) (u : Z) (name role : string) :
  db_fault (hdb s) m_get_user = None →
  let row := {| u_user_id := u; u_full_name := name; u_role := role |} in
  ∃ s1, upsert_user None u name role s = (inr tt, s1)
      ∧ ctx s1 = ctx s
      ∧ get_user u s1 = (inr (Some row), s1)
      ∧ (∀ v, v ≠ u → fst (get_user v s1) = fst (get_user v s))
      ∧ length (users (hdb s1)) =
        if existsb (λ x, u_user_id x =? u) (users (hdb s))
        then length (users (hdb s)) else S (length (users (hdb s))).
Proof.
  intros Hio row.
  unfold upsert_user, get_user, connect_io, connect. run_handler.
  destruct (existsb _ _) eqn:Hex; eexists; (split; [reflexivity|]);
    (split; [reflexivity|]);
    cbn [ctx hdb with_users db_fault]; rewrite Hio;
    cbn [ctx hdb users with_users fst].
  - rewrite find_user_updated by reflexivity.
    rewrite decide_True by reflexivity. rewrite Hex.
    split; [reflexivity|]. split.
    + intros v Hv. cbn [fst]. rewrite find_user_updated by reflexivity.
      rewrite decide_False by exact Hv. reflexivity.
    + apply length_map.
  - rewrite find_user_appended, (find_user_absent _ _ Hex).
    cbn [u_user_id row]. rewrite Z.eqb_refl.
    split; [reflexivity|]. split.
    + intros v Hv. cbn [fst]. rewrite find_user_appended.
      destruct (find _ _); [reflexivity|].
      cbn [u_user_id row]. rewrite (proj2 (Z.eqb_neq u v)) by congruence.
      reflexivity.
    + rewrite length_app. cbn [length]. lia.
Qed.

Lemma upsert_then_get_user_witness :
  ∃ s1, upsert_user None 7 "Ann Lee" "student" (demo_hstate idle demo_db)
        = (inr tt, s1)
      ∧ fst (get_user 7 s1)
        = inr (Some {| u_user_id := 7; u_full_name := "Ann Lee";
                       u_role := "student" |})
      ∧ length (users (hdb s1)) = 1%nat.
Proof.
  destruct (upsert_then_get_user (demo_hstate idle demo_db) 7 "Ann Lee" "student")
    as (s1 & Hrun & _ & Hget & _ & Hlen).
  - reflexivity.
  - exists s1. split; [exact Hrun|]. split; [rewrite Hget; reflexivity|].
    rewrite Hlen. reflexivity.
Defined.

Lemma cmd_test_registered (s : HState) (u : Z) (x : User) :
  storage_ok (hdb s) →
  find (λ x, u_user_id x =? u) (users (hdb s)) = Some x →
  order_by_title (filter (λ t, t_is_available t = 1) (topics (hdb s))) ≠ [] →
  ∃ s2, cmd_test u s = (inr tt, s2)
      ∧ fsm_state (ctx s2) = Some TestState_choosing_topic
      ∧ fsm_data (ctx s2) = fsm_data (ctx s)
      ∧ hdb s2 = hdb s.
Proof.
  intros Hok Hx Hopen.
  unfold cmd_test, get_user, list_topics, connect. run_handler.
  rewrite !Hok, Hx. cbn [hdb]. rewrite !Hok.
  destruct (order_by_title _) as [|t0 ts]; [contradiction|].
  eexists. split; [reflexivity|]. repeat split; reflexivity.
Qed.

(** X17.  [/test] is closed to a user without a row in [users]: the
    handler asks for registration and changes neither the context nor the
    database.  After [upsert_user] the same command, given an open topic,
    lets the user choose a topic. *)
Theorem test_command_requires_registration (s : HState) (u : Z)
    (name role : string) (topic : Topic) :
  storage_ok (hdb s) →
  (∀ x, x ∈ users (hdb s) → u_user_id x ≠ u) →
  topic ∈ topics (hdb s) → t_is_available topic = 1 →
  cmd_test u s =
  (inr tt, {| ctx := ctx s; hdb := hdb s; sent := sent s ++ [RegisterFirst] |})
  ∧ let s1 := snd (upsert_user None u name role s) in
    ∃ s2, cmd_test u s1 = (inr tt, s2)
        ∧ fsm_state (ctx s2) = Some TestState_choosing_topic
        ∧ fsm_data (ctx s2) = fsm_data (ctx s)
        ∧ hdb s2 = hdb s1.
Proof.
  intros Hok Hnew Hin Hav.
  assert (Hex : existsb (λ x, u_user_id x =? u) (users (hdb s)) = false).
  { destruct (existsb _ _) eqn:Hex; [|reflexivity].
    apply existsb_exists in Hex as (x & Hx & Hid).
    apply list_elem_of_In in Hx. apply Z.eqb_eq in Hid. destruct (Hnew x Hx Hid). }
  assert (Hopen : order_by_title
            (filter (λ t, t_is_available t = 1) (topics (hdb s))) ≠ []).
  { apply order_by_title_nonempty. intros Hnil.
    assert (Ht : topic ∈ filter (λ t, t_is_available t = 1) (topics (hdb s)))
      by (apply list_elem_of_filter; auto).
    rewrite Hnil in Ht. apply elem_of_nil in Ht. exact Ht. }
  split.
  - unfold cmd_test, get_user, connect. run_handler.
    rewrite !Hok, (find_user_absent _ _ Hex). reflexivity.
  - unfold upsert_user, connect_io. run_handler. rewrite Hex. cbn [snd].
    set (row := {| u_user_id := u; u_full_name := name; u_role := role |}).
    destruct (cmd_test_registered
                {| ctx := ctx s; hdb := with_users (hdb s) (users (hdb s) ++ [row]);
                   sent := sent s |} u row) as (s2 & Hrun & Hst & Hdata & Hdb).
    + exact Hok.
    + cbn [hdb users with_users].
      rewrite find_user_appended, (find_user_absent _ _ Hex).
      cbn [u_user_id row]. rewrite Z.eqb_refl. reflexivity.
    + exact Hopen.
    + exists s2. auto.
Qed.

Lemma test_command_requires_registration_witness :
  cmd_test 8 (demo_hstate idle demo_db) =
  (inr tt, {| ctx := idle; hdb := demo_db; sent := [RegisterFirst] |}).
Proof.
  destruct (test_command_requires_registration (demo_hstate idle demo_db) 8
              "Bob Ray" "student" html_basics) as [Hclosed _].
  - intros m. reflexivity.
  - intros x Hx. cbn in Hx. apply list_elem_of_singleton in Hx as ->. discriminate.
  - apply list_elem_of_here.
  - reflexivity.
  - exact Hclosed.
Defined.

(** * Properties of the materials *)

Example topic_materials_demo :
  get_materials None demo_materials (Some 1) true =
  inr [mk_material 4 (Some 1); mk_material 2 (Some 1);
       mk_material 5 None; mk_material 1 None].
Proof. reflexivity. Qed.

Example general_materials_demo :
  get_materials None demo_materials None false =
  inr [mk_material 5 None; mk_material 1 None].
Proof. reflexivity. Qed.

Lemma material_before_total (a b : Material) :
  material_before a b = false → material_before b a = true.
Proof.
  unfold material_before.
  destruct (m_topic_id a), (m_topic_id b); try congruence; rewrite Z.leb_gt, Z.leb_le; lia.
Qed.

Lemma material_before_trans (a b c : Material) :
  material_before a b = true → material_before b c = true →
  material_before a c = true.
Proof.
  unfold material_before.
  destruct (m_topic_id a), (m_topic_id b), (m_topic_id c);
    try congruence; rewrite !Z.leb_le; lia.
Qed.

Lemma elem_of_insert_material (a x : Material) (l : list Material) :
  x ∈ insert_material a l ↔ x = a ∨ x ∈ l.
Proof.
  induction l as [|b l IH]; cbn [insert_material].
  - rewrite list_elem_of_singleton, elem_of_nil. tauto.
  - destruct (material_before a b).
    + rewrite elem_of_cons. reflexivity.
    + rewrite !elem_of_cons, IH. tauto.
Qed.

Lemma elem_of_order_materials (x : Material) (l : list Material) :
  x ∈ order_materials l ↔ x ∈ l.
Proof.
  unfold order_materials. induction l as [|a l IH]; cbn [foldr].
  - reflexivity.
  - rewrite elem_of_insert_material, elem_of_cons, IH. reflexivity.
Qed.

Lemma order_materials_sorted (l : list Material) :
  StronglySorted (λ a b, material_before a b = true) (order_materials l).
Proof.
  unfold order_materials. induction l as [|a l IH]; cbn [foldr]; [constructor|].
  generalize dependent (foldr insert_material [] l). clear l.
  intros m Hm. induction Hm as [|b m Hm IH Hb]; cbn [insert_material].
  - repeat constructor.
  - destruct (material_before a b) eqn:Hab.
    + constructor; [constructor; assumption|].
      constructor; [exact Hab|].
      eapply Forall_impl; [exact Hb|]. intros c Hbc.
      eapply material_before_trans; eassumption.
    + constructor; [exact IH|].
      apply Forall_forall. intros c Hc.
      apply elem_of_insert_material in Hc as [->|Hc].
      * apply material_before_total, Hab.
      * rewrite Forall_forall in Hb. apply Hb, Hc.
Qed.

Lemma strongly_sorted_lookup {A} (R : A → A → Prop) (l : list A) (i j : nat)
    (a b : A) :
  StronglySorted R l → (i < j)%nat → l !! i = Some a → l !! j = Some b → R a b.
Proof.
  intros Hl. revert i j. induction Hl as [|x l Hl IH Hx]; intros i j Hij Hi Hj.
  - discriminate Hi.
  - destruct j as [|j]; [lia|]. cbn in Hj. destruct i as [|i].
    + injection Hi as <-. rewrite Forall_forall in Hx.
      apply Hx. eapply list_elem_of_lookup_2, Hj.
    + cbn in Hi. apply (IH i j); [lia | assumption..].
Qed.

(** X18.  What [get_materials] lists, and in which order.  For a topic it
    lists the materials of that topic and, when [include_general] is set,
    the general ones; without a topic it lists every material when
    [include_general] is set and only the general ones when it is not.  In
    the result no general material stands before a material of a topic, and
    within each of the two groups the ids decrease, so the newest comes
    first. *)
Theorem get_materials_selection_and_order (table : list Material)
    (topic_id : option Z) (include_general : bool) :
  ∃ r, get_materials None table topic_id include_general = inr r
     ∧ (∀ m, m ∈ r ↔
          m ∈ table
          ∧ match topic_id with
            | Some t => m_topic_id m = Some t
                        ∨ (include_general = true ∧ m_topic_id m = None)
            | None => include_general = true ∨ m_topic_id m = None
            end)
     ∧ (length r <= length table)%nat
     ∧ ∀ i j a b, (i < j)%nat → r !! i = Some a → r !! j = Some b →
         (m_topic_id a = None → m_topic_id b = None)
         ∧ ((m_topic_id a = None ↔ m_topic_id b = None) →
            m_material_id b <= m_material_id a).
Proof.
  eexists. split; [reflexivity|]. split; [|split].
  - intros m. rewrite elem_of_order_materials, list_elem_of_In, filter_In,
      <- list_elem_of_In.
    unfold material_selected.
    destruct topic_id as [t|], include_general, (m_topic_id m) as [t'|];
      rewrite ?Z.eqb_eq; intuition (congruence || auto).
  - pose proof (filter_length_le (material_selected topic_id include_general) table)
      as Hle.
    assert (Hlen : ∀ l, length (order_materials l) = length l).
    { clear. unfold order_materials. induction l as [|a l IH]; [reflexivity|].
      cbn [foldr length]. rewrite <- IH.
      generalize (foldr insert_material [] l). clear. intros m.
      induction m as [|b m IH]; cbn [insert_material length]; [reflexivity|].
      destruct (material_before a b); cbn [length]; lia. }
    rewrite Hlen. exact Hle.
  - intros i j a b Hij Hi Hj.
    pose proof (strongly_sorted_lookup _ _ i j a b
                  (order_materials_sorted _) Hij Hi Hj) as Hab.
    cbn beta in Hab. unfold material_before in Hab.
    destruct (m_topic_id a), (m_topic_id b); try discriminate Hab;
      rewrite ?Z.leb_le in Hab; intuition (congruence || auto).
Qed.

(** * Properties of the parsers *)

Example split_on_demo :
  split_on ";"%char "a;;b;" = ["a"; ""; "b"; ""]
  ∧ split_on ";"%char "" = [""].
Proof. split; reflexivity. Qed.

Example parse_txt_demo :
  parse_txt_questions digit_int id demo_txt =
  inr [{| p_text := "Which tag is a paragraph?"; p_option1 := "p";
          p_option2 := "div"; p_option3 := "h1"; p_option4 := "span";
          p_correct_option := 1 |};
       {| p_text := "Which tag is a link?"; p_option1 := "b";
          p_option2 := "a"; p_option3 := "i"; p_option4 := "u";
          p_correct_option := 2 |}].
Proof. reflexivity. Qed.

Example parse_txt_bad_line_demo :
  parse_txt_questions digit_int id ["q;a;b;c;d;1"; ""; "q;a;b"] =
  inl (ExpectedSixColumns 3 3).
Proof. reflexivity. Qed.

Lemma take_six {A} (row : list A) :
  (6 <= length row)%nat → ∃ a b c d e f, take 6 row = [a; b; c; d; e; f].
Proof.
  intros Hlen.
  destruct row as [|a [|b [|c [|d [|e [|f row]]]]]]; cbn [length] in Hlen;
    try lia.
  exists a, b, c, d, e, f. reflexivity.
Qed.

(** What the loop body returns for a row of at least six fields. *)
Lemma question_of_fields_cases (int : string → option Z) (strip : string → string)
    (strip_correct : bool) (line_no : Z) (row : list string) :
  (6 <= length row)%nat →
  ∃ correct, row !! 5%nat = Some correct ∧
    let literal := if strip_correct then strip correct else correct in
    match question_of_fields int strip strip_correct line_no row with
    | inr q => int literal = Some (p_correct_option q)
               ∧ 1 <= p_correct_option q <= 4
    | inl (InvalidLiteral text) => text = literal ∧ int literal = None
    | inl (AnswerOutOfRange n) =>
        n = line_no ∧ ∃ v, int literal = Some v ∧ ¬ (1 <= v <= 4)
    | inl _ => False
    end.
Proof.
  intros Hlen. destruct (take_six row Hlen) as (a & b & c & d & e & f & Htake).
  exists f. split.
  { assert (Hf : take 6 row !! 5%nat = Some f) by (rewrite Htake; reflexivity).
    rewrite lookup_take_lt in Hf by lia. exact Hf. }
  unfold question_of_fields. rewrite Htake. cbn zeta.
  destruct (int _) as [v|] eqn:Hint; [|auto].
  destruct (Z.leb_spec 1 v), (Z.leb_spec v 4); cbn [andb p_correct_option];
    first [split; [reflexivity | lia] | split; [reflexivity|]; exists v; split; [reflexivity | lia]].
Qed.

Lemma parse_csv_rows_in_range (int : string → option Z) (strip : string → string)
    (rows : list (list string)) :
  ∀ line_no qs, parse_csv_rows int strip line_no rows = inr qs →
    Forall (λ p, 1 <= p_correct_option p <= 4) qs ∧ length qs = length rows.
Proof.
  induction rows as [|row rows IH]; intros line_no qs; cbn [parse_csv_rows].
  - intros [= <-]. split; [constructor | reflexivity].
  - destruct (Nat.ltb_spec (length row) 6) as [Hshort|Hlen]; [discriminate|].
    destruct (question_of_fields_cases int strip false line_no row Hlen)
      as (correct & _ & Hq).
    destruct (question_of_fields _ _ _ _ _) as [e|q]; [discriminate|].
    destruct (parse_csv_rows _ _ _ rows) as [e|qs'] eqn:Hrest; [discriminate|].
    intros [= <-]. destruct (IH _ _ Hrest) as [Hall Hl].
    split; [constructor; [apply Hq | exact Hall] | cbn [length]; lia].
Qed.

Lemma parse_txt_lines_in_range (int : string → option Z) (strip : string → string)
    (lines : list string) :
  ∀ line_no qs, parse_txt_lines int strip line_no lines = inr qs →
    Forall (λ p, 1 <= p_correct_option p <= 4) qs
    ∧ length qs = length (filter (λ l, strip l ≠ "") lines).
Proof.
  induction lines as [|line lines IH]; intros line_no qs; cbn [parse_txt_lines].
  - intros [= <-]. split; [constructor | reflexivity].
  - cbn zeta. rewrite filter_cons.
    destruct (String.eqb_spec (strip line) "") as [Hblank|Hline].
    + rewrite decide_False by (intros Hne; apply Hne, Hblank). apply IH.
    + rewrite decide_True by exact Hline.
      destruct (Nat.ltb_spec (length (split_on ";" (strip line))) 6)
        as [Hshort|Hlen]; [discriminate|].
      destruct (question_of_fields_cases int strip true line_no _ Hlen)
        as (correct & _ & Hq).
      destruct (question_of_fields _ _ _ _ _) as [e|q]; [discriminate|].
      destruct (parse_txt_lines _ _ _ lines) as [e|qs'] eqn:Hrest; [discriminate|].
      intros [= <-]. destruct (IH _ _ Hrest) as [Hall Hl].
      split; [constructor; [apply Hq | exact Hall] | cbn [length]; lia].
Qed.

(** X19.  What the parsers accept, the database accepts.  Every question
    returned by [parse_csv_questions] or [parse_txt_questions] has a correct
    option from 1 to 4, whatever the file holds; so [add_questions] on a
    parsed file, for a topic that exists, never raises for the CHECK
    constraint: it stores every parsed question and returns their number. *)
Theorem parsed_questions_are_accepted (int : string → option Z)
    (strip : string → string) (rows : list (list string)) (lines : list string)
    (qs : list QuestionPayload) (s : HState) (tid : Z) (t : Topic) :
  parse_csv_questions int strip rows = inr qs
  ∨ parse_txt_questions int strip lines = inr qs →
  t ∈ topics (hdb s) → t_topic_id t = tid →
  Forall (λ p, 1 <= p_correct_option p <= 4) qs
  ∧ fst (add_questions None tid qs s) = inr (Z.of_nat (length qs))
  ∧ length (pool (hdb (snd (add_questions None tid qs s))) tid)
    = (length (pool (hdb s) tid) + length qs)%nat.
Proof.
  intros Hparsed Hin Hid.
  assert (Hrange : Forall (λ p, 1 <= p_correct_option p <= 4) qs).
  { destruct Hparsed as [Hcsv|Htxt].
    - apply (parse_csv_rows_in_range int strip rows 1 qs Hcsv).
    - unfold parse_txt_questions in Htxt.
      destruct (parse_txt_lines int strip 1 lines) as [e|qs'] eqn:Hlines;
        [discriminate|].
      destruct qs' as [|q qs']; [discriminate|]. injection Htxt as <-.
      apply (parse_txt_lines_in_range int strip lines 1 _ Hlines). }
  split; [exact Hrange|].
  destruct (add_questions_rows s tid qs t Hrange Hin Hid)
    as (rows' & Hs1 & Hlen & Hpool).
  split.
  - unfold add_questions, connect_io. run_handler.
    rewrite (proj2 (forallb_question_row_ok (hdb s) tid qs)) by eauto.
    reflexivity.
  - rewrite Hs1. cbn [hdb]. rewrite Hpool, length_app, Hlen. reflexivity.
Qed.

Lemma parsed_questions_are_accepted_witness :
  fst (add_questions None 3
         [{| p_text := "Which tag is a paragraph?"; p_option1 := "p";
             p_option2 := "div"; p_option3 := "h1"; p_option4 := "span";
             p_correct_option := 1 |};
          {| p_text := "Which tag is a link?"; p_option1 := "b";
             p_option2 := "a"; p_option3 := "i"; p_option4 := "u";
             p_correct_option := 2 |}]
         (demo_hstate idle demo_db)) = inr 2.
Proof.
  destruct (parsed_questions_are_accepted digit_int id [] demo_txt
              [{| p_text := "Which tag is a paragraph?"; p_option1 := "p";
                  p_option2 := "div"; p_option3 := "h1"; p_option4 := "span";
                  p_correct_option := 1 |};
               {| p_text := "Which tag is a link?"; p_option1 := "b";
                  p_option2 := "a"; p_option3 := "i"; p_option4 := "u";
                  p_correct_option := 2 |}]
              (demo_hstate idle demo_db) 3 short_topic) as (_ & Hadd & _).
  - right. reflexivity.
  - cbn. rewrite !elem_of_cons. tauto.
  - reflexivity.
  - exact Hadd.
Defined.

Lemma parse_txt_lines_error (int : string → option Z) (strip : string → string)
    (lines : list string) :
  ∀ line_no e, parse_txt_lines int strip line_no lines = inl e →
    match e with
    | ExpectedSixColumns n got =>
        line_no <= n ∧
        ∃ l, lines !! Z.to_nat (n - line_no) = Some l ∧ strip l ≠ ""
           ∧ got = Z.of_nat (length (split_on ";" (strip l))) ∧ got < 6
    | AnswerOutOfRange n =>
        line_no <= n ∧
        ∃ l correct v,
          lines !! Z.to_nat (n - line_no) = Some l ∧ strip l ≠ ""
          ∧ split_on ";" (strip l) !! 5%nat = Some correct
          ∧ int (strip correct) = Some v ∧ ¬ (1 <= v <= 4)
    | InvalidLiteral text =>
        ∃ l correct, l ∈ lines ∧ split_on ";" (strip l) !! 5%nat = Some correct
                   ∧ text = strip correct ∧ int text = None
    | NoQuestionsFound => False
    end.
Proof.
  induction lines as [|line lines IH]; intros line_no e; cbn [parse_txt_lines];
    [discriminate|].
  cbn zeta.
  assert (Hshift : ∀ n, line_no + 1 <= n →
            Z.to_nat (n - line_no) = S (Z.to_nat (n - (line_no + 1)))) by lia.
  assert (Hrest : parse_txt_lines int strip (line_no + 1) lines = inl e →
            match e with
            | ExpectedSixColumns n got =>
                line_no <= n ∧
                ∃ l, (line :: lines) !! Z.to_nat (n - line_no) = Some l
                   ∧ strip l ≠ ""
                   ∧ got = Z.of_nat (length (split_on ";" (strip l))) ∧ got < 6
            | AnswerOutOfRange n =>
                line_no <= n ∧
                ∃ l correct v,
                  (line :: lines) !! Z.to_nat (n - line_no) = Some l
                  ∧ strip l ≠ ""
                  ∧ split_on ";" (strip l) !! 5%nat = Some correct
                  ∧ int (strip correct) = Some v ∧ ¬ (1 <= v <= 4)
            | InvalidLiteral text =>
                ∃ l correct, l ∈ line :: lines
                           ∧ split_on ";" (strip l) !! 5%nat = Some correct
                           ∧ text = strip correct ∧ int text = None
            | NoQuestionsFound => False
            end).
  { intros He. specialize (IH _ _ He). destruct e as [n got|text|n|].
    - destruct IH as (Hn & l & Hl & Hrest). split; [lia|].
      exists l. rewrite (Hshift n Hn). auto.
    - destruct IH as (l & correct & Hl & Hrest). exists l, correct.
      split; [apply list_elem_of_further, Hl | exact Hrest].
    - destruct IH as (Hn & l & correct & v & Hl & Hrest). split; [lia|].
      exists l, correct, v. rewrite (Hshift n Hn). auto.
    - exact IH. }
  destruct (String.eqb_spec (strip line) "") as [Hblank|Hline]; [exact Hrest|].
  destruct (Nat.ltb_spec (length (split_on ";" (strip line))) 6) as [Hshort|Hlen].
  - intros [= <-]. split; [lia|]. exists line. rewrite Z.sub_diag.
    repeat split; [assumption | lia].
  - destruct (question_of_fields_cases int strip true line_no _ Hlen)
      as (correct & Hfield & Hq).
    destruct (question_of_fields _ _ _ _ _) as [e'|q].
    + intros [= <-]. destruct e' as [n got|text|n|]; try contradiction.
      * destruct Hq as [-> Hnone]. exists line, correct.
        split; [apply list_elem_of_here | auto].
      * destruct Hq as (-> & v & Hv & Hrange). split; [lia|].
        exists line, correct, v. rewrite Z.sub_diag. auto.
    + destruct (parse_txt_lines _ _ _ lines) as [e'|qs'] eqn:Hparse;
        [|discriminate].
      intros [= <-]. apply Hrest. reflexivity.
Qed.

(** X20.  The TXT parser counts physical lines.  Blank lines give no
    question, so a successful parse returns as many questions as there are
    lines that are not blank; but blank lines are numbered, so the line
    number carried by an error is the position in the file of the line it
    is about: that line is not blank and either has fewer than six fields,
    their number being reported, or its sixth field is an integer outside
    1..4. *)
Theorem txt_parser_counts_physical_lines (int : string → option Z)
    (strip : string → string) (lines : list string) :
  (∀ qs, parse_txt_questions int strip lines = inr qs →
     length qs = length (filter (λ l, strip l ≠ "") lines) ∧ qs ≠ [])
  ∧ (∀ n got, parse_txt_questions int strip lines = inl (ExpectedSixColumns n got) →
       1 <= n ∧
       ∃ l, lines !! Z.to_nat (n - 1) = Some l ∧ strip l ≠ ""
          ∧ got = Z.of_nat (length (split_on ";" (strip l))) ∧ got < 6)
  ∧ (∀ n, parse_txt_questions int strip lines = inl (AnswerOutOfRange n) →
       1 <= n ∧
       ∃ l correct v,
         lines !! Z.to_nat (n - 1) = Some l ∧ strip l ≠ ""
         ∧ split_on ";" (strip l) !! 5%nat = Some correct
         ∧ int (strip correct) = Some v ∧ ¬ (1 <= v <= 4)).
Proof.
  unfold parse_txt_questions.
  destruct (parse_txt_lines int strip 1 lines) as [e|qs'] eqn:Hparse.
  - pose proof (parse_txt_lines_error int strip lines 1 e Hparse) as He.
    split; [discriminate|]. split.
    + intros n got [= ->]. exact He.
    + intros n [= ->]. exact He.
  - destruct (parse_txt_lines_in_range int strip lines 1 qs' Hparse) as [_ Hlen].
    split; [|split; destruct qs'; discriminate].
    intros qs Hqs. destruct qs' as [|q qs']; [discriminate|].
    injection Hqs as <-. split; [exact Hlen | discriminate].
Qed.

Lemma txt_parser_counts_physical_lines_witness :
  ∃ l, ["q;a;b;c;d;1"; ""; "q;a;b"] !! Z.to_nat (3 - 1) = Some l
     ∧ 3 = Z.of_nat (length (split_on ";" l)).
Proof.
  destruct (txt_parser_counts_physical_lines digit_int id
              ["q;a;b;c;d;1"; ""; "q;a;b"]) as (_ & Hshort & _).
  destruct (Hshort 3 3) as (_ & l & Hl & _ & Hgot & _); [reflexivity|].
  exists l. split; [exact Hl | exact Hgot].
Defined.

Lemma parse_csv_blank_row (int : string → option Z) (strip : string → string)
    (rows rest : list (list string)) :
  ∀ k qs, parse_csv_rows int strip k rows = inr qs →
    parse_csv_rows int strip k (rows ++ [] :: rest)
    = inl (ExpectedSixColumns (k + Z.of_nat (length rows)) 0).
Proof.
  induction rows as [|row rows IH]; intros k qs; cbn [parse_csv_rows app length].
  - intros _. cbn [Nat.ltb Nat.leb length]. do 2 f_equal. lia.
  - destruct (length row <? 6)%nat; [discriminate|].
    destruct (question_of_fields _ _ _ _ _) as [e|q]; [discriminate|].
    destruct (parse_csv_rows int strip (k + 1) rows) as [e|qs'] eqn:Hrest;
      [discriminate|].
    intros _. rewrite (IH (k + 1) qs' Hrest). do 2 f_equal. lia.
Qed.

(** X21.  Empty input: the two parsers disagree.  A TXT file whose lines
    are all blank, an empty file included, is an error (no questions
    found).  A CSV file without rows is parsed without error into no
    questions, and the upload that follows succeeds with a count of 0 and an
    unchanged table, even for a topic that does not exist; a blank row in a
    CSV file, which the TXT parser would skip, is reported as a row of 0
    columns. *)
Theorem empty_input_txt_fails_csv_uploads_nothing (int : string → option Z)
    (strip : string → string) (lines : list string)
    (rows rest : list (list string)) (qs : list QuestionPayload)
    (s : HState) (tid : Z) :
  (Forall (λ l, strip l = "") lines →
     parse_txt_questions int strip lines = inl NoQuestionsFound)
  ∧ (parse_csv_questions int strip [] = inr []
     ∧ fst (add_questions None tid [] s) = inr 0
     ∧ questions (hdb (snd (add_questions None tid [] s))) = questions (hdb s))
  ∧ (parse_csv_rows int strip 1 rows = inr qs →
     parse_csv_questions int strip (rows ++ [] :: rest)
     = inl (ExpectedSixColumns (Z.of_nat (length rows) + 1) 0)).
Proof.
  split; [|split; [split; [reflexivity|split]|]].
  - intros Hblank. unfold parse_txt_questions.
    assert (Hnone : ∀ k, parse_txt_lines int strip k lines = inr []).
    { induction Hblank as [|l lines Hl _ IH]; intros k; cbn [parse_txt_lines];
        [reflexivity|].
      cbn zeta. rewrite Hl. cbn [String.eqb]. apply IH. }
    rewrite Hnone. reflexivity.
  - reflexivity.
  - unfold add_questions, connect_io. run_handler. cbn [forallb snd hdb].
    cbn [question_rows questions with_questions]. apply app_nil_r.
  - intros Hrows. unfold parse_csv_questions.
    rewrite (parse_csv_blank_row int strip rows rest 1 qs Hrows).
    do 2 f_equal. lia.
Qed.

(** * The order of the topic list *)

Lemma string_leb_trans (a b c : string) :
  String.leb a b = true → String.leb b c = true → String.leb a c = true.
Proof.
  intros Hab%Is_true_true Hbc%Is_true_true. apply Is_true_true.
  exact (transitivity (R := String.le) Hab Hbc).
Qed.

Lemma string_leb_false (a b : string) :
  String.leb a b = false → String.leb b a = true.
Proof.
  intros Hab. destruct (String.leb_total a b) as [H|H]; [congruence | exact H].
Qed.

Lemma order_by_title_sorted (l : list Topic) :
  StronglySorted (λ a b, String.leb (t_title a) (t_title b) = true)
    (order_by_title l).
Proof.
  unfold order_by_title. induction l as [|a l IH]; cbn [foldr]; [constructor|].
  generalize dependent (foldr insert_by_title [] l). clear l.
  intros m Hm. induction Hm as [|b m Hm IH Hb]; cbn [insert_by_title].
  - repeat constructor.
  - destruct (String.leb (t_title a) (t_title b)) eqn:Hab.
    + constructor; [constructor; assumption|].
      constructor; [exact Hab|].
      eapply Forall_impl; [exact Hb|]. intros c Hbc.
      eapply string_leb_trans; eassumption.
    + constructor; [exact IH|].
      apply Forall_forall. intros c Hc.
      apply elem_of_insert_by_title in Hc as [->|Hc].
      * apply string_leb_false, Hab.
      * rewrite Forall_forall in Hb. apply Hb, Hc.
Qed.

(** X22.  [list_topics] returns the rows it is asked for in title order:
    every row of [topics] when hidden topics are included, the available
    ones otherwise, each as often as the table holds it, and a row never
    stands before a row whose title is smaller in the byte order.  The
    lists of [/topics] and the keyboard of [/test] follow this order.  The
    call changes nothing. *)
Theorem list_topics_selection_and_order (include_hidden : bool) (s : HState) :
  db_fault (hdb s) m_list_topics = None →
  ∃ r, list_topics include_hidden s = (inr r, s)
     ∧ r ≡ₚ (if include_hidden then topics (hdb s)
             else filter (λ t, t_is_available t = 1) (topics (hdb s)))
     ∧ (∀ t, t ∈ r ↔
          t ∈ topics (hdb s) ∧ (include_hidden = true ∨ t_is_available t = 1))
     ∧ ∀ i j a b, (i < j)%nat → r !! i = Some a → r !! j = Some b →
         String.leb (t_title a) (t_title b) = true.
Proof.
  intros Hio. eexists. split; [|split; [|split]].
  - unfold list_topics, connect. run_handler. rewrite Hio. reflexivity.
  - apply order_by_title_perm.
  - intros t. rewrite elem_of_order_by_title.
    destruct include_hidden.
    + intuition auto.
    + rewrite list_elem_of_filter. intuition (auto || discriminate).
  - intros i j a b Hij Hi Hj.
    exact (strongly_sorted_lookup _ _ i j a b (order_by_title_sorted _) Hij Hi Hj).
Qed.

Lemma list_topics_selection_and_order_witness :
  fst (list_topics false (demo_hstate idle demo_db)) = inr [short_topic; html_basics].
Proof.
  destruct (list_topics_selection_and_order false (demo_hstate idle demo_db))
    as (r & Hrun & _).
  - reflexivity.
  - rewrite Hrun. cbn [fst]. injection Hrun as <-. reflexivity.
Defined.

(** * The session invariant on a run *)

Lemma session_invariant_when_storage_works_witness :
  0 <= 3 < Z.of_nat (length demo_sample) ∧ 0 <= 2 <= 3 + 1.
Proof.
  destruct (session_invariant_when_storage_works
              (Ev_retry 7 1 id :: answer_from 7 0 [2; 3; 9]) demo_world)
    as [_ Hbounds].
  - split; [intros m; reflexivity|].
    intros u Hst. unfold context_of in Hst. cbn in Hst.
    rewrite lookup_empty in Hst. discriminate Hst.
  - repeat constructor;
      exists {| u_user_id := 7; u_full_name := "Ann"; u_role := "student" |};
      (split; [apply list_elem_of_here | reflexivity]).
  - apply (Hbounds 7 1 demo_sample 3 2). demo_active.
Defined.
